(** * Import rewriting for vendored Python libraries

    A shallow embedding of [scripts/vendor.py], the part that detects the
    vendored libraries and rewrites the imports of every source file
    ([detect_vendored_libs], [rewrite_imports], [rewrite_file_imports]),
    and of [run], which runs a command and prints what it writes; the
    properties of them that the specification states, and further
    properties that the code has.

    Python's [str] is a sequence of Unicode code points: a character is a
    code point, kept as an [N], and a text is a list of them.  The content
    of a file is the text that [read_text] gives and [write_text] takes:
    the decoding of the bytes, and what reading and writing do to the
    ends of lines, lie below the model, and a file that cannot be
    decoded is not among its files.

    The regular expressions of the script are kept in parsed form and run
    by a backtracking matcher that follows the [re] module: greedy
    repetition, ordered alternation, leftmost match, captures,
    look-ahead, and the replacement loop of [re.sub].  The substitution
    rules of the caller are patterns and templates in that form.  The
    names of the libraries and the namespace are pasted into patterns
    and templates as the script pastes them: the model follows [re] for
    names with no pattern operator but the dot ([re_plain]) and for
    namespaces without a backslash ([tpl_plain]), and the properties
    that depend on it assume as much.

    A directory is the list of its entries in the order in which
    [iterdir] yields them; the tree is finite (no link back into it), and
    a path prints with [/] between its components.

    The process that [run] starts is known by what the loop of [run]
    gets from it, turn by turn: what [poll] returns and the line that
    [readline] returns. *)

From Stdlib Require Import String Ascii DecimalString.
From Stdlib Require Import List NArith ZArith Arith Bool Lia.
Import ListNotations.

Set Implicit Arguments.
Set Warnings "-register-all".

(** ** Characters and texts *)

Abbreviation char := N (only parsing).
Abbreviation text := (list N) (only parsing).

Definition of_string (s : string) : text :=
  map N_of_ascii (list_ascii_of_string s).

Notation "'T' s" := (of_string s) (at level 9, s at level 0, only parsing).

Definition nl : char := 10%N.

(** [Py_UNICODE_ISSPACE]: what [\s] matches in a [str] pattern. *)
Definition is_space (c : char) : bool :=
  ((9 <=? c) && (c <=? 13) || (28 <=? c) && (c <=? 32) ||
   (c =? 133) || (c =? 160) || (c =? 5760) ||
   (8192 <=? c) && (c <=? 8202) || (c =? 8232) || (c =? 8233) ||
   (c =? 8239) || (c =? 8287) || (c =? 12288))%N.

Arguments is_space : simpl never.

(** [text.count("\n", 0, stop)] *)
Definition count_nl (t : text) (stop : nat) : nat :=
  length (filter (N.eqb nl) (firstn stop t)).

(** [str(n)] for a non-negative integer. *)
Definition str_of_nat (n : nat) : text :=
  of_string (NilZero.string_of_uint (Nat.to_uint n)).

(** [s.endswith(suffix)] *)
Definition endswith (s suffix : text) : bool :=
  (length suffix <=? length s) &&
  if list_eq_dec N.eq_dec (skipn (length s - length suffix) s) suffix
  then true else false.

(** ** The [re] module, on the fragment the script uses *)

Module Re.

(** A set of characters that one pattern item matches. *)
Inductive cls :=
| Chr (c : char)      (* a literal character *)
| AnyChar             (* [.]  : anything but a newline *)
| Space               (* [\s] *)
| NonSpace.           (* [\S] *)

Definition cls_ok (k : cls) (x : char) : bool :=
  match k with
  | Chr c => N.eqb x c
  | AnyChar => negb (N.eqb x nl)
  | Space => is_space x
  | NonSpace => negb (is_space x)
  end.

(** Parsed patterns.  Repetition is over one character set, which is all
    the script's patterns need. *)
Inductive re :=
| Eps
| One (k : cls)
| Bol                 (* [^] with MULTILINE *)
| Eol                 (* [$] with MULTILINE *)
| Bos                 (* [^] without MULTILINE *)
| Eos                 (* [$] without MULTILINE *)
| Seq (a b : re)
| Alt (a b : re)
| Star (k : cls)      (* [k*], greedy *)
| Plus (k : cls)      (* [k+], greedy *)
| Grp (n : nat) (a : re)
| Ahead (a : re).     (* [(?=a)] *)

(** The literal string [s] as a pattern. *)
Fixpoint lit (s : text) : re :=
  match s with
  | [] => Eps
  | c :: s' => Seq (One (Chr c)) (lit s')
  end.

(** The state of a match attempt: the character before the position
    (none at the start of the subject), the position, what is left of the
    subject, and the text of the groups captured so far. *)
Record mstate := MState {
  sprev : option char;
  spos : nat;
  srest : text;
  sgroups : list (nat * text)
}.

Definition at_bol (st : mstate) : bool :=
  match sprev st with
  | None => true
  | Some c => N.eqb c nl
  end.

Definition at_eol (st : mstate) : bool :=
  match srest st with
  | [] => true
  | c :: _ => N.eqb c nl
  end.

Definition at_bos (st : mstate) : bool :=
  match sprev st with
  | None => true
  | Some _ => false
  end.

Definition at_eos (st : mstate) : bool :=
  match srest st with
  | [] => true
  | [c] => N.eqb c nl
  | _ => false
  end.

Definition set_group (n : nat) (from to : mstate) : mstate :=
  MState (sprev to) (spos to) (srest to)
         ((n, firstn (spos to - spos from) (srest from)) :: sgroups to).

(** Greedy repetition of one character set: take as many characters as
    match, and give them back one at a time while the rest of the pattern
    fails. *)
Fixpoint star (k : cls) (cont : mstate -> option mstate)
    (prev : option char) (pos : nat) (g : list (nat * text)) (rest : text)
    {struct rest} : option mstate :=
  match rest with
  | x :: xs =>
      if cls_ok k x then
        match star k cont (Some x) (S pos) g xs with
        | Some r => Some r
        | None => cont (MState prev pos rest g)
        end
      else cont (MState prev pos rest g)
  | [] => cont (MState prev pos rest g)
  end.

(** The matcher, with the rest of the pattern as a continuation; [None] is
    failure, on which the caller tries its next alternative. *)
Fixpoint rmatch (r : re) (cont : mstate -> option mstate) (st : mstate)
    {struct r} : option mstate :=
  match r with
  | Eps => cont st
  | One k =>
      match srest st with
      | x :: xs =>
          if cls_ok k x then cont (MState (Some x) (S (spos st)) xs (sgroups st))
          else None
      | [] => None
      end
  | Bol => if at_bol st then cont st else None
  | Eol => if at_eol st then cont st else None
  | Bos => if at_bos st then cont st else None
  | Eos => if at_eos st then cont st else None
  | Seq a b => rmatch a (rmatch b cont) st
  | Alt a b =>
      match rmatch a cont st with
      | Some r => Some r
      | None => rmatch b cont st
      end
  | Star k => star k cont (sprev st) (spos st) (sgroups st) (srest st)
  | Plus k =>
      match srest st with
      | x :: xs =>
          if cls_ok k x then star k cont (Some x) (S (spos st)) (sgroups st) xs
          else None
      | [] => None
      end
  | Grp n a => rmatch a (fun st' => cont (set_group n st st')) st
  | Ahead a =>
      match rmatch a Some st with
      | Some st' => cont (MState (sprev st) (spos st) (srest st) (sgroups st'))
      | None => None
      end
  end.

(** A match attempt at one position.  With [must_advance] an empty match
    is refused (the matcher then backtracks). *)
Definition match_here (r : re) (must_advance : bool)
    (prev : option char) (pos : nat) (rest : text) : option mstate :=
  rmatch r
    (fun st => if must_advance && (spos st =? pos) then None else Some st)
    (MState prev pos rest []).

(** [m.group(n)]; a group that took no part in the match gives [None]. *)
Fixpoint group (n : nat) (g : list (nat * text)) : option text :=
  match g with
  | [] => None
  | (m, t) :: g' => if m =? n then Some t else group n g'
  end.

(** The leftmost match at or after a position: its start and final state. *)
Fixpoint search_from (r : re) (prev : option char) (pos : nat) (rest : text)
    {struct rest} : option (nat * mstate) :=
  match match_here r false prev pos rest with
  | Some st => Some (pos, st)
  | None =>
      match rest with
      | [] => None
      | x :: xs => search_from r (Some x) (S pos) xs
      end
  end.

(** [re.search(r, s)] *)
Definition search (r : re) (s : text) : option (nat * mstate) :=
  search_from r None 0 s.

(** Replacement templates, parsed: literal text and references to the
    numbered groups, [\1], [\2], ... *)
Inductive titem :=
| TLit (s : text)
| TRef (n : nat).

Definition template := list titem.

Definition expand_item (g : list (nat * text)) (i : titem) : text :=
  match i with
  | TLit s => s
  | TRef n => match group n g with Some t => t | None => [] end
  end.

Definition expand (tpl : template) (st : mstate) : text :=
  flat_map (expand_item (sgroups st)) tpl.

(** The replacement loop of [re.sub]: a scan over the subject, with the
    number of characters of the current match still to be dropped.  After
    an empty match the next match at the same position must not be empty. *)
Fixpoint sub_scan (r : re) (tpl : template) (skip : nat)
    (prev : option char) (pos : nat) (rest : text) {struct rest} : text :=
  match skip with
  | S n =>
      match rest with
      | x :: xs => sub_scan r tpl n (Some x) (S pos) xs
      | [] => []
      end
  | O =>
      match rest with
      | [] =>
          match match_here r false prev pos rest with
          | Some st => expand tpl st
          | None => []
          end
      | x :: xs =>
          match match_here r false prev pos rest with
          | None => x :: sub_scan r tpl 0 (Some x) (S pos) xs
          | Some st =>
              match spos st - pos with
              | S n => expand tpl st ++ sub_scan r tpl n (Some x) (S pos) xs
              | O =>
                  expand tpl st ++
                  match match_here r true prev pos rest with
                  | Some st2 =>
                      expand tpl st2 ++
                      sub_scan r tpl (spos st2 - pos - 1) (Some x) (S pos) xs
                  | None => x :: sub_scan r tpl 0 (Some x) (S pos) xs
                  end
              end
          end
      end
  end.

(** The number of groups of a pattern, and the largest reference of a
    template: a template that refers to a group the pattern does not have
    is an error ([re.error: invalid group reference]). *)
Fixpoint ngroups (r : re) : nat :=
  match r with
  | Seq a b | Alt a b => Nat.max (ngroups a) (ngroups b)
  | Grp n a => Nat.max n (ngroups a)
  | Ahead a => ngroups a
  | _ => 0
  end.

Definition tpl_ok (r : re) (tpl : template) : bool :=
  forallb (fun i => match i with TLit _ => true | TRef n => n <=? ngroups r end)
          tpl.

(** [re.sub(r, tpl, s)]; [None] stands for [re.error]. *)
Definition sub (r : re) (tpl : template) (s : text) : option text :=
  if tpl_ok r tpl then Some (sub_scan r tpl 0 None 0 s) else None.

End Re.

Import Re.

Infix ">>" := Seq (at level 60, right associativity).

(** ** Errors, paths, the file tree *)

(** [VendoringError] is the script's own exception; [ReError] is the
    [re.error] that [re.sub] raises for a bad template. *)
Inductive exn :=
| VendoringError (msg : text)
| ReError.

Inductive result (A : Type) :=
| Ok (a : A)
| Raise (e : exn).

Arguments Ok {A} a.
Arguments Raise {A} e.

Definition bind {A B : Type} (m : result A) (f : A -> result B) : result B :=
  match m with
  | Ok a => f a
  | Raise e => Raise e
  end.

Notation "x <- m ;; k" := (bind m (fun x => k))
  (at level 61, m at next level, right associativity).

(** A [Path] is the list of its components; [str(path)] joins them with
    the separator. *)
Definition path := list text.

Fixpoint path_str (p : path) : text :=
  match p with
  | [] => T "."
  | [c] => c
  | c :: p' => c ++ T "/" ++ path_str p'
  end.

(** A directory tree: files with their (decoded) content, directories
    with their entries in the order [iterdir] yields them. *)
Inductive entry :=
| File (name : text) (data : text)
| Dir (name : text) (items : list entry).

Definition entry_name (e : entry) : text :=
  match e with
  | File n _ => n
  | Dir n _ => n
  end.

(** What a run does to the outside world, in order. *)
Inductive event :=
| EvRead (p : path)
| EvWrite (p : path) (t : text)
| EvPrint (msg : text).

(** ** [detect_vendored_libs] *)

Definition py_ext : text := T ".py".

(** [name[:-3]] *)
Definition strip3 (name : text) : text := firstn (length name - 3) name.

Fixpoint detect_vendored_libs (destination : path) (items : list entry)
    : list text * list event :=
  match items with
  | [] => ([], [])
  | item :: rest =>
      let '(libs, out) := detect_vendored_libs destination rest in
      match item with
      | Dir name _ => (name :: libs, out)
      | File name _ =>
          if negb (endswith name py_ext) then
            (libs,
             EvPrint (T "Got unexpected non-Python file: " ++
                      path_str (destination ++ [name])) :: out)
          else (strip3 name :: libs, out)
      end
  end.

(** ** The patterns and templates of [rewrite_file_imports] *)

Definition dot : char := 46%N.

(** A library name as it stands inside a pattern.  The script pastes the
    name in unescaped, so a [.] in it is the pattern [.], any character
    but a newline.  Names are taken to hold none of the other characters
    that [re] reads as operators (see [re_plain]). *)
Fixpoint lib_re (lib : text) : re :=
  match lib with
  | [] => Eps
  | c :: l => One (if N.eqb c dot then AnyChar else Chr c) >> lib_re l
  end.

(** The characters that [re] reads as operators, the dot apart: the
    backslash, [^ $ * + ? { } [ ] |] and the parentheses. *)
Definition re_special : text :=
  [92; 94; 36; 42; 43; 63; 123; 125; 91; 93; 124; 40; 41]%N.

Definition mem (c : char) (s : text) : bool := existsb (N.eqb c) s.

(** No pattern operator other than [.] in a name. *)
Definition re_plain (lib : text) : bool :=
  forallb (fun c => negb (mem c re_special)) lib.

(** No backslash in what is pasted into a template. *)
Definition tpl_plain (s : text) : bool :=
  forallb (fun c => negb (N.eqb c 92)) s.

(** The plain import: [^], group 1 [\s*], [import {lib}], group 2 [\s|$]. *)
Definition pat_import (lib : text) : re :=
  Bol >> Grp 1 (Star Space) >> lit (T "import ") >> lib_re lib >>
  Grp 2 (Alt (One Space) Eol).

(** [\1from {namespace} import {lib}\2]; the namespace and the name are
    taken to hold no backslash, which a template reads as an escape
    (see [tpl_plain]). *)
Definition tpl_import (namespace lib : text) : template :=
  [TRef 1; TLit (T "from " ++ namespace ++ T " import " ++ lib); TRef 2].

(** The aliased dotted import: [^], group 1 [\s*], [import {lib}],
    group 2 [\.\S+], look-ahead [\s+as]. *)
Definition pat_alias (lib : text) : re :=
  Bol >> Grp 1 (Star Space) >> lit (T "import ") >> lib_re lib >>
  Grp 2 (One (Chr dot) >> Plus NonSpace) >>
  Ahead (Plus Space >> lit (T "as")).

(** [\1import {namespace}.{lib}\2] *)
Definition tpl_alias (namespace lib : text) : template :=
  [TRef 1; TLit (T "import " ++ namespace ++ T "." ++ lib); TRef 2].

(** The dotted import: [^], [\s*], group 1 [import {lib}\.\S+]. *)
Definition pat_dotted (lib : text) : re :=
  Bol >> Star Space >>
  Grp 1 (lit (T "import ") >> lib_re lib >> One (Chr dot) >> Plus NonSpace).

(** The from-import: [^], group 1 [\s*], [from {lib}], group 2 [\.|\s]. *)
Definition pat_from (lib : text) : re :=
  Bol >> Grp 1 (Star Space) >> lit (T "from ") >> lib_re lib >>
  Grp 2 (Alt (One (Chr dot)) (One Space)).

(** [\1from {namespace}.{lib}\2] *)
Definition tpl_from (namespace lib : text) : template :=
  [TRef 1; TLit (T "from " ++ namespace ++ T "." ++ lib); TRef 2].

(** ** [rewrite_file_imports] *)

Definition re_sub (r : re) (tpl : template) (s : text) : result text :=
  match Re.sub r tpl s with
  | Some t => Ok t
  | None => Raise ReError
  end.

(** A substitution rule, [{"match": ..., "replace": ...}], parsed. *)
Record substitution := Substitution {
  sub_match : re;
  sub_replace : template
}.

Definition quote : text := [34%N].

(** The message of the error raised on [import a.b]. *)
Definition dotted_message (item : path) (line_number : nat) (found : text)
    : text :=
  T "Encountered import that cannot be transformed for a namespace." ++ [nl] ++
  T "File " ++ quote ++ path_str item ++ quote ++ T ", line " ++
  str_of_nat line_number ++ [nl] ++
  T "  " ++ found ++ [nl] ++
  [nl] ++
  T "You will need to add a patch, that adapts the code to avoid a " ++
  T "`import dotted.name` style import here; since those cannot be " ++
  T "transformed for importing via a namespace.".

(** The loop over the substitutions. *)
Fixpoint apply_substitutions (substitutions : list substitution) (t : text)
    : result text :=
  match substitutions with
  | [] => Ok t
  | di :: rest =>
      t' <- re_sub (sub_match di) (sub_replace di) t ;;
      apply_substitutions rest t'
  end.

(** The body of the loop over the libraries, for one library. *)
Definition rewrite_lib (item : path) (namespace lib : text) (t : text)
    : result text :=
  t1 <- re_sub (pat_import lib) (tpl_import namespace lib) t ;;
  t2 <- re_sub (pat_alias lib) (tpl_alias namespace lib) t1 ;;
  match search (pat_dotted lib) t2 with
  | Some (start, m) =>
      let line_number := count_nl t2 start + 1 in
      Raise (VendoringError
               (dotted_message item line_number
                  (match group 1 (sgroups m) with Some g => g | None => [] end)))
  | None =>
      re_sub (pat_from lib) (tpl_from namespace lib) t2
  end.

Fixpoint rewrite_libs (item : path) (namespace : text)
    (vendored_libs : list text) (t : text) : result text :=
  match vendored_libs with
  | [] => Ok t
  | lib :: rest =>
      t' <- rewrite_lib item namespace lib t ;;
      rewrite_libs item namespace rest t'
  end.

(** From the text read to the text to write, or the exception. *)
Definition rewrite_text (item : path) (namespace : text)
    (vendored_libs : list text) (substitutions : list substitution)
    (t : text) : result text :=
  t' <- apply_substitutions substitutions t ;;
  match namespace with
  | [] => Ok t'
  | _ :: _ => rewrite_libs item namespace vendored_libs t'
  end.

(** The file is read, and written only when nothing was raised.  The
    content after the call, the events, and the exception if any. *)
Definition rewrite_file_imports (item : path) (namespace : text)
    (vendored_libs : list text) (substitutions : list substitution)
    (data : text) : text * list event * option exn :=
  match rewrite_text item namespace vendored_libs substitutions data with
  | Ok t => (t, [EvRead item; EvWrite item t], None)
  | Raise e => (data, [EvRead item], Some e)
  end.

(** ** [rewrite_imports] *)

Section Walk.

Variable namespace : text.
Variable vendored_libs : list text.
Variable substitutions : list substitution.

(** The loop over the entries of a directory, given what is done with
    one entry: it stops at the first exception, leaving the entries after
    it as they are. *)
Fixpoint iter_items (visit : entry -> entry * list event * option exn)
    (items : list entry) : list entry * list event * option exn :=
  match items with
  | [] => ([], [], None)
  | item :: rest =>
      let '(item', ev, r) := visit item in
      match r with
      | Some e => (item' :: rest, ev, Some e)
      | None =>
          let '(rest', ev', r') := iter_items visit rest in
          (item' :: rest', ev ++ ev', r')
      end
  end.

(** One entry of the directory [destination]. *)
Fixpoint rewrite_item (destination : path) (item : entry)
    : entry * list event * option exn :=
  match item with
  | Dir name items =>
      let '(items', ev, r) :=
        iter_items (rewrite_item (destination ++ [name])) items in
      (Dir name items', ev, r)
  | File name data =>
      if endswith name py_ext then
        let '(data', ev, r) :=
          rewrite_file_imports (destination ++ [name]) namespace
            vendored_libs substitutions data in
        (File name data', ev, r)
      else (item, [], None)
  end.

Definition rewrite_imports (destination : path) (items : list entry)
    : list entry * list event * option exn :=
  iter_items (rewrite_item destination) items.

End Walk.

(** ** [run] *)

(** [shlex.quote]: an argument of safe characters only --- ASCII letters
    and digits, [_] and [@%+=:,./-] --- is left as it is; any other is
    put between single quotes, a single quote inside it becoming
    ['"'"']; the empty argument is ['']. *)
Definition is_safe (c : char) : bool :=
  ((48 <=? c) && (c <=? 57) || (65 <=? c) && (c <=? 90) ||
   (97 <=? c) && (c <=? 122) || (c =? 95))%N ||
  existsb (N.eqb c) (T "@%+=:,./-").

Definition apostrophe : char := 39%N.

(** [s.replace("'", "'\"'\"'")] *)
Definition escape_quotes (s : text) : text :=
  flat_map (fun c => if N.eqb c apostrophe
                     then [apostrophe; 34; apostrophe; 34; apostrophe]%N
                     else [c]) s.

Definition shlex_quote (s : text) : text :=
  match s with
  | [] => [apostrophe; apostrophe]
  | _ => if forallb is_safe s then s
         else [apostrophe] ++ escape_quotes s ++ [apostrophe]
  end.

(** [" ".join(parts)] *)
Fixpoint join_spaces (parts : list text) : text :=
  match parts with
  | [] => []
  | [p] => p
  | p :: rest => p ++ 32%N :: join_spaces rest
  end.

(** [s.rstrip()]: the text without the white space at its end. *)
Fixpoint rstrip (s : text) : text :=
  match s with
  | [] => []
  | c :: s' =>
      match rstrip s' with
      | [] => if is_space c then [] else [c]
      | r => c :: r
      end
  end.

(** [str(n)] for an integer. *)
Definition str_of_Z (z : Z) : text :=
  of_string (NilZero.string_of_int (Z.to_int z)).

(** What the loop of [run] gets from the process at one turn: the return
    code that [poll] gives, none while the process runs, and the line
    that [readline] gives, empty at the end of the output. *)
Record turn := Turn {
  polled : option Z;
  line_read : text
}.

(** The loop: at each turn the line is stripped and printed if anything
    is left of it, and the loop ends when the return code is there.  The
    result is what was printed and the return code; [None] when the
    turns run out with the process still running. *)
Fixpoint run_loop (turns : list turn) : option (list event * Z) :=
  match turns with
  | [] => None
  | tn :: rest =>
      let line := rstrip (line_read tn) in
      let out := match line with [] => [] | _ :: _ => [EvPrint line] end in
      match polled tn with
      | Some retcode => Some (out, retcode)
      | None =>
          match run_loop rest with
          | Some (out', retcode) => Some (out ++ out', retcode)
          | None => None
          end
      end
  end.

Definition exit_message (retcode : Z) : text :=
  T "Command exited with non-zero exit code: " ++ str_of_Z retcode.

(** [run(args)], given the turns of the process that [Popen] starts: the
    events and the exception, if any. *)
Definition run (args : list text) (turns : list turn)
    : option (list event * option exn) :=
  let cmd := join_spaces (map shlex_quote args) in
  match run_loop turns with
  | None => None
  | Some (out, retcode) =>
      Some (EvPrint (T "Running " ++ cmd) :: out,
            if Z.eqb retcode 0 then None
            else Some (VendoringError (exit_message retcode)))
  end.

(** * Vocabulary of the properties *)

(** Whether an entry is a directory, and its name: all that detection
    looks at. *)
Definition top (e : entry) : bool * text :=
  match e with
  | Dir n _ => (true, n)
  | File n _ => (false, n)
  end.

(** The top-level files that are not Python files, in order. *)
Fixpoint non_python_files (items : list entry) : list text :=
  match items with
  | [] => []
  | Dir _ _ :: rest => non_python_files rest
  | File n _ :: rest =>
      if endswith n py_ext then non_python_files rest
      else n :: non_python_files rest
  end.

Definition report (destination : path) (name : text) : event :=
  EvPrint (T "Got unexpected non-Python file: " ++
           path_str (destination ++ [name])).

(** Induction on a tree, with the property for all the entries of a
    directory at hand. *)
Fixpoint entry_forall_ind (P : entry -> Prop)
    (HF : forall n d, P (File n d))
    (HD : forall n items, Forall P items -> P (Dir n items))
    (e : entry) : P e :=
  match e with
  | File n d => HF n d
  | Dir n items =>
      HD n items
        ((fix all (l : list entry) : Forall P l :=
            match l with
            | [] => Forall_nil P
            | x :: xs => Forall_cons x (entry_forall_ind HF HD x) (all xs)
            end) items)
  end.

(** The files of a tree with their paths and contents, in the order in
    which the walk meets them. *)
Fixpoint files_of (destination : path) (e : entry) : list (path * text) :=
  match e with
  | File n d => [(destination ++ [n], d)]
  | Dir n items => flat_map (files_of (destination ++ [n])) items
  end.

Definition walk_files (destination : path) (items : list entry)
    : list (path * text) :=
  flat_map (files_of destination) items.

(** A tree without the contents of its [.py] files: its directories, the
    names of all its files, the contents of the other files. *)
Fixpoint skeleton (e : entry) : entry :=
  match e with
  | File n d => if endswith n py_ext then File n [] else File n d
  | Dir n items => Dir n (map skeleton items)
  end.

Definition is_py (p : path) : bool := endswith (last p []) py_ext.

Definition tree_after {A B C : Type} (r : A * B * C) : A := fst (fst r).
Definition events {A B C : Type} (r : A * B * C) : B := snd (fst r).
Definition raised {A B C : Type} (r : A * B * C) : C := snd r.

Section WalkVocabulary.

Variable namespace : text.
Variable vendored_libs : list text.
Variable substitutions : list substitution.

Local Abbreviation run_text p d :=
  (rewrite_text p namespace vendored_libs substitutions d).

(** What the walk leaves in a file that it got through, and the events
    of that. *)
Definition file_after (f : path * text) : path * text :=
  (fst f,
   if is_py (fst f) then
     match run_text (fst f) (snd f) with
     | Ok t => t
     | Raise _ => snd f
     end
   else snd f).

Definition file_events (f : path * text) : list event :=
  if is_py (fst f) then [EvRead (fst f); EvWrite (fst f) (snd (file_after f))]
  else [].

Definition file_ok (f : path * text) : Prop :=
  is_py (fst f) = true -> exists t, run_text (fst f) (snd f) = Ok t.

(** What a walk over the files [fs] that ends with [r] leaves and does. *)
Definition walk_spec (fs fs' : list (path * text)) (ev : list event)
    (r : option exn) : Prop :=
  match r with
  | None =>
      fs' = map file_after fs /\ ev = flat_map file_events fs /\
      Forall file_ok fs
  | Some ex =>
      exists before p d after,
        fs = before ++ (p, d) :: after /\
        fs' = map file_after before ++ (p, d) :: after /\
        ev = flat_map file_events before ++ [EvRead p] /\
        Forall file_ok before /\
        is_py p = true /\ run_text p d = Raise ex
  end.

End WalkVocabulary.

(** The substitutions as a fold over the list: each is one [re.sub] on
    the text that the one before it gave. *)
Definition fold_substitutions (substitutions : list substitution) (t : text)
    : result text :=
  fold_left
    (fun acc di => bind acc (re_sub (sub_match di) (sub_replace di)))
    substitutions (Ok t).

(** The rule of the script's own configuration: the text [('pygments.lexers.]
    becomes [('positron._vendor.pygments.lexers.]. *)
Definition pygments_rule : substitution :=
  Substitution (lit (T "('pygments.lexers."))
               [TLit (T "('positron._vendor.pygments.lexers.")].

Definition rename (old new : string) : substitution :=
  Substitution (lit (T old)) [TLit (T new)].

Definition spaces (s : text) : bool := forallb is_space s.
Definition nonspaces (s : text) : bool := forallb (fun c => negb (is_space c)) s.
Definition inline (s : text) : bool := forallb (fun c => negb (N.eqb c nl)) s.

(** The character before the position once [s] is passed. *)
Definition lastp (s : text) (prev : option char) : option char :=
  fold_left (fun _ c => Some c) s prev.

(** The state once [s] is passed, with [r] left. *)
Definition moved (st : mstate) (s r : text) : mstate :=
  MState (lastp s (sprev st)) (spos st + length s) r (sgroups st).

(** A continuation that fails wherever a space comes next. *)
Definition rejects_space (cont : mstate -> option mstate) : Prop :=
  forall st x xs, srest st = x :: xs -> is_space x = true -> cont st = None.

Definition no_space_ahead (r : text) : Prop :=
  match r with
  | [] => True
  | x :: _ => is_space x = false
  end.

(** Names and namespaces that the rules are meant for: a library name
    is not empty and holds no space, no dot and no pattern operator; a
    namespace is not empty and holds no space and no backslash. *)
Definition name_char (c : char) : bool :=
  negb (is_space c) && negb (N.eqb c dot) && negb (mem c re_special).

Definition importable (lib : text) : bool :=
  match lib with
  | [] => false
  | _ => forallb name_char lib
  end.

Definition ns_char (c : char) : bool :=
  negb (is_space c) && negb (N.eqb c 92).

Definition namespace_ok (namespace : text) : bool :=
  match namespace with
  | [] => false
  | _ => forallb ns_char namespace
  end.

(** The start of a line: where [^] matches. *)
Definition bol_prev (prev : option char) : bool :=
  match prev with None => true | Some c => N.eqb c nl end.

Definition kw_import : text := T "import ".
Definition kw_from : text := T "from ".

Definition kw_as : text := T "as".

(** [s] starts with [p]. *)
Fixpoint starts_with (p s : text) : bool :=
  match p, s with
  | [], _ => true
  | c :: p', x :: s' => N.eqb x c && starts_with p' s'
  | _ :: _, [] => false
  end.

(** Whether the namespace is the library name or starts with it and a
    dot: then what rules 1 and 2 write starts again with the name. *)
Definition clash (lib namespace : text) : bool :=
  starts_with (lib ++ [dot]) (namespace ++ [dot]).

Definition dot_or_space (x : char) : bool := N.eqb x dot || is_space x.

Definition space_first (trail : text) : bool :=
  match trail with
  | [] => true
  | x :: _ => is_space x
  end.

Definition nonempty (s : text) : bool :=
  match s with
  | [] => false
  | _ :: _ => true
  end.

(** [part] occurs in [whole]. *)
Definition contains (part whole : text) : Prop :=
  exists a b, whole = a ++ part ++ b.

(** The text of group 1 of a match, [m.group(1)]. *)
Definition found (m : mstate) : text :=
  match group 1 (sgroups m) with
  | Some g => g
  | None => []
  end.

Definition sample_tree : list entry :=
  [File (T "a.py") (T "import x");
   Dir (T "x") [File (T "m.py") (T "import x.y"); File (T "n.py") (T "import x")];
   File (T "z.py") (T "import x")].

(** A text that is empty or ends with a newline: whole lines. *)
Definition line_end (a : text) : Prop := a = [] \/ exists a', a = a' ++ [nl].

(** A text that is empty or starts with a newline: what follows a line. *)
Definition line_start (b : text) : Prop := b = [] \/ exists b', b = nl :: b'.

(** The number of newlines of a text. *)
Definition nl_count (t : text) : nat := length (filter (N.eqb nl) t).

(** A text that starts with a character that is not a space. *)
Definition word_first (l : text) : Prop :=
  match l with
  | [] => False
  | c :: _ => is_space c = false
  end.

(** What a rule that matches at starts of lines only gives from the end
    of a line on: the newline, and the lines after it. *)
Definition after_line (r : re) (tpl : template) (pos : nat) (rest : text)
    : text :=
  match rest with
  | [] => []
  | x :: rest' => x :: sub_scan r tpl 0 (Some nl) (S pos) rest'
  end.

(** The shapes of the lines that the three rewriting rules match, after
    the spaces at the start of the line: the text [w] that the rule
    replaces with [s], and the text [g] of its group 2, which it keeps. *)
Definition shape_import (namespace lib : text) (r1 w s g : text) : Prop :=
  w = kw_import ++ lib /\
  s = T "from " ++ namespace ++ T " import " ++ lib /\
  exists trail,
    r1 = w ++ trail /\ space_first trail = true /\ g = firstn 1 trail.

Definition shape_alias (namespace lib : text) (r1 w s g : text) : Prop :=
  w = kw_import ++ lib /\
  s = kw_import ++ namespace ++ T "." ++ lib /\
  exists sub ws rest,
    r1 = w ++ dot :: sub ++ ws ++ kw_as ++ rest /\
    nonempty sub = true /\ nonspaces sub = true /\
    nonempty ws = true /\ spaces ws = true /\ g = dot :: sub.

Definition shape_from (namespace lib : text) (r1 w s g : text) : Prop :=
  w = kw_from ++ lib /\
  s = kw_from ++ namespace ++ T "." ++ lib /\
  exists x rest,
    r1 = w ++ x :: rest /\ dot_or_space x = true /\ g = [x].

(** A rule rewrites a text line by line: a line, between whole lines
    before it and a newline or nothing after it, comes out at the same
    place, rewritten if what follows its indentation has the shape of
    the rule and as it is if not. *)
Definition rewrites_lines (r : re) (tpl : template)
    (shape : text -> text -> text -> text -> Prop) : Prop :=
  forall a indent l rest,
    line_end a -> spaces indent = true -> word_first l -> inline l = true ->
    line_start rest ->
    exists a' l' rest',
      sub_scan r tpl 0 None 0 (a ++ indent ++ l ++ rest) =
        a' ++ indent ++ l' ++ rest' /\
      line_end a' /\ nl_count a' = nl_count a /\
      line_start rest' /\ (rest = [] -> rest' = []) /\
      inline l' = true /\
      (forall w s g, shape (l ++ rest) w s g -> l' = s ++ skipn (length w) l) /\
      ((forall w s g, ~ shape (l ++ rest) w s g) -> l' = l).

(** A rule turns the line [l] into [l'], whatever follows the line:
    either [l] has the shape of the rule and [l'] is what the rule
    writes, or it has not and [l'] is [l]. *)
Definition line_to (shape : text -> text -> text -> text -> Prop)
    (l l' : text) : Prop :=
  forall rest, line_start rest ->
    (exists w s g, shape (l ++ rest) w s g /\ l' = s ++ skipn (length w) l) \/
    ((forall w s g, ~ shape (l ++ rest) w s g) /\ l' = l).

(** The text [out] is the text [a ++ indent ++ l ++ rest] with, in place of
    the line [l], the line [l']: as many whole lines before it, and a
    newline or nothing after it. *)
Definition line_replaced (a indent l' rest out : text) : Prop :=
  exists a' rest',
    out = a' ++ indent ++ l' ++ rest' /\
    line_end a' /\ nl_count a' = nl_count a /\
    line_start rest' /\ (rest = [] -> rest' = []).

(** A rule made of a pattern [^b] and a template that rewrites the lines
    of one shape: a match is the spaces at the start of a line and the
    text [w] with the group [g] after it, and the rule writes the text
    [s] for [w]. *)
Definition anchored (r : re) (tpl : template)
    (shape : text -> text -> text -> text -> Prop) : Prop :=
  exists b, r = Bol >> b /\
  (forall r1 w s g, shape r1 w s g ->
     exists rest, r1 = w ++ g ++ rest /\ word_first w /\ inline w = true /\
                  inline s = true /\ (inline g = true \/ g = [nl])) /\
  (forall r1 w s g w' s' g',
     shape r1 w s g -> shape r1 w' s' g' -> w = w' /\ s = s' /\ g = g') /\
  (forall prev pos ws r1 w s g,
     bol_prev prev = true -> spaces ws = true -> shape r1 w s g ->
     exists st,
       match_here (Bol >> b) false prev pos (ws ++ r1) = Some st /\
       spos st = pos + length (ws ++ w ++ g) /\
       expand tpl st = ws ++ s ++ g) /\
  (forall prev pos t st,
     match_here (Bol >> b) false prev pos t = Some st ->
     exists ws r1 w s g, t = ws ++ r1 /\ spaces ws = true /\ shape r1 w s g).

(** What the walk does with a file whose text it leaves as it is: a
    [.py] file is read and written back, any other file is passed by. *)
Definition touch (f : path * text) : list event :=
  if is_py (fst f) then [EvRead (fst f); EvWrite (fst f) (snd f)] else [].

(** What a rule makes of the line [l] when [rest] follows it: the line
    has the shape of the rule and [l'] is what the rule writes, or it
    has not and [l'] is [l]. *)
Definition line_at (shape : text -> text -> text -> text -> Prop)
    (l rest l' : text) : Prop :=
  (exists w s g, shape (l ++ rest) w s g /\ l' = s ++ skipn (length w) l) \/
  ((forall w s g, ~ shape (l ++ rest) w s g) /\ l' = l).

(** A name ends where the first character stands that no name holds. *)
Definition name_end (r : text) : Prop :=
  match r with
  | [] => True
  | x :: _ => name_char x = false
  end.

(** A text that the name of a library matches when the name is read as
    a pattern: character by character the same, but for the dots of the
    name, where any character other than a newline may stand. *)
Fixpoint fits (lib m : text) : bool :=
  match lib, m with
  | [], [] => true
  | c :: lib', x :: m' =>
      (if N.eqb c dot then negb (N.eqb x nl) else N.eqb x c) && fits lib' m'
  | _, _ => false
  end.

(** Some start of the text [t] fits the name [lib] read as a pattern. *)
Fixpoint fits_start (lib t : text) : bool :=
  match lib, t with
  | [], _ => true
  | c :: lib', x :: t' =>
      (if N.eqb c dot then negb (N.eqb x nl) else N.eqb x c) &&
      fits_start lib' t'
  | _ :: _, [] => false
  end.

(** The text [whole] holds somewhere the keyword [kw] and right after it
    a text that fits the name [lib]; for a name without a dot, it holds
    the keyword and the name. *)
Fixpoint occurs_fit (kw lib whole : text) : bool :=
  starts_with kw whole && fits_start lib (skipn (length kw) whole) ||
  match whole with
  | [] => false
  | _ :: rest => occurs_fit kw lib rest
  end.

(** Whether a text holds the name of a library, as the patterns read
    it, right after [import ] or [from ], anywhere. *)
Definition mentions (lib data : text) : bool :=
  occurs_fit kw_import lib data || occurs_fit kw_from lib data.

(** Names that the model of the patterns covers: no pattern operator
    but the dot, and no space. *)
Definition pattern_name (lib : text) : bool := re_plain lib && nonspaces lib.

(** The shapes of the lines that the three rewriting rules match for a
    name that may hold dots: the module [m] of the line fits the name. *)
Definition fit_import (namespace lib : text) (r1 w s g : text) : Prop :=
  exists m, fits lib m = true /\
  w = kw_import ++ m /\
  s = T "from " ++ namespace ++ T " import " ++ lib /\
  exists trail,
    r1 = w ++ trail /\ space_first trail = true /\ g = firstn 1 trail.

Definition fit_alias (namespace lib : text) (r1 w s g : text) : Prop :=
  exists m, fits lib m = true /\
  w = kw_import ++ m /\
  s = kw_import ++ namespace ++ T "." ++ lib /\
  exists sub ws rest,
    r1 = w ++ dot :: sub ++ ws ++ kw_as ++ rest /\
    nonempty sub = true /\ nonspaces sub = true /\
    nonempty ws = true /\ spaces ws = true /\ g = dot :: sub.

Definition fit_from (namespace lib : text) (r1 w s g : text) : Prop :=
  exists m, fits lib m = true /\
  w = kw_from ++ m /\
  s = kw_from ++ namespace ++ T "." ++ lib /\
  exists x rest,
    r1 = w ++ x :: rest /\ dot_or_space x = true /\ g = [x].

(** The name [lib], read as a pattern, fits no text that starts with [W]
    followed by a dot, a space or nothing: the two differ before either
    ends, or the name goes on after [W] with a character that is
    neither a dot nor a space. *)
Fixpoint apart (lib W : text) : bool :=
  match lib, W with
  | c :: lib', x :: W' =>
      negb (if N.eqb c dot then negb (N.eqb x nl) else N.eqb x c) ||
      apart lib' W'
  | c :: _, [] => negb (dot_or_space c)
  | [], _ => false
  end.

(** A text that is empty or starts with a dot or a space. *)
Definition sep_first (t : text) : Prop :=
  match t with
  | [] => True
  | c :: _ => dot_or_space c = true
  end.

(** A library that the rules can take through the namespace: a plain
    name that does not clash with the namespace. *)
Definition vendorable (namespace lib : text) : bool :=
  importable lib && negb (clash lib namespace).

(** A name of the list that stays out of the way of the lines that go
    through the namespace: a library that the rules can take through
    it, or a name of any kind that the patterns cover and that is apart
    from the namespace (the name of a directory of metadata, say). *)
Definition aside (namespace lib : text) : bool :=
  vendorable namespace lib || pattern_name lib && apart lib namespace.

(** A name of the list that stays out of the way of the lines that
    import the library [L] as well: a library that the rules can take
    through the namespace, or a name that the patterns cover and that
    is apart from [L] and from the namespace. *)
Definition beside (namespace L lib : text) : bool :=
  vendorable namespace lib ||
  pattern_name lib && apart lib L && apart lib namespace.

(** The names of a list that all leave a line alone: none of their
    rules matches it, and rule 3 does not refuse it. *)
Definition leaves (namespace : text) (l lib : text) : Prop :=
  pattern_name lib = true /\
  line_to (fit_import namespace lib) l l /\
  line_to (fit_alias namespace lib) l l /\
  line_to (fit_from namespace lib) l l /\
  (forall m name more,
     fits lib m = true -> l <> kw_import ++ m ++ dot :: name ++ more).

(** A name that has nothing to do with the lines that import the plain
    name [W]: another plain name, or a name that the patterns cover and
    that is apart from [W]. *)
Definition clear_of (W lib : text) : bool :=
  importable lib || pattern_name lib && apart lib W.

(** A name that starts with a character other than a dot: it is not
    empty, and its first character, read as a pattern, does not fit the
    dot that a relative import starts with. *)
Definition rooted (lib : text) : bool :=
  match lib with
  | [] => false
  | c :: _ => negb (N.eqb c dot)
  end.

(** A template that refers to numbered groups only: the reference
    [\g<0>] to the whole match is not among its items. *)
Definition whole_free (tpl : template) : bool :=
  forallb (fun i => match i with TRef 0 => false | _ => true end) tpl.

(** A substitution rule whose template refers to a group that its
    pattern has not. *)
Definition bad_template (di : substitution) : bool :=
  negb (tpl_ok (sub_match di) (sub_replace di)).

(** The lines that import a library [lib], after the indentation, and
    what the rules make of them with the namespace [namespace]. *)
Inductive rewritten_line (namespace lib : text) : text -> text -> Prop :=
| RwImport (trail : text) :
    space_first trail = true -> inline trail = true ->
    rewritten_line namespace lib
      (T "import " ++ lib ++ trail)
      (T "from " ++ namespace ++ T " import " ++ lib ++ trail)
| RwAlias (sub ws more : text) :
    nonempty sub = true -> nonspaces sub = true ->
    nonempty ws = true -> spaces ws = true -> inline ws = true ->
    inline more = true ->
    rewritten_line namespace lib
      (T "import " ++ lib ++ T "." ++ sub ++ ws ++ T "as" ++ more)
      (T "import " ++ namespace ++ T "." ++ lib ++ T "." ++ sub ++ ws ++
       T "as" ++ more)
| RwFrom (x : char) (more : text) :
    dot_or_space x = true -> inline (x :: more) = true ->
    rewritten_line namespace lib
      (T "from " ++ lib ++ x :: more)
      (T "from " ++ namespace ++ T "." ++ lib ++ x :: more).

(** The lines that [run] prints for the lines it reads. *)
Definition printed (lines : list text) : list event :=
  map EvPrint (filter nonempty (map rstrip lines)).

(** The configuration that [main] builds: the namespace and the one
    substitution rule. *)
Definition main_namespace : text := T "positron._vendor".

Definition main_substitutions : list substitution := [pygments_rule].



(** * Properties *)

(** ** Library detection *)

Lemma endswith_app (x suffix : text) : endswith (x ++ suffix) suffix = true.
Proof.
  unfold endswith. rewrite length_app.
  replace (length x + length suffix - length suffix) with (length x) by lia.
  rewrite skipn_app, skipn_all, Nat.sub_diag. simpl.
  destruct (list_eq_dec N.eq_dec suffix suffix) as [_ | ne]; [| contradiction].
  rewrite andb_true_r. apply Nat.leb_le. lia.
Qed.

Lemma endswith_split (s suffix : text) :
  endswith s suffix = true ->
  s = firstn (length s - length suffix) s ++ suffix.
Proof.
  unfold endswith. intros H. apply andb_prop in H as [_ H].
  destruct (list_eq_dec N.eq_dec _ suffix) as [e | _]; [| discriminate].
  rewrite <- e at 2. symmetry. apply firstn_skipn.
Qed.

Lemma strip3_app (x : text) : strip3 (x ++ py_ext) = x.
Proof.
  unfold strip3. rewrite length_app. simpl.
  replace (length x + 3 - 3) with (length x) by lia.
  rewrite firstn_app, firstn_all, Nat.sub_diag. simpl. apply app_nil_r.
Qed.

Lemma strip3_py (name : text) :
  endswith name py_ext = true -> name = strip3 name ++ py_ext.
Proof. intros H. apply (endswith_split _ _ H). Qed.

Lemma detect_in (destination : path) (items : list entry) (x : text) :
  In x (fst (detect_vendored_libs destination items)) <->
  (exists sub, In (Dir x sub) items) \/
  (exists d, In (File (x ++ py_ext) d) items).
Proof.
  induction items as [| item rest IH]; simpl.
  - split; [contradiction | intros [[? []] | [? []]]].
  - destruct (detect_vendored_libs destination rest) as [libs out] eqn:E.
    simpl in IH.
    assert (Hrest : In x libs ->
      (exists sub, item = Dir x sub \/ In (Dir x sub) rest) \/
      (exists d, item = File (x ++ py_ext) d \/ In (File (x ++ py_ext) d) rest)).
    { intros H. apply IH in H as [[sub H] | [d H]]; [left | right]; eauto. }
    assert (Hback : (exists sub, In (Dir x sub) rest) \/
                    (exists d, In (File (x ++ py_ext) d) rest) -> In x libs)
      by apply IH.
    destruct item as [name data | name sub0].
    + destruct (endswith name py_ext) eqn:Epy; simpl.
      * split.
        -- intros [<- | H]; [| auto].
           right. exists data. left. f_equal. apply strip3_py, Epy.
        -- intros [[sub [H | H]] | [d [H | H]]].
           ++ discriminate.
           ++ right. apply Hback. eauto.
           ++ left. injection H as -> _. apply strip3_app.
           ++ right. apply Hback. eauto.
      * split; [auto |].
        intros [[sub [H | H]] | [d [H | H]]].
        -- discriminate.
        -- apply Hback. eauto.
        -- injection H as -> _. rewrite endswith_app in Epy. discriminate.
        -- apply Hback. eauto.
    + simpl. split.
      * intros [<- | H]; [| auto]. left. exists sub0. now left.
      * intros [[sub [H | H]] | [d [H | H]]].
        -- injection H as -> _. now left.
        -- right. apply Hback. eauto.
        -- discriminate.
        -- right. apply Hback. eauto.
Qed.

Lemma detect_reports (destination : path) (items : list entry) :
  snd (detect_vendored_libs destination items) =
  map (report destination) (non_python_files items).
Proof.
  induction items as [| [name data | name sub] rest IH]; simpl; auto;
    destruct (detect_vendored_libs destination rest) as [libs out];
    simpl in *; auto.
  destruct (endswith name py_ext); simpl; [assumption |].
  now rewrite IH.
Qed.

Lemma detect_top (destination : path) (items items' : list entry) :
  map top items' = map top items ->
  detect_vendored_libs destination items' =
  detect_vendored_libs destination items.
Proof.
  revert items'.
  induction items as [| item rest IH]; intros [| item' rest'] H;
    try discriminate; auto.
  simpl in H. injection H as Htop Hrest.
  simpl. rewrite (IH _ Hrest).
  destruct item, item'; simpl in Htop; try discriminate;
    injection Htop as ->; reflexivity.
Qed.

(** C6. Detection returns exactly the names of the top-level directories
    and the stems of the top-level [.py] files; every other top-level
    file is reported, in order, and skipped; and nothing below the top
    level is looked at: two directories whose top-level entries have the
    same kinds and names give the same result. *)
Theorem detect_exact (destination : path) (items : list entry) :
  (forall x,
     In x (fst (detect_vendored_libs destination items)) <->
     (exists sub, In (Dir x sub) items) \/
     (exists d, In (File (x ++ py_ext) d) items)) /\
  snd (detect_vendored_libs destination items) =
    map (report destination) (non_python_files items) /\
  (forall items',
     map top items' = map top items ->
     detect_vendored_libs destination items' =
     detect_vendored_libs destination items).
Proof.
  split; [| split].
  - intros x. apply detect_in.
  - apply detect_reports.
  - intros items'. apply detect_top.
Qed.

(** C7, as stated, fails: a directory [a] next to a file [a.py] gives the
    name [a] twice. *)
Lemma detect_duplicate :
  fst (detect_vendored_libs [T "d"] [Dir (T "a") []; File (T "a.py") []])
    = [T "a"; T "a"] /\
  ~ NoDup (fst (detect_vendored_libs [T "d"]
                  [Dir (T "a") []; File (T "a.py") []])).
Proof.
  split; [reflexivity |].
  intros H. vm_compute in H. inversion H as [| ? ? Hin _]. apply Hin. now left.
Qed.

(** C7, amended. The entries of a directory have distinct names; when
    moreover no directory has the name of the stem of a [.py] file next
    to it, the detected names are distinct. *)
Theorem detect_nodup (destination : path) (items : list entry) :
  NoDup (map entry_name items) ->
  (forall n sub d, In (Dir n sub) items -> ~ In (File (n ++ py_ext) d) items) ->
  NoDup (fst (detect_vendored_libs destination items)).
Proof.
  induction items as [| item rest IH]; simpl; intros Hnd Hcl.
  - constructor.
  - inversion Hnd as [| ? ? Hnotin Hnd']; subst.
    assert (IH' : NoDup (fst (detect_vendored_libs destination rest))).
    { apply IH; [assumption |]. intros n sub d Hi Hf.
      apply (Hcl n sub d); now right. }
    pose proof (detect_in destination rest) as Hin.
    destruct (detect_vendored_libs destination rest) as [libs out].
    simpl in *.
    destruct item as [name data | name sub0]; simpl in *.
    + destruct (endswith name py_ext) eqn:Epy; simpl; [| assumption].
      constructor; [| assumption].
      intros H. apply Hin in H as [[sub H] | [d H]].
      * apply (Hcl (strip3 name) sub data); [now right |].
        left. f_equal. apply strip3_py, Epy.
      * apply Hnotin. rewrite <- (strip3_py _ Epy) in H.
        apply (in_map entry_name) in H. exact H.
    + constructor; [| assumption].
      intros H. apply Hin in H as [[sub H] | [d H]].
      * apply Hnotin. apply (in_map entry_name) in H. exact H.
      * apply (Hcl name sub0 d); [now left | now right].
Qed.

Lemma detect_nodup_witness :
  NoDup (fst (detect_vendored_libs [T "d"]
                [Dir (T "a") []; File (T "b.py") []; File (T "c.txt") []])).
Proof.
  apply detect_nodup.
  - simpl. repeat constructor; simpl; intros H;
      repeat (destruct H as [H | H]; [discriminate H |]); exact H.
  - intros n sub d H Hf. simpl in H, Hf.
    destruct H as [H | [H | [H | []]]]; try discriminate H.
    injection H as <- _.
    destruct Hf as [Hf | [Hf | [Hf | []]]]; discriminate Hf.
Defined.

(** ** The walk over the tree *)

Section WalkProperties.

Variable namespace : text.
Variable vendored_libs : list text.
Variable substitutions : list substitution.

Local Abbreviation walk_spec := (walk_spec namespace vendored_libs substitutions).
Local Abbreviation file_after := (file_after namespace vendored_libs substitutions).
Local Abbreviation file_events := (file_events namespace vendored_libs substitutions).
Local Abbreviation file_ok := (file_ok namespace vendored_libs substitutions).

Lemma walk_spec_app_ok fs1 fs1' ev1 fs2 fs2' ev2 r :
  walk_spec fs1 fs1' ev1 None -> walk_spec fs2 fs2' ev2 r ->
  walk_spec (fs1 ++ fs2) (fs1' ++ fs2') (ev1 ++ ev2) r.
Proof.
  intros (-> & -> & Hok1) H2. destruct r as [ex |]; simpl in *.
  - destruct H2 as (before & p & d & after & -> & -> & -> & Hok & Hpy & Hr).
    exists (fs1 ++ before), p, d, after.
    rewrite map_app, flat_map_app, <- !app_assoc.
    repeat split; auto. apply Forall_app. now split.
  - destruct H2 as (-> & -> & Hok2).
    rewrite map_app, flat_map_app. repeat split. apply Forall_app. now split.
Qed.

Lemma walk_spec_app_raise fs1 fs1' ev1 fs2 ex :
  walk_spec fs1 fs1' ev1 (Some ex) ->
  walk_spec (fs1 ++ fs2) (fs1' ++ fs2) ev1 (Some ex).
Proof.
  intros (before & p & d & after & -> & -> & -> & Hok & Hpy & Hr).
  exists before, p, d, (after ++ fs2).
  rewrite <- !app_assoc. simpl. repeat split; auto.
Qed.

Lemma last_snoc (p : path) (n : text) : last (p ++ [n]) [] = n.
Proof. apply last_last. Qed.

Lemma iter_items_spec (visit : entry -> entry * list event * option exn)
    (fl : entry -> list (path * text)) (items : list entry) :
  Forall (fun e => walk_spec (fl e) (fl (tree_after (visit e)))
                     (events (visit e)) (raised (visit e))) items ->
  walk_spec (flat_map fl items)
            (flat_map fl (tree_after (iter_items visit items)))
            (events (iter_items visit items))
            (raised (iter_items visit items)).
Proof.
  induction 1 as [| item rest Hitem _ IH]; simpl.
  - repeat split. constructor.
  - destruct (visit item) as [[item' ev] r]. unfold tree_after, events, raised in *.
    simpl in *. destruct r as [ex |]; simpl.
    + now apply walk_spec_app_raise.
    + destruct (iter_items visit rest) as [[rest' ev'] r']. simpl in *.
      now apply walk_spec_app_ok.
Qed.

Lemma rewrite_item_spec (item : entry) : forall destination,
  walk_spec (files_of destination item)
    (files_of destination
       (tree_after (rewrite_item namespace vendored_libs substitutions
                      destination item)))
    (events (rewrite_item namespace vendored_libs substitutions
               destination item))
    (raised (rewrite_item namespace vendored_libs substitutions
               destination item)).
Proof.
  induction item as [name data | name items IH] using entry_forall_ind;
    intros destination.
  - simpl. unfold rewrite_file_imports.
    destruct (endswith name py_ext) eqn:Epy.
    + assert (Hpy : is_py (destination ++ [name]) = true)
        by (unfold is_py; now rewrite last_snoc).
      destruct (rewrite_text (destination ++ [name]) namespace vendored_libs
                  substitutions data) as [t | ex] eqn:Er; simpl.
      * unfold file_after, file_events, file_ok, events. simpl.
        rewrite Hpy, Er. simpl.
        repeat split. constructor; [| constructor]. simpl. eauto.
      * exists [], (destination ++ [name]), data, []. repeat split; auto.
    + assert (Hpy : is_py (destination ++ [name]) = false)
        by (unfold is_py; now rewrite last_snoc).
      simpl. unfold file_after, file_events, file_ok. simpl. rewrite Hpy.
      repeat split. constructor; [| constructor]. simpl. rewrite Hpy.
      discriminate.
  - simpl.
    pose proof (iter_items_spec
      (rewrite_item namespace vendored_libs substitutions (destination ++ [name]))
      (files_of (destination ++ [name])) (items := items)) as H.
    destruct (iter_items _ items) as [[items' ev] r].
    unfold tree_after, events, raised in *. simpl in *.
    apply H. eapply Forall_impl; [| exact IH]. intros e He. apply He.
Qed.

Lemma rewrite_imports_spec (destination : path) (items : list entry) :
  walk_spec (walk_files destination items)
    (walk_files destination
       (tree_after (rewrite_imports namespace vendored_libs substitutions
                      destination items)))
    (events (rewrite_imports namespace vendored_libs substitutions
               destination items))
    (raised (rewrite_imports namespace vendored_libs substitutions
               destination items)).
Proof.
  unfold rewrite_imports, walk_files. apply iter_items_spec.
  apply Forall_forall. intros e _. apply rewrite_item_spec.
Qed.

End WalkProperties.

Lemma iter_items_skeleton (visit : entry -> entry * list event * option exn)
    (items : list entry) :
  Forall (fun e => skeleton (tree_after (visit e)) = skeleton e) items ->
  map skeleton (tree_after (iter_items visit items)) = map skeleton items.
Proof.
  induction 1 as [| item rest Hitem _ IH]; simpl; [reflexivity |].
  destruct (visit item) as [[item' ev] r]. unfold tree_after in *. simpl in *.
  destruct r as [ex |]; simpl.
  - now rewrite Hitem.
  - destruct (iter_items visit rest) as [[rest' ev'] r']. simpl in *.
    now rewrite Hitem, IH.
Qed.

Lemma rewrite_item_skeleton namespace vendored_libs substitutions
    (item : entry) : forall destination,
  skeleton (tree_after (rewrite_item namespace vendored_libs substitutions
                          destination item)) = skeleton item.
Proof.
  induction item as [name data | name items IH] using entry_forall_ind;
    intros destination; simpl.
  - destruct (endswith name py_ext) eqn:Epy.
    + destruct (rewrite_file_imports _ _ _ _ _) as [[data' ev] r].
      unfold tree_after. simpl. now rewrite Epy.
    + unfold tree_after. simpl. now rewrite Epy.
  - pose proof (iter_items_skeleton
      (rewrite_item namespace vendored_libs substitutions (destination ++ [name]))
      (items := items)) as H.
    destruct (iter_items _ items) as [[items' ev] r].
    unfold tree_after in *. simpl in *. f_equal.
    apply H. eapply Forall_impl; [| exact IH]. intros e He. apply He.
Qed.

Lemma in_file_events namespace vendored_libs substitutions
    (fs : list (path * text)) (e : event) :
  In e (flat_map (file_events namespace vendored_libs substitutions) fs) ->
  exists f, In f fs /\ is_py (fst f) = true /\
    (e = EvRead (fst f) \/
     e = EvWrite (fst f)
           (snd (file_after namespace vendored_libs substitutions f))).
Proof.
  intros H. apply in_flat_map in H as (f & Hf & He). exists f.
  unfold file_events in He. destruct (is_py (fst f)) eqn:Epy; [| contradiction].
  repeat split; auto. destruct He as [<- | [<- | []]]; auto.
Qed.

(** C10. The walk leaves the directories, the names of the files and the
    contents of the files that are not [.py] files as they were; and all
    it reads or writes are [.py] files of the tree, each written at its
    own path with the content that the tree holds for it afterwards. *)
Theorem walk_frame namespace vendored_libs substitutions
    (destination : path) (items : list entry) :
  map skeleton
      (tree_after (rewrite_imports namespace vendored_libs substitutions
                     destination items)) = map skeleton items /\
  forall e,
    In e (events (rewrite_imports namespace vendored_libs substitutions
                    destination items)) ->
    exists p,
      is_py p = true /\
      In p (map fst (walk_files destination items)) /\
      (e = EvRead p \/
       exists t, e = EvWrite p t /\
         In (p, t)
            (walk_files destination
               (tree_after (rewrite_imports namespace vendored_libs
                              substitutions destination items)))).
Proof.
  split.
  - unfold rewrite_imports. apply iter_items_skeleton.
    apply Forall_forall. intros e _. apply rewrite_item_skeleton.
  - intros e He.
    pose proof (rewrite_imports_spec namespace vendored_libs substitutions
                  destination items) as H.
    destruct (raised _) as [ex |]; simpl in H.
    + destruct H as (before & p & d & after & Hfs & Hfs' & Hev & _ & Hpy & _).
      rewrite Hev in He. apply in_app_or in He as [He | [<- | []]].
      * apply in_file_events in He as (f & Hf & Hfpy & Hcase).
        exists (fst f). split; [assumption |]. split.
        { rewrite Hfs, map_app. apply in_or_app. left. now apply in_map. }
        destruct Hcase as [-> | ->]; [now left | right].
        eexists. split; [reflexivity |]. rewrite Hfs'.
        apply in_or_app. left.
        apply (in_map (file_after namespace vendored_libs substitutions)) in Hf.
        exact Hf.
      * exists p. split; [assumption |]. split; [| now left].
        rewrite Hfs, map_app. apply in_or_app. right. now left.
    + destruct H as (Hfs' & Hev & _). rewrite Hev in He.
      apply in_file_events in He as (f & Hf & Hfpy & Hcase).
      exists (fst f). split; [assumption |]. split; [now apply in_map |].
      destruct Hcase as [-> | ->]; [now left | right].
      eexists. split; [reflexivity |]. rewrite Hfs'.
      apply (in_map (file_after namespace vendored_libs substitutions)) in Hf.
      exact Hf.
Qed.

(** C9. When the walk raises, it was at some [.py] file whose rewriting
    raised: that file and all the files after it in the walk are as they
    were, nothing of them is written, the files before it hold their
    rewritten contents, and what was done is what was done for the files
    before it and the reading of that file. *)
Theorem walk_halts namespace vendored_libs substitutions
    (destination : path) (items : list entry) (ex : exn) :
  raised (rewrite_imports namespace vendored_libs substitutions
            destination items) = Some ex ->
  exists before p d after,
    walk_files destination items = before ++ (p, d) :: after /\
    walk_files destination
      (tree_after (rewrite_imports namespace vendored_libs substitutions
                     destination items)) =
      map (file_after namespace vendored_libs substitutions) before ++
      (p, d) :: after /\
    events (rewrite_imports namespace vendored_libs substitutions
              destination items) =
      flat_map (file_events namespace vendored_libs substitutions) before ++
      [EvRead p] /\
    Forall (file_ok namespace vendored_libs substitutions) before /\
    is_py p = true /\
    rewrite_text p namespace vendored_libs substitutions d = Raise ex.
Proof.
  intros Hr.
  pose proof (rewrite_imports_spec namespace vendored_libs substitutions
                destination items) as H.
  rewrite Hr in H. exact H.
Qed.

(** ** One file *)

(** C5, as stated, fails: when the rewriting of a file raises, the file
    is not written; it keeps what it held, here also the line that the
    first rule had already rewritten in the text. *)
Lemma no_write_on_error :
  let data := T "import a" ++ [nl] ++ T "import a.b" in
  let r := rewrite_file_imports [T "d"; T "m.py"] (T "v") [T "a"] [] data in
  raised r =
    Some (VendoringError
            (dotted_message [T "d"; T "m.py"] 2 (T "import a.b"))) /\
  tree_after r = data /\
  events r = [EvRead [T "d"; T "m.py"]] /\
  ~ (exists t, In (EvWrite [T "d"; T "m.py"] t) (events r)).
Proof.
  vm_compute. repeat split.
  intros (t & [H | []]). discriminate H.
Qed.

(** C5, amended. A file is written exactly when its rewriting raised
    nothing, once, with the rewritten text, which is then its content;
    when the rewriting raised, the file was read and is as it was. *)
Theorem write_back (item : path) (namespace : text)
    (vendored_libs : list text) (substitutions : list substitution)
    (data : text) :
  let r := rewrite_file_imports item namespace vendored_libs substitutions
             data in
  (raised r = None ->
   exists t,
     rewrite_text item namespace vendored_libs substitutions data = Ok t /\
     tree_after r = t /\ events r = [EvRead item; EvWrite item t]) /\
  (forall ex, raised r = Some ex ->
     rewrite_text item namespace vendored_libs substitutions data = Raise ex /\
     tree_after r = data /\ events r = [EvRead item]) /\
  ((exists t, In (EvWrite item t) (events r)) <-> raised r = None).
Proof.
  unfold rewrite_file_imports, raised, tree_after, events.
  destruct (rewrite_text item namespace vendored_libs substitutions data)
    as [t | ex]; simpl.
  - split; [eauto |]. split; [discriminate |].
    split; [reflexivity |]. intros _. exists t. right. now left.
  - split; [discriminate |]. split.
    + intros ex' H. injection H as <-. auto.
    + split; [| discriminate]. intros (t & [H | []]). discriminate H.
Qed.

Lemma fold_left_raise (substitutions : list substitution) (e : exn) :
  fold_left
    (fun acc di => bind acc (re_sub (sub_match di) (sub_replace di)))
    substitutions (Raise e) = Raise e.
Proof. induction substitutions; simpl; auto. Qed.

Lemma apply_substitutions_fold (substitutions : list substitution) :
  forall t, apply_substitutions substitutions t =
            fold_substitutions substitutions t.
Proof.
  unfold fold_substitutions.
  induction substitutions as [| di rest IH]; intros t; simpl; [reflexivity |].
  destruct (re_sub (sub_match di) (sub_replace di) t) as [t' | e]; simpl.
  - apply IH.
  - now rewrite fold_left_raise.
Qed.

Lemma apply_substitutions_app (s1 s2 : list substitution) (t : text) :
  apply_substitutions (s1 ++ s2) t =
  bind (apply_substitutions s1 t) (apply_substitutions s2).
Proof.
  revert t. induction s1 as [| di rest IH]; intros t; simpl; [reflexivity |].
  destruct (re_sub (sub_match di) (sub_replace di) t); simpl; auto.
Qed.

(** C8. The substitutions are one [re.sub] each, in the order of the
    list, on the text that the one before gave, and the import rules get
    the text that the last one gave; with an empty namespace that text
    is what is written.  A substitution replaces all the matches, on any
    line; and one that changes the name in an import line decides which
    import rule applies. *)
Theorem substitutions_first (item : path) (namespace : text)
    (vendored_libs : list text) (s1 s2 : list substitution) (t : text) :
  apply_substitutions s1 t = fold_substitutions s1 t /\
  rewrite_text item namespace vendored_libs (s1 ++ s2) t =
    bind (apply_substitutions s1 t)
         (rewrite_text item namespace vendored_libs s2) /\
  rewrite_text item namespace vendored_libs s1 t =
    bind (fold_substitutions s1 t)
         (fun t' => if Nat.eqb (length namespace) 0 then Ok t'
                    else rewrite_libs item namespace vendored_libs t') /\
  rewrite_text item [] vendored_libs s1 t = fold_substitutions s1 t /\
  rewrite_file_imports item [] vendored_libs s1 t =
    match fold_substitutions s1 t with
    | Ok t' => (t', [EvRead item; EvWrite item t'], None)
    | Raise e => (t, [EvRead item], Some e)
    end /\
  rewrite_text item namespace vendored_libs [pygments_rule]
    (T "x = ('pygments.lexers.a', ('pygments.lexers.b'") =
    bind (Ok (T "x = ('positron._vendor.pygments.lexers.a', ('positron._vendor.pygments.lexers.b'"))
      (rewrite_text item namespace vendored_libs []) /\
  rewrite_text item (T "vend") [T "new"] [rename "old" "new"] (T "import old")
    = Ok (T "from vend import new") /\
  rewrite_text item (T "vend") [T "new"] [] (T "import old")
    = Ok (T "import old") /\
  rewrite_text item (T "vend") [] [rename "a" "b"; rename "b" "c"] (T "a b")
    = Ok (T "c c") /\
  rewrite_text item (T "vend") [] [rename "b" "c"; rename "a" "b"] (T "a b")
    = Ok (T "b c").
Proof.
  split; [apply apply_substitutions_fold |].
  split.
  { unfold rewrite_text. rewrite apply_substitutions_app.
    destruct (apply_substitutions s1 t); reflexivity. }
  split.
  { unfold rewrite_text. rewrite apply_substitutions_fold.
    destruct (fold_substitutions s1 t); simpl; [| reflexivity].
    destruct namespace; reflexivity. }
  split.
  { unfold rewrite_text. rewrite apply_substitutions_fold.
    destruct (fold_substitutions s1 t); reflexivity. }
  split.
  { unfold rewrite_file_imports, rewrite_text.
    rewrite apply_substitutions_fold.
    destruct (fold_substitutions s1 t); reflexivity. }
  repeat split; vm_compute; reflexivity.
Qed.

(** ** The matcher on the script's patterns *)

Lemma moved_nil (st : mstate) : moved st [] (srest st) = st.
Proof. destruct st. unfold moved. simpl. now rewrite Nat.add_0_r. Qed.

Lemma moved_cons (st : mstate) (c : char) (s r : text) :
  moved st (c :: s) r =
  moved (MState (Some c) (S (spos st)) (s ++ r) (sgroups st)) s r.
Proof. unfold moved. simpl. f_equal. lia. Qed.

Lemma rmatch_lit (s : text) : forall cont st r,
  srest st = s ++ r ->
  rmatch (lit s) cont st = cont (moved st s r).
Proof.
  induction s as [| c s IH]; intros cont st r H; simpl.
  - simpl in H. now rewrite <- H, moved_nil.
  - rewrite H. simpl. rewrite N.eqb_refl.
    rewrite (IH _ _ r) by reflexivity. now rewrite moved_cons.
Qed.

(** A literal fails where the text does not start with its first
    character. *)
Lemma rmatch_lit_head (c : char) (s : text) (b : re) cont st :
  match srest st with
  | [] => True
  | x :: _ => N.eqb x c = false
  end ->
  rmatch (lit (c :: s) >> b) cont st = None.
Proof.
  intros H. simpl. destruct (srest st) as [| x xs]; [reflexivity |].
  now rewrite H.
Qed.

(** Greedy [\s*] before something that cannot start with a space takes
    the whole run of spaces, and that is the only way to go on. *)
Lemma star_space_all (ws : text) : forall cont prev pos g r,
  spaces ws = true -> no_space_ahead r -> rejects_space cont ->
  star Space cont prev pos g (ws ++ r) =
  cont (MState (lastp ws prev) (pos + length ws) r g).
Proof.
  induction ws as [| c ws IH]; intros cont prev pos g r Hws Hr Hc; simpl.
  - rewrite Nat.add_0_r. destruct r as [| x xs]; simpl; [reflexivity |].
    simpl in Hr. now rewrite Hr.
  - simpl in Hws. apply andb_prop in Hws as [Hc1 Hws]. rewrite Hc1.
    rewrite (IH cont (Some c) (S pos) g r Hws Hr Hc).
    replace (pos + S (length ws)) with (S pos + length ws) by lia.
    destruct (cont _) eqn:E; [reflexivity |].
    now apply (Hc _ c (ws ++ r)).
Qed.

(** Greedy [k+] or [k*] with nothing after it that can fail takes the
    whole run. *)
Lemma star_run (k : cls) (run : text) : forall cont prev pos g r m,
  forallb (cls_ok k) run = true ->
  match r with [] => True | x :: _ => cls_ok k x = false end ->
  cont (MState (lastp run prev) (pos + length run) r g) = Some m ->
  star k cont prev pos g (run ++ r) = Some m.
Proof.
  induction run as [| c run IH]; intros cont prev pos g r m Hrun Hr Hc; simpl.
  - simpl in Hc. rewrite Nat.add_0_r in Hc.
    destruct r as [| x xs]; simpl; [exact Hc |]. now rewrite Hr.
  - simpl in Hrun. apply andb_prop in Hrun as [Hc1 Hrun]. rewrite Hc1.
    rewrite (IH cont (Some c) (S pos) g r m Hrun Hr); [reflexivity |].
    simpl in Hc. now replace (S pos + length run) with (pos + S (length run)) by lia.
Qed.

(** Dropping the characters of a match. *)
Lemma sub_scan_skip (r : re) (tpl : template) (s : text) :
  forall prev pos rest,
  sub_scan r tpl (length s) prev pos (s ++ rest) =
  sub_scan r tpl 0 (lastp s prev) (pos + length s) rest.
Proof.
  induction s as [| c s IH]; intros prev pos rest; simpl.
  - now rewrite Nat.add_0_r.
  - rewrite IH. f_equal. lia.
Qed.

(** A pattern that starts with [^] matches nowhere inside a line. *)
Lemma bol_inside (b : re) (adv : bool) (c : char) (pos : nat) (rest : text) :
  N.eqb c nl = false ->
  match_here (Bol >> b) adv (Some c) pos rest = None.
Proof. intros H. unfold match_here. simpl. unfold at_bol. simpl. now rewrite H. Qed.

Lemma sub_scan_inside (b : re) (tpl : template) (rest : text) :
  forall c pos,
  N.eqb c nl = false -> inline rest = true ->
  sub_scan (Bol >> b) tpl 0 (Some c) pos rest = rest.
Proof.
  induction rest as [| x xs IH]; intros c pos Hc Hin.
  - simpl. now rewrite bol_inside.
  - simpl in Hin. apply andb_prop in Hin as [Hx Hin].
    apply negb_true_iff in Hx.
    cbn [sub_scan]. rewrite bol_inside by assumption.
    now rewrite IH.
Qed.

Lemma forallb_weaken (p q : char -> bool) (s : text) :
  (forall c, p c = true -> q c = true) ->
  forallb p s = true -> forallb q s = true.
Proof.
  intros H. induction s as [| c s IH]; simpl; [reflexivity |].
  intros Hs. apply andb_prop in Hs as [Hc Hs]. now rewrite (H c Hc), IH.
Qed.

Lemma not_space_not_nl (c : char) :
  negb (is_space c) = true -> negb (N.eqb c nl) = true.
Proof.
  intros H. destruct (N.eqb_spec c nl) as [-> | ne]; [| reflexivity].
  discriminate H.
Qed.

Lemma nonspaces_inline (s : text) : nonspaces s = true -> inline s = true.
Proof. apply forallb_weaken, not_space_not_nl. Qed.

Lemma importable_forall (lib : text) :
  importable lib = true -> forallb name_char lib = true.
Proof. destruct lib; [discriminate | auto]. Qed.

(** Such names and namespaces are pasted as they are: a name holds no
    pattern operator, a namespace no backslash for the template. *)
Lemma importable_plain (lib : text) :
  importable lib = true -> re_plain lib = true.
Proof.
  intros H. apply importable_forall in H. revert H.
  apply forallb_weaken. intros c Hc. unfold name_char in Hc.
  now apply andb_prop in Hc as [_ Hc].
Qed.

Lemma namespace_ok_plain (namespace : text) :
  namespace_ok namespace = true -> tpl_plain namespace = true.
Proof.
  destruct namespace as [| c s]; [discriminate |]. unfold namespace_ok.
  apply forallb_weaken. intros x Hx. unfold ns_char in Hx.
  now apply andb_prop in Hx as [_ Hx].
Qed.

Lemma importable_nonspaces (lib : text) :
  importable lib = true -> nonspaces lib = true.
Proof.
  intros H. apply importable_forall in H. revert H.
  apply forallb_weaken. intros c Hc. unfold name_char in Hc.
  apply andb_prop in Hc as [Hc _]. now apply andb_prop in Hc as [Hc _].
Qed.

Lemma importable_inline (lib : text) : importable lib = true -> inline lib = true.
Proof. intros H. now apply nonspaces_inline, importable_nonspaces. Qed.

Lemma importable_lit (lib : text) : importable lib = true -> lib_re lib = lit lib.
Proof.
  intros H. apply importable_forall in H.
  induction lib as [| c l IH]; [reflexivity |].
  simpl in H. apply andb_prop in H as [Hc Hl]. simpl. rewrite (IH Hl).
  unfold name_char in Hc. apply andb_prop in Hc as [Hc _].
  apply andb_prop in Hc as [_ Hc]. apply negb_true_iff in Hc. now rewrite Hc.
Qed.

Lemma namespace_ok_inline (namespace : text) :
  namespace_ok namespace = true -> inline namespace = true.
Proof.
  destruct namespace as [| c s]; [discriminate |]. unfold namespace_ok.
  apply forallb_weaken. intros x Hx. unfold ns_char in Hx.
  apply andb_prop in Hx as [Hx _]. now apply not_space_not_nl.
Qed.

Lemma inline_app (a b : text) : inline (a ++ b) = inline a && inline b.
Proof. apply forallb_app. Qed.

(** The templates of the rules refer to groups that the patterns have. *)
Lemma ngroups_lib_re (lib : text) : ngroups (lib_re lib) = 0.
Proof. induction lib as [| c l IH]; simpl; auto. Qed.

Lemma re_sub_import (namespace lib t : text) :
  re_sub (pat_import lib) (tpl_import namespace lib) t =
  Ok (sub_scan (pat_import lib) (tpl_import namespace lib) 0 None 0 t).
Proof.
  unfold re_sub, Re.sub, tpl_ok. simpl. now rewrite ngroups_lib_re.
Qed.

Lemma re_sub_alias (namespace lib t : text) :
  re_sub (pat_alias lib) (tpl_alias namespace lib) t =
  Ok (sub_scan (pat_alias lib) (tpl_alias namespace lib) 0 None 0 t).
Proof.
  unfold re_sub, Re.sub, tpl_ok. simpl. now rewrite ngroups_lib_re.
Qed.

Lemma re_sub_from (namespace lib t : text) :
  re_sub (pat_from lib) (tpl_from namespace lib) t =
  Ok (sub_scan (pat_from lib) (tpl_from namespace lib) 0 None 0 t).
Proof.
  unfold re_sub, Re.sub, tpl_ok. simpl. now rewrite ngroups_lib_re.
Qed.

(** One match, or none, in a text of one line. *)
Lemma lastp_inline (m : text) (prev : option char) :
  m <> [] -> inline m = true ->
  exists c, lastp m prev = Some c /\ N.eqb c nl = false.
Proof.
  revert prev. induction m as [| x m IH]; intros prev Hne Hin; [contradiction |].
  simpl in Hin. apply andb_prop in Hin as [Hx Hin].
  destruct m as [| y m'].
  - exists x. split; [reflexivity |]. now apply negb_true_iff.
  - apply (IH (Some x)); [discriminate | assumption].
Qed.

Lemma sub_scan_match (r : re) (tpl : template) (m rest : text) prev pos st :
  match_here r false prev pos (m ++ rest) = Some st ->
  spos st = pos + length m -> m <> [] ->
  sub_scan r tpl 0 prev pos (m ++ rest) =
  expand tpl st ++ sub_scan r tpl 0 (lastp m prev) (pos + length m) rest.
Proof.
  intros Hm Hpos Hne. destruct m as [| c m]; [contradiction |].
  simpl app in *. cbn [sub_scan]. rewrite Hm, Hpos.
  replace (pos + length (c :: m) - pos) with (S (length m)) by (simpl; lia).
  rewrite sub_scan_skip. simpl. do 2 f_equal. lia.
Qed.

Lemma sub_scan_line_match (b : re) (tpl : template) (m rest : text) st :
  match_here (Bol >> b) false None 0 (m ++ rest) = Some st ->
  spos st = length m -> m <> [] -> inline (m ++ rest) = true ->
  sub_scan (Bol >> b) tpl 0 None 0 (m ++ rest) = expand tpl st ++ rest.
Proof.
  intros Hm Hpos Hne Hin. rewrite inline_app in Hin.
  apply andb_prop in Hin as [Him Hir].
  rewrite (@sub_scan_match (Bol >> b) tpl m rest None 0 st Hm Hpos Hne).
  destruct (lastp_inline None Hne Him) as (c & -> & Hc).
  now rewrite sub_scan_inside.
Qed.

Lemma rejects_space_lit (c : char) (s : text) (b : re) cont
    (f : mstate -> mstate) :
  is_space c = false ->
  (forall st, srest (f st) = srest st) ->
  rejects_space (fun st => rmatch (lit (c :: s) >> b) cont (f st)).
Proof.
  intros Hc Hf st x xs Hst Hx. apply rmatch_lit_head. rewrite Hf, Hst.
  destruct (N.eqb_spec x c) as [-> | ne]; [congruence | reflexivity].
Qed.

Lemma firstn_span (n : nat) (a b : text) :
  firstn (n + length a - n) (a ++ b) = a.
Proof.
  replace (n + length a - n) with (length a) by lia.
  rewrite firstn_app, firstn_all, Nat.sub_diag. simpl. apply app_nil_r.
Qed.

Lemma anchored_grp (c : char) (kw : text) (b : re) cont prev pos g
    (indent rest : text) :
  bol_prev prev = true -> spaces indent = true -> no_space_ahead rest ->
  is_space c = false ->
  rmatch (Bol >> Grp 1 (Star Space) >> lit (c :: kw) >> b) cont
         (MState prev pos (indent ++ rest) g) =
  rmatch (lit (c :: kw) >> b) cont
         (MState (lastp indent prev) (pos + length indent) rest
                 ((1, indent) :: g)).
Proof.
  intros Hb Hi Hr Hc. cbn [rmatch]. unfold at_bol. cbn [sprev spos srest sgroups].
  fold (bol_prev prev). rewrite Hb.
  rewrite star_space_all; auto.
  - unfold set_group. cbn [sprev spos srest sgroups]. now rewrite firstn_span.
  - apply (@rejects_space_lit c kw b cont
             (set_group 1 (MState prev pos (indent ++ rest) g)) Hc).
    reflexivity.
Qed.

Lemma rmatch_seq (a b : re) cont st :
  rmatch (a >> b) cont st = rmatch a (rmatch b cont) st.
Proof. reflexivity. Qed.

Lemma kw_import_head : kw_import = 105%N :: T "mport ".
Proof. reflexivity. Qed.

Lemma kw_from_head : kw_from = 102%N :: T "rom ".
Proof. reflexivity. Qed.

Lemma expand3 (s : text) (st : mstate) (g1 g2 : text) :
  group 1 (sgroups st) = Some g1 -> group 2 (sgroups st) = Some g2 ->
  expand [TRef 1; TLit s; TRef 2] st = g1 ++ s ++ g2.
Proof.
  intros H1 H2. unfold expand. simpl. rewrite H1, H2. now rewrite app_nil_r.
Qed.

Lemma match_here_search (r : re) prev pos rest :
  match_here r false prev pos rest = rmatch r Some (MState prev pos rest []).
Proof. reflexivity. Qed.

(** The end of the plain import: a space, or the end of the line. *)
Lemma import_tail (st : mstate) :
  match srest st with [] => True | x :: _ => is_space x = true end ->
  rmatch (Grp 2 (Alt (One Space) Eol)) Some st =
  Some (MState (lastp (firstn 1 (srest st)) (sprev st))
               (spos st + length (firstn 1 (srest st)))
               (skipn 1 (srest st))
               ((2, firstn 1 (srest st)) :: sgroups st)).
Proof.
  intros H. cbn [rmatch]. destruct st as [prev pos rest g].
  cbn [srest sprev spos sgroups] in *. destruct rest as [| x xs].
  - unfold at_eol, set_group. cbn [srest sprev spos sgroups].
    rewrite Nat.sub_diag, Nat.add_0_r. reflexivity.
  - cbn [cls_ok]. rewrite H. unfold set_group. cbn [srest sprev spos sgroups].
    replace (S pos - pos) with 1 by lia. simpl. do 2 f_equal. lia.
Qed.

Lemma import_here (lib indent trail : text) prev pos :
  importable lib = true -> bol_prev prev = true -> spaces indent = true ->
  match trail with [] => True | x :: _ => is_space x = true end ->
  exists st,
    match_here (pat_import lib) false prev pos
      (indent ++ kw_import ++ lib ++ trail) = Some st /\
    spos st = pos + length (indent ++ kw_import ++ lib ++ firstn 1 trail) /\
    group 1 (sgroups st) = Some indent /\
    group 2 (sgroups st) = Some (firstn 1 trail).
Proof.
  intros Hl Hb Hi Ht. rewrite match_here_search. unfold pat_import.
  rewrite (importable_lit _ Hl). fold kw_import. rewrite kw_import_head.
  rewrite anchored_grp; auto; [| reflexivity].
  rewrite <- kw_import_head.
  rewrite rmatch_seq, rmatch_lit with (r := lib ++ trail) by reflexivity.
  rewrite rmatch_seq, rmatch_lit with (r := trail) by reflexivity.
  rewrite import_tail by exact Ht.
  eexists. split; [reflexivity |]. cbn [spos sgroups srest moved group Nat.eqb].
  repeat split. rewrite !length_app.
  change (length (105%N :: of_string "mport ")) with (length kw_import). lia.
Qed.

Lemma skip_one (t : text) : firstn 1 t ++ skipn 1 t = t.
Proof. apply firstn_skipn. Qed.

Lemma trail_inline (trail : text) :
  inline trail = true -> inline (firstn 1 trail) = true /\ inline (skipn 1 trail) = true.
Proof.
  destruct trail as [| x xs]; simpl; [auto |].
  intros H. apply andb_prop in H as [-> ->]. auto.
Qed.

Lemma spaces_no_space_ahead (c : char) (rest : text) :
  is_space c = false -> no_space_ahead (c :: rest).
Proof. auto. Qed.

Lemma plus_run (k : cls) (run r : text) cont prev pos g m :
  run <> [] -> forallb (cls_ok k) run = true ->
  match r with [] => True | x :: _ => cls_ok k x = false end ->
  cont (MState (lastp run prev) (pos + length run) r g) = Some m ->
  rmatch (Plus k) cont (MState prev pos (run ++ r) g) = Some m.
Proof.
  intros Hne Hrun Hr Hc. destruct run as [| c run]; [contradiction |].
  simpl in Hrun. apply andb_prop in Hrun as [Hc1 Hrun].
  cbn [rmatch srest sprev spos sgroups app]. rewrite Hc1.
  apply star_run; auto.
  simpl in Hc. now replace (S pos + length run) with (pos + S (length run)) by lia.
Qed.

Lemma nonspaces_cls (s : text) :
  nonspaces s = true -> forallb (cls_ok NonSpace) s = true.
Proof. auto. Qed.

Lemma rmatch_grp (n : nat) (a : re) cont st :
  rmatch (Grp n a) cont st = rmatch a (fun st' => cont (set_group n st st')) st.
Proof. reflexivity. Qed.

Lemma rmatch_one (k : cls) cont prev pos g (x : char) (xs : text) :
  cls_ok k x = true ->
  rmatch (One k) cont (MState prev pos (x :: xs) g) =
  cont (MState (Some x) (S pos) xs g).
Proof. intros H. cbn [rmatch srest sprev spos sgroups]. now rewrite H. Qed.

Lemma rmatch_one_miss (k : cls) cont prev pos g (x : char) (xs : text) :
  cls_ok k x = false ->
  rmatch (One k) cont (MState prev pos (x :: xs) g) = None.
Proof. intros H. cbn [rmatch srest sprev spos sgroups]. now rewrite H. Qed.

Lemma rmatch_ahead (a : re) cont st st' :
  rmatch a Some st = Some st' ->
  rmatch (Ahead a) cont st =
  cont (MState (sprev st) (spos st) (srest st) (sgroups st')).
Proof. intros H. cbn [rmatch]. now rewrite H. Qed.

Lemma is_space_a : is_space 97%N = false.
Proof. reflexivity. Qed.

(** The end of the aliased import: the dotted rest of the name, with
    spaces and [as] ahead. *)
Lemma alias_tail (sub ws rest : text) prev pos g :
  sub <> [] -> nonspaces sub = true -> ws <> [] -> spaces ws = true ->
  rmatch (Grp 2 (One (Chr dot) >> Plus NonSpace) >>
          Ahead (Plus Space >> lit kw_as)) Some
         (MState prev pos (dot :: sub ++ ws ++ kw_as ++ rest) g) =
  Some (MState (lastp sub (Some dot)) (S pos + length sub)
               (ws ++ kw_as ++ rest) ((2, dot :: sub) :: g)).
Proof.
  intros Hsub Hsubn Hws Hwss.
  rewrite rmatch_seq, rmatch_grp, rmatch_seq.
  rewrite rmatch_one by apply N.eqb_refl.
  apply plus_run; auto.
  - destruct ws as [| w ws']; [contradiction |]. simpl in Hwss |- *.
    apply andb_prop in Hwss as [-> _]. reflexivity.
  - rewrite rmatch_ahead
      with (st' := MState (lastp kw_as (lastp ws (lastp sub (Some dot))))
                     (S pos + length sub + length ws + length kw_as) rest
                     ((2, dot :: sub) :: g)).
    + reflexivity.
    + rewrite rmatch_seq. unfold set_group. cbn [srest sprev spos sgroups].
      replace (S pos + length sub - pos) with (length (dot :: sub))
        by (cbn [length]; lia).
      change (dot :: sub ++ ws ++ kw_as ++ rest)
        with ((dot :: sub) ++ ws ++ kw_as ++ rest).
      rewrite firstn_app, firstn_all, Nat.sub_diag. cbn [firstn].
      rewrite app_nil_r.
      apply plus_run; auto.
      * exact is_space_a.
      * rewrite rmatch_lit with (r := rest) by reflexivity. reflexivity.
Qed.


Lemma inline_cons (c : char) (s : text) :
  inline (c :: s) = negb (N.eqb c nl) && inline s.
Proof. reflexivity. Qed.

Lemma indent_nonempty (indent kw rest : text) (c : char) :
  indent ++ (c :: kw) ++ rest <> [].
Proof. destruct indent; discriminate. Qed.

Lemma not_space_neq_nl (c : char) : is_space c = false -> N.eqb c nl = false.
Proof.
  intros H. destruct (N.eqb_spec c nl) as [-> | ne]; [discriminate H | reflexivity].
Qed.

(** The pattern of rule 3, with the indentation outside the group. *)
Lemma anchored_star (c : char) (kw : text) (b : re) cont prev pos g
    (indent rest : text) :
  bol_prev prev = true -> spaces indent = true -> no_space_ahead rest ->
  is_space c = false ->
  rmatch (Bol >> Star Space >> Grp 1 (lit (c :: kw) >> b)) cont
         (MState prev pos (indent ++ rest) g) =
  rmatch (Grp 1 (lit (c :: kw) >> b)) cont
         (MState (lastp indent prev) (pos + length indent) rest g).
Proof.
  intros Hb Hi Hr Hc. cbn [rmatch]. unfold at_bol. cbn [sprev spos srest sgroups].
  fold (bol_prev prev). rewrite Hb.
  rewrite star_space_all; auto.
  intros st x xs Hst Hx.
  apply (@rmatch_lit_head c kw b (fun st' => cont (set_group 1 st st')) st).
  rewrite Hst. destruct (N.eqb_spec x c) as [-> | ne]; [congruence | reflexivity].
Qed.




Lemma starts_with_dot (lib : text) : forall s rest,
  forallb (fun c => negb (N.eqb c dot)) lib = true ->
  starts_with (lib ++ [dot]) (s ++ dot :: rest) =
  starts_with (lib ++ [dot]) (s ++ [dot]).
Proof.
  induction lib as [| c l IH]; intros s rest Hl.
  - destruct s as [| x s]; simpl; [reflexivity |]. now rewrite !andb_true_r.
  - simpl in Hl. apply andb_prop in Hl as [Hc Hl]. apply negb_true_iff in Hc.
    destruct s as [| x s]; cbn [app starts_with].
    + rewrite (N.eqb_sym dot c), Hc. reflexivity.
    + now rewrite IH.
Qed.

Lemma importable_no_dot (lib : text) :
  importable lib = true -> forallb (fun c => negb (N.eqb c dot)) lib = true.
Proof.
  intros H. apply importable_forall in H. revert H.
  apply forallb_weaken. intros c Hc. unfold name_char in Hc.
  apply andb_prop in Hc as [Hc _]. now apply andb_prop in Hc as [_ Hc].
Qed.

Lemma starts_with_self (p s : text) : starts_with p (p ++ s) = true.
Proof. induction p as [| c p IH]; simpl; [reflexivity |]. now rewrite N.eqb_refl. Qed.

(** The end of the from-import: a dot or a space. *)
Lemma from_tail (x : char) (rest : text) prev pos g :
  dot_or_space x = true ->
  rmatch (Grp 2 (Alt (One (Chr dot)) (One Space))) Some
         (MState prev pos (x :: rest) g) =
  Some (MState (Some x) (S pos) rest ((2, [x]) :: g)).
Proof.
  intros Hx. rewrite rmatch_grp. cbn [rmatch srest sprev spos sgroups cls_ok].
  unfold set_group. cbn [srest sprev spos sgroups].
  replace (S pos - pos) with 1 by lia. cbn [firstn].
  destruct (N.eqb x dot) eqn:E; [reflexivity |].
  unfold dot_or_space in Hx. rewrite E in Hx. simpl in Hx. now rewrite Hx.
Qed.


(** No match of a pattern that starts with [^] in a text of one line
    that does not match at its start. *)
Lemma search_inside (b : re) (rest : text) : forall c pos,
  N.eqb c nl = false -> inline rest = true ->
  search_from (Bol >> b) (Some c) pos rest = None.
Proof.
  induction rest as [| x xs IH]; intros c pos Hc Hin; cbn [search_from];
    rewrite bol_inside by assumption; [reflexivity |].
  rewrite inline_cons in Hin. apply andb_prop in Hin as [Hx Hin].
  apply negb_true_iff in Hx. now apply IH.
Qed.

(** The steps of [rewrite_lib], with the templates known to be right. *)
Lemma rewrite_lib_steps (item : path) (namespace lib t : text) :
  rewrite_lib item namespace lib t =
  let t1 := sub_scan (pat_import lib) (tpl_import namespace lib) 0 None 0 t in
  let t2 := sub_scan (pat_alias lib) (tpl_alias namespace lib) 0 None 0 t1 in
  match search (pat_dotted lib) t2 with
  | Some (start, m) =>
      Raise (VendoringError
               (dotted_message item (count_nl t2 start + 1)
                  (match group 1 (sgroups m) with Some g => g | None => [] end)))
  | None =>
      Ok (sub_scan (pat_from lib) (tpl_from namespace lib) 0 None 0 t2)
  end.
Proof.
  unfold rewrite_lib. rewrite re_sub_import. cbn [bind].
  rewrite re_sub_alias. cbn [bind].
  destruct (search (pat_dotted lib) _) as [[start m] |]; [reflexivity |].
  apply re_sub_from.
Qed.


Lemma nonempty_neq (s : text) : nonempty s = true -> s <> [].
Proof. destruct s; [discriminate | discriminate]. Qed.

Lemma space_first_prop (trail : text) :
  space_first trail = true ->
  match trail with [] => True | x :: _ => is_space x = true end.
Proof. destruct trail; auto. Qed.

Lemma is_space_false_neq (x c : char) :
  is_space x = false -> is_space c = true -> N.eqb x c = false.
Proof.
  intros Hx Hc. destruct (N.eqb_spec x c) as [-> | ne]; [congruence | reflexivity].
Qed.

(** The longest run of characters of a set at the start of a text. *)
Lemma span_run (p : char -> bool) (s : text) :
  exists run r,
    s = run ++ r /\ forallb p run = true /\
    match r with [] => True | x :: _ => p x = false end.
Proof.
  induction s as [| c s (run & r & -> & Hrun & Hr)].
  - exists [], []. auto.
  - destruct (p c) eqn:E.
    + exists (c :: run), r. simpl. rewrite E. auto.
    + exists [], (c :: run ++ r). simpl. auto.
Qed.

Lemma rmatch_lit_inv (s : text) : forall cont st m,
  rmatch (lit s) cont st = Some m ->
  exists r, srest st = s ++ r /\ cont (moved st s r) = Some m.
Proof.
  induction s as [| c s IH]; intros cont st m H.
  - exists (srest st). split; [reflexivity |]. now rewrite moved_nil.
  - cbn [lit] in H. rewrite rmatch_seq in H.
    destruct st as [prev pos [| x xs] g]; [discriminate H |].
    destruct (N.eqb x c) eqn:E.
    + rewrite rmatch_one in H by exact E.
      apply IH in H as (r & Hr & Hc). cbn [srest] in Hr. subst xs.
      apply N.eqb_eq in E. subst x.
      exists r. split; [reflexivity |]. now rewrite moved_cons.
    + rewrite rmatch_one_miss in H by exact E. discriminate H.
Qed.

Lemma search_from_found (r : re) (rest : text) : forall prev pos start m,
  search_from r prev pos rest = Some (start, m) ->
  exists pre suf,
    rest = pre ++ suf /\ start = pos + length pre /\
    match_here r false (lastp pre prev) start suf = Some m.
Proof.
  induction rest as [| x xs IH]; intros prev pos start m H; cbn [search_from] in H.
  - destruct (match_here r false prev pos []) eqn:E; [| discriminate H].
    injection H as <- <-. exists [], []. rewrite Nat.add_0_r. auto.
  - destruct (match_here r false prev pos (x :: xs)) eqn:E.
    + injection H as <- <-. exists [], (x :: xs). rewrite Nat.add_0_r. auto.
    + apply IH in H as (pre & suf & -> & -> & Hm).
      exists (x :: pre), suf. simpl. split; [reflexivity |].
      split; [lia |]. exact Hm.
Qed.

Lemma bol_prev_last (pre : text) :
  bol_prev (lastp pre None) = true ->
  pre = [] \/ exists pre', pre = pre' ++ [nl].
Proof.
  destruct pre as [| c pre] using rev_ind; [now left |].
  intros H. right. exists pre. unfold lastp in H. rewrite fold_left_app in H.
  simpl in H. apply N.eqb_eq in H. now subst c.
Qed.

Lemma rmatch_bol (b : re) cont prev pos rest g :
  rmatch (Bol >> b) cont (MState prev pos rest g) =
  if bol_prev prev then rmatch b cont (MState prev pos rest g) else None.
Proof. reflexivity. Qed.

Lemma plus_none (k : cls) cont prev pos g (r : text) :
  match r with [] => True | x :: _ => cls_ok k x = false end ->
  rmatch (Plus k) cont (MState prev pos r g) = None.
Proof.
  intros H. cbn [rmatch srest]. destruct r as [| x xs]; [reflexivity |].
  now rewrite H.
Qed.

(** What a match of the pattern of rule 3 is: at the start of a line,
    spaces, then [import], the name, a dot and the longest run of
    characters that are not spaces; group 1 is all but the spaces. *)
Lemma dotted_found (lib suf : text) prev pos m :
  importable lib = true ->
  match_here (pat_dotted lib) false prev pos suf = Some m ->
  bol_prev prev = true /\
  exists ws name more,
    suf = ws ++ kw_import ++ lib ++ dot :: name ++ more /\
    spaces ws = true /\ nonempty name = true /\ nonspaces name = true /\
    space_first more = true /\
    found m = kw_import ++ lib ++ dot :: name.
Proof.
  intros Hl H. rewrite match_here_search in H. unfold pat_dotted in H.
  rewrite (importable_lit _ Hl) in H. fold kw_import in H.
  assert (Hb : bol_prev prev = true).
  { rewrite rmatch_bol in H. destruct (bol_prev prev); [reflexivity | discriminate H]. }
  split; [exact Hb |].
  destruct (span_run is_space suf) as (ws & r1 & -> & Hws & Hr1).
  rewrite kw_import_head in H.
  rewrite anchored_star in H by first [assumption | reflexivity].
  change (105%N :: of_string "mport ") with kw_import in H.
  rewrite rmatch_grp, rmatch_seq in H.
  apply rmatch_lit_inv in H as (r2 & Hr2 & H). cbn [srest] in Hr2. subst r1.
  rewrite rmatch_seq in H.
  apply rmatch_lit_inv in H as (r3 & Hr3 & H).
  unfold moved in Hr3. cbn [srest] in Hr3. subst r2.
  rewrite rmatch_seq in H. unfold moved in H. cbn [srest sprev spos sgroups] in H.
  destruct r3 as [| x r4]; [discriminate H |].
  destruct (N.eqb x dot) eqn:E;
    [| rewrite rmatch_one_miss in H by exact E; discriminate H].
  rewrite rmatch_one in H by exact E. apply N.eqb_eq in E. subst x.
  destruct (span_run (cls_ok NonSpace) r4) as (name & more & -> & Hname & Hmore).
  destruct name as [| n0 name'].
  { rewrite plus_none in H by exact Hmore. discriminate H. }
  erewrite plus_run in H;
    [| discriminate | exact Hname | exact Hmore | reflexivity].
  injection H as <-.
  exists ws, (n0 :: name'), more.
  split; [reflexivity |]. split; [exact Hws |]. split; [reflexivity |].
  split; [exact Hname |]. split.
  - destruct more as [| y more']; [reflexivity |]. simpl in Hmore |- *.
    now apply negb_false_iff in Hmore.
  - unfold found, set_group. cbn [sgroups group Nat.eqb spos srest].
    transitivity
      (firstn (length (kw_import ++ lib ++ dot :: n0 :: name'))
              ((kw_import ++ lib ++ dot :: n0 :: name') ++ more)).
    + f_equal.
      * rewrite !length_app. cbn [length]. change (length kw_import) with 7. lia.
      * now rewrite <- !app_assoc.
    + rewrite firstn_app, firstn_all, Nat.sub_diag. cbn [firstn].
      now rewrite app_nil_r.
Qed.

Lemma rewrite_libs_app (item : path) (namespace : text)
    (before after : list text) (t : text) :
  rewrite_libs item namespace (before ++ after) t =
  bind (rewrite_libs item namespace before t)
       (rewrite_libs item namespace after).
Proof.
  revert t. induction before as [| lib libs IH]; intros t; [reflexivity |].
  cbn [app rewrite_libs]. destruct (rewrite_lib item namespace lib t); cbn [bind];
    [apply IH | reflexivity].
Qed.

Lemma message_contains (item : path) (n : nat) (line : text) :
  contains (path_str item) (dotted_message item n line) /\
  contains (str_of_nat n) (dotted_message item n line) /\
  contains line (dotted_message item n line).
Proof.
  unfold contains, dotted_message. repeat split.
  - exists (T "Encountered import that cannot be transformed for a namespace."
            ++ [nl] ++ T "File " ++ quote).
    eexists. rewrite <- !app_assoc. reflexivity.
  - exists (T "Encountered import that cannot be transformed for a namespace."
            ++ [nl] ++ T "File " ++ quote ++ path_str item ++ quote ++
            T ", line ").
    eexists. rewrite <- !app_assoc. reflexivity.
  - exists (T "Encountered import that cannot be transformed for a namespace."
            ++ [nl] ++ T "File " ++ quote ++ path_str item ++ quote ++
            T ", line " ++ str_of_nat n ++ [nl] ++ T "  ").
    eexists. rewrite <- !app_assoc. reflexivity.
Qed.

Lemma count_nl_prefix (pre suf : text) :
  count_nl (pre ++ suf) (length pre) = length (filter (N.eqb nl) pre).
Proof.
  unfold count_nl. rewrite firstn_app, firstn_all, Nat.sub_diag. simpl.
  now rewrite app_nil_r.
Qed.

Lemma walk_halts_witness :
  exists before p d after,
    walk_files [T "d"] sample_tree = before ++ (p, d) :: after /\
    walk_files [T "d"]
      (tree_after (rewrite_imports (T "v") [T "x"] [] [T "d"] sample_tree)) =
      map (file_after (T "v") [T "x"] []) before ++ (p, d) :: after /\
    events (rewrite_imports (T "v") [T "x"] [] [T "d"] sample_tree) =
      flat_map (file_events (T "v") [T "x"] []) before ++ [EvRead p] /\
    Forall (file_ok (T "v") [T "x"] []) before /\
    is_py p = true /\
    rewrite_text p (T "v") [T "x"] [] d =
      Raise (VendoringError
               (dotted_message [T "d"; T "x"; T "m.py"] 1 (T "import x.y"))).
Proof.
  apply (@walk_halts (T "v") [T "x"] [] [T "d"] sample_tree).
  vm_compute. reflexivity.
Defined.

(** The tree of the witness, after the walk: the first file is
    rewritten, the one that raised and the ones after it are not. *)
Example sample_tree_after :
  tree_after (rewrite_imports (T "v") [T "x"] [] [T "d"] sample_tree) =
  [File (T "a.py") (T "from v import x");
   Dir (T "x") [File (T "m.py") (T "import x.y"); File (T "n.py") (T "import x")];
   File (T "z.py") (T "import x")].
Proof. vm_compute. reflexivity. Qed.

Lemma lastp_app (a b : text) (prev : option char) :
  lastp (a ++ b) prev = lastp b (lastp a prev).
Proof. apply fold_left_app. Qed.

Lemma word_first_ahead (l rest : text) : word_first l -> no_space_ahead (l ++ rest).
Proof. destruct l; [contradiction | auto]. Qed.

(** The run of spaces at the start of a text is one. *)
Lemma span_unique (ws1 : text) : forall ws2 r1 r2,
  spaces ws1 = true -> spaces ws2 = true ->
  no_space_ahead r1 -> no_space_ahead r2 ->
  ws1 ++ r1 = ws2 ++ r2 -> ws1 = ws2 /\ r1 = r2.
Proof.
  induction ws1 as [| c ws1 IH]; intros ws2 r1 r2 H1 H2 Hr1 Hr2 E.
  - destruct ws2 as [| d ws2]; [auto |].
    simpl in E, H2. subst r1. apply andb_prop in H2 as [Hd _].
    simpl in Hr1. congruence.
  - simpl in H1. apply andb_prop in H1 as [Hc H1].
    destruct ws2 as [| d ws2].
    + simpl in E. subst r2. simpl in Hr2. congruence.
    + simpl in E, H2. injection E as -> E. apply andb_prop in H2 as [_ H2].
      destruct (IH ws2 r1 r2 H1 H2 Hr1 Hr2 E) as [-> ->]. auto.
Qed.

Lemma nl_count_app (a b : text) : nl_count (a ++ b) = nl_count a + nl_count b.
Proof. unfold nl_count. now rewrite filter_app, length_app. Qed.

Lemma nl_count_inline (l : text) : inline l = true -> nl_count l = 0.
Proof.
  unfold nl_count. induction l as [| c l IH]; [reflexivity |].
  rewrite inline_cons. intros H. apply andb_prop in H as [Hc Hl].
  apply negb_true_iff in Hc. cbn [filter]. rewrite (N.eqb_sym nl c), Hc.
  now apply IH.
Qed.

(** Two lines that start the same text are the same line. *)
Lemma inline_split (a : text) : forall c x y,
  inline a = true -> inline c = true ->
  a ++ nl :: x = c ++ nl :: y -> a = c /\ x = y.
Proof.
  induction a as [| p a IH]; intros c x y Ha Hc E.
  - destruct c as [| q c]; simpl in E.
    + injection E as ->. auto.
    + injection E as <- _. rewrite inline_cons, N.eqb_refl in Hc. discriminate Hc.
  - rewrite inline_cons in Ha. apply andb_prop in Ha as [Hp Ha].
    destruct c as [| q c]; simpl in E.
    + injection E as -> _. rewrite N.eqb_refl in Hp. discriminate Hp.
    + injection E as -> E. rewrite inline_cons in Hc.
      apply andb_prop in Hc as [_ Hc].
      destruct (IH c x y Ha Hc E) as [-> ->]. auto.
Qed.

(** A text without newline that starts a text whose first line is [c]
    starts [c]. *)
Lemma inline_prefix (a : text) : forall c r y,
  inline a = true -> inline c = true ->
  a ++ r = c ++ nl :: y -> exists l2, c = a ++ l2 /\ r = l2 ++ nl :: y.
Proof.
  induction a as [| p a IH]; intros c r y Ha Hc E.
  - exists c. auto.
  - rewrite inline_cons in Ha. apply andb_prop in Ha as [Hp Ha].
    destruct c as [| q c]; simpl in E.
    + injection E as -> _. rewrite N.eqb_refl in Hp. discriminate Hp.
    + injection E as -> E. rewrite inline_cons in Hc.
      apply andb_prop in Hc as [_ Hc].
      destruct (IH c r y Ha Hc E) as (l2 & -> & ->). exists l2. auto.
Qed.


Lemma lastp_word (l : text) (c : char) :
  N.eqb c nl = false -> inline l = true ->
  exists c', lastp l (Some c) = Some c' /\ N.eqb c' nl = false.
Proof.
  revert c. induction l as [| x l IH]; intros c Hc Hl.
  - exists c. auto.
  - rewrite inline_cons in Hl. apply andb_prop in Hl as [Hx Hl].
    apply negb_true_iff in Hx. simpl. now apply IH.
Qed.

Lemma inline_skipn (n : nat) (l : text) : inline l = true -> inline (skipn n l) = true.
Proof.
  revert l. induction n as [| n IH]; intros l Hl; [exact Hl |].
  destruct l as [| c l]; [reflexivity |].
  rewrite inline_cons in Hl. apply andb_prop in Hl as [_ Hl]. now apply IH.
Qed.

Lemma line_start_cases (rest : text) :
  line_start rest -> rest = [] \/ exists rest', rest = nl :: rest'.
Proof. auto. Qed.

(** ** A rule in a text of many lines

    A rule is a pattern that starts with [^], with the spaces at the
    start of the line, then a text [w] and a text [g], and a template
    that writes the spaces, a text [s] and [g]: [shape r1 w s g] says so
    for the text [r1] after the spaces. *)
Section AnchoredRule.

Variable b : re.
Variable tpl : template.
Variable shape : text -> text -> text -> text -> Prop.

Hypothesis shape_form : forall r1 w s g,
  shape r1 w s g ->
  exists rest, r1 = w ++ g ++ rest /\ word_first w /\ inline w = true /\
               inline s = true /\ (inline g = true \/ g = [nl]).

Hypothesis shape_fun : forall r1 w s g w' s' g',
  shape r1 w s g -> shape r1 w' s' g' -> w = w' /\ s = s' /\ g = g'.

Hypothesis complete : forall prev pos ws r1 w s g,
  bol_prev prev = true -> spaces ws = true -> shape r1 w s g ->
  exists st,
    match_here (Bol >> b) false prev pos (ws ++ r1) = Some st /\
    spos st = pos + length (ws ++ w ++ g) /\
    expand tpl st = ws ++ s ++ g.

Hypothesis sound : forall prev pos t st,
  match_here (Bol >> b) false prev pos t = Some st ->
  exists ws r1 w s g, t = ws ++ r1 /\ spaces ws = true /\ shape r1 w s g.

Local Abbreviation scan := (sub_scan (Bol >> b) tpl 0).

Lemma miss_step prev pos (x : char) (xs : text) :
  match_here (Bol >> b) false prev pos (x :: xs) = None ->
  scan prev pos (x :: xs) = x :: scan (Some x) (S pos) xs.
Proof. intros H. cbn [sub_scan]. now rewrite H. Qed.

Lemma scan_verbatim (l : text) : forall c pos rest,
  N.eqb c nl = false -> inline l = true ->
  scan (Some c) pos (l ++ rest) =
  l ++ scan (lastp l (Some c)) (pos + length l) rest.
Proof.
  induction l as [| x l IH]; intros c pos rest Hc Hl.
  - simpl. now rewrite Nat.add_0_r.
  - rewrite inline_cons in Hl. apply andb_prop in Hl as [Hx Hl].
    apply negb_true_iff in Hx. cbn [app].
    rewrite miss_step by now apply bol_inside.
    rewrite IH by assumption.
    replace (S pos + length l) with (pos + length (x :: l))
      by (cbn [length]; lia).
    reflexivity.
Qed.

Lemma scan_to_next (c : char) (pos : nat) (rest : text) :
  N.eqb c nl = false -> line_start rest ->
  scan (Some c) pos rest = after_line (Bol >> b) tpl pos rest.
Proof.
  intros Hc [-> | (rest' & ->)].
  - cbn [sub_scan after_line]. now rewrite bol_inside.
  - cbn [after_line]. apply miss_step. now apply bol_inside.
Qed.

Lemma shape_ahead r1 w s g : shape r1 w s g -> no_space_ahead r1.
Proof.
  intros H. apply shape_form in H as (rest & -> & Hw & _).
  now apply word_first_ahead.
Qed.

Lemma none_at prev pos (ws r1 : text) :
  spaces ws = true -> no_space_ahead r1 ->
  (forall w s g, ~ shape r1 w s g) ->
  match_here (Bol >> b) false prev pos (ws ++ r1) = None.
Proof.
  intros Hws Hr1 Hno.
  destruct (match_here (Bol >> b) false prev pos (ws ++ r1)) as [st |] eqn:E;
    [| reflexivity].
  apply sound in E as (ws0 & r0 & w & s & g & E & Hws0 & Hs).
  pose proof (shape_ahead Hs) as Hr0.
  destruct (@span_unique _ _ _ _ Hws Hws0 Hr1 Hr0 E) as [_ <-].
  now destruct (Hno w s g).
Qed.

Lemma found_at prev pos (ws r1 : text) st :
  spaces ws = true -> no_space_ahead r1 ->
  match_here (Bol >> b) false prev pos (ws ++ r1) = Some st ->
  exists w s g, shape r1 w s g.
Proof.
  intros Hws Hr1 E.
  apply sound in E as (ws0 & r0 & w & s & g & E & Hws0 & Hs).
  pose proof (shape_ahead Hs) as Hr0.
  destruct (@span_unique _ _ _ _ Hws Hws0 Hr1 Hr0 E) as [_ <-].
  eauto.
Qed.

Lemma scan_spaces (ws : text) : forall prev pos r1,
  spaces ws = true -> no_space_ahead r1 ->
  (forall w s g, ~ shape r1 w s g) ->
  scan prev pos (ws ++ r1) = ws ++ scan (lastp ws prev) (pos + length ws) r1.
Proof.
  induction ws as [| c ws IH]; intros prev pos r1 Hws Hr1 Hno.
  - simpl. now rewrite Nat.add_0_r.
  - cbn [app]. rewrite miss_step
      by (apply (none_at prev pos (c :: ws)); assumption).
    simpl in Hws. apply andb_prop in Hws as [_ Hws].
    rewrite IH by assumption.
    replace (S pos + length ws) with (pos + length (c :: ws))
      by (cbn [length]; lia).
    reflexivity.
Qed.

Lemma line_miss prev pos (ws l rest : text) :
  spaces ws = true -> word_first l -> inline l = true -> line_start rest ->
  (forall w s g, ~ shape (l ++ rest) w s g) ->
  scan prev pos (ws ++ l ++ rest) =
  ws ++ l ++ after_line (Bol >> b) tpl (pos + length (ws ++ l)) rest.
Proof.
  intros Hws Hl Hli Hrest Hno.
  rewrite scan_spaces by (auto using word_first_ahead).
  destruct l as [| c l]; [contradiction |]. simpl in Hl.
  rewrite inline_cons in Hli. apply andb_prop in Hli as [_ Hli].
  pose proof (not_space_neq_nl _ Hl) as Hc.
  cbn [app]. rewrite miss_step.
  - rewrite scan_verbatim by assumption.
    destruct (@lastp_word l c Hc Hli) as (c' & -> & Hc').
    rewrite scan_to_next by assumption.
    replace (S (pos + length ws) + length l) with (pos + length (ws ++ c :: l))
      by (rewrite length_app; cbn [length]; lia).
    reflexivity.
  - apply (none_at (lastp ws prev) (pos + length ws) [] (r1 := c :: l ++ rest));
      auto.
Qed.

Lemma word_first_nonempty (w : text) : word_first w -> w <> [].
Proof. destruct w; [contradiction | discriminate]. Qed.

Lemma hit_scan prev pos (ws r1 w s g rest : text) :
  bol_prev prev = true -> spaces ws = true -> shape r1 w s g ->
  r1 = w ++ g ++ rest ->
  scan prev pos (ws ++ r1) =
  ws ++ s ++ g ++
  scan (lastp (w ++ g) (lastp ws prev)) (pos + length (ws ++ w ++ g)) rest.
Proof.
  intros Hb Hws Hs ->.
  destruct (@complete prev pos ws _ _ _ _ Hb Hws Hs) as (st & Hm & Hpos & Hexp).
  destruct (@shape_form _ _ _ _ Hs) as (_ & _ & Hw & _).
  replace (ws ++ w ++ g ++ rest) with ((ws ++ w ++ g) ++ rest) in *
    by (now rewrite <- !app_assoc).
  rewrite (@sub_scan_match _ tpl _ _ _ _ _ Hm Hpos).
  - rewrite Hexp, <- !app_assoc, !lastp_app. reflexivity.
  - intros E. apply app_eq_nil in E as [_ E]. apply app_eq_nil in E as [E _].
    now apply (@word_first_nonempty w Hw).
Qed.

Lemma inline_no_nl (a x : text) : inline (a ++ nl :: x) = false.
Proof.
  rewrite inline_app, inline_cons, N.eqb_refl. cbn [negb andb].
  apply andb_false_r.
Qed.

Lemma line_hit prev pos (ws l rest w s g : text) :
  bol_prev prev = true -> spaces ws = true -> inline l = true ->
  line_start rest -> shape (l ++ rest) w s g ->
  scan prev pos (ws ++ l ++ rest) =
  ws ++ s ++ skipn (length w) l ++
  after_line (Bol >> b) tpl (pos + length (ws ++ l)) rest.
Proof.
  intros Hb Hws Hli Hrest Hs.
  destruct (@shape_form _ _ _ _ Hs) as (R & E & Hw & Hwi & Hsi & Hg).
  rewrite (@hit_scan prev pos ws _ w s g R Hb Hws Hs E).
  destruct Hg as [Hgi | ->].
  - assert (Hwg : inline (w ++ g) = true) by now rewrite inline_app, Hwi, Hgi.
    assert (Hl2 : exists l2, l = (w ++ g) ++ l2 /\ R = l2 ++ rest).
    { destruct Hrest as [-> | (rest' & ->)].
      - rewrite app_nil_r in E. exists R. now rewrite app_nil_r, <- app_assoc.
      - rewrite app_assoc in E. symmetry in E.
        destruct (@inline_prefix _ _ _ _ Hwg Hli E) as (l2 & -> & ->). eauto. }
    destruct Hl2 as (l2 & -> & ->).
    assert (Hne : w ++ g <> []).
    { intros E'. apply app_eq_nil in E' as [E' _].
      now apply (@word_first_nonempty w Hw). }
    destruct (@lastp_inline (w ++ g) (lastp ws prev) Hne Hwg) as (c' & -> & Hc').
    rewrite inline_app in Hli. apply andb_prop in Hli as [_ Hl2].
    rewrite scan_verbatim by assumption.
    destruct (@lastp_word l2 c' Hc' Hl2) as (c2 & -> & Hc2).
    rewrite scan_to_next by assumption.
    rewrite <- app_assoc, skipn_app, skipn_all2, Nat.sub_diag by lia.
    cbn [skipn app]. rewrite <- !app_assoc.
    do 5 f_equal. rewrite !length_app. lia.
  - destruct Hrest as [-> | (rest' & ->)].
    + rewrite app_nil_r in E. cbn [app] in E.
      rewrite E, inline_no_nl in Hli. discriminate Hli.
    + cbn [app] in E. destruct (@inline_split _ _ _ _ Hli Hwi E) as [-> ->].
      rewrite skipn_all, lastp_app. cbn [lastp fold_left app after_line].
      do 4 f_equal. rewrite !length_app. cbn [length]. lia.
Qed.

(** A line, after the spaces before it: the rule rewrites it when it has
    the shape, and leaves it alone when it has not; either way what
    follows the line goes on from the start of the next line. *)
Lemma line_step prev pos (ws l rest : text) :
  bol_prev prev = true -> spaces ws = true -> word_first l ->
  inline l = true -> line_start rest ->
  exists l',
    scan prev pos (ws ++ l ++ rest) =
      ws ++ l' ++ after_line (Bol >> b) tpl (pos + length (ws ++ l)) rest /\
    inline l' = true /\
    (forall w s g, shape (l ++ rest) w s g -> l' = s ++ skipn (length w) l) /\
    ((forall w s g, ~ shape (l ++ rest) w s g) -> l' = l).
Proof.
  intros Hb Hws Hl Hli Hrest.
  destruct (match_here (Bol >> b) false prev pos (ws ++ l ++ rest))
    as [st |] eqn:E.
  - apply found_at in E as (w & s & g & Hs); auto using word_first_ahead.
    exists (s ++ skipn (length w) l). split; [| split; [| split]].
    + rewrite <- app_assoc. now apply (@line_hit prev pos ws l rest w s g).
    + destruct (@shape_form _ _ _ _ Hs) as (_ & _ & _ & _ & Hsi & _).
      now rewrite inline_app, Hsi, inline_skipn.
    + intros w' s' g' Hs'. now destruct (@shape_fun _ _ _ _ _ _ _ Hs Hs') as (-> & -> & _).
    + intros Hno. now destruct (Hno w s g).
  - assert (Hno : forall w s g, ~ shape (l ++ rest) w s g).
    { intros w s g Hs. destruct (@complete prev pos ws _ _ _ _ Hb Hws Hs) as (st & Hm & _).
      congruence. }
    exists l. split; [| split; [| split]]; auto.
    + now apply line_miss.
    + intros w s g Hs. now destruct (Hno w s g).
Qed.

Lemma bol_after (a : text) prev :
  bol_prev prev = true -> line_end a -> bol_prev (lastp a prev) = true.
Proof.
  intros Hb [-> | (a' & ->)]; [exact Hb |]. now rewrite lastp_app.
Qed.

(** Blank lines before a text are copied, and the text is rewritten as
    it is without them. *)
Lemma blank_prefix (a x : text) prev pos :
  bol_prev prev = true -> spaces a = true -> line_end a ->
  scan prev pos (a ++ x) = a ++ scan (lastp a prev) (pos + length a) x.
Proof.
  intros Hb Ha Hend.
  destruct (span_run is_space x) as (wsx & rx & -> & Hwsx & Hrx).
  assert (Hws : spaces (a ++ wsx) = true)
    by (unfold spaces in *; now rewrite forallb_app, Ha, Hwsx).
  pose proof (@bol_after a prev Hb Hend) as Hb'.
  rewrite app_assoc.
  destruct (match_here (Bol >> b) false prev pos ((a ++ wsx) ++ rx))
    as [st |] eqn:E.
  - apply found_at in E as (w & s & g & Hs); auto.
    destruct (@shape_form _ _ _ _ Hs) as (R & E & _).
    rewrite (@hit_scan prev pos (a ++ wsx) _ w s g R Hb Hws Hs E).
    rewrite (@hit_scan (lastp a prev) (pos + length a) wsx _ w s g R
               Hb' Hwsx Hs E).
    rewrite <- !app_assoc, !lastp_app. do 5 f_equal.
    rewrite !length_app. lia.
  - assert (Hno : forall w s g, ~ shape rx w s g).
    { intros w s g Hs.
      destruct (@complete prev pos (a ++ wsx) _ _ _ _ Hb Hws Hs) as (st & Hm & _).
      congruence. }
    rewrite !scan_spaces by assumption.
    rewrite <- !app_assoc, !lastp_app. do 3 f_equal.
    rewrite !length_app. lia.
Qed.

Lemma first_line (t : text) :
  exists l rest, t = l ++ rest /\ inline l = true /\ line_start rest.
Proof.
  destruct (span_run (fun c => negb (N.eqb c nl)) t) as (l & rest & -> & Hl & Hr).
  exists l, rest. split; [reflexivity |]. split; [exact Hl |].
  destruct rest as [| x rest]; [now left |]. right. exists rest.
  apply negb_false_iff, N.eqb_eq in Hr. now subst x.
Qed.

Lemma line_end_tail (a a4 : text) : line_end (a ++ nl :: a4) -> line_end a4.
Proof.
  intros [E | (a' & E)].
  - destruct a; discriminate E.
  - destruct a4 as [| z a5 _] using rev_ind; [now left |].
    right. exists a5.
    change (a ++ nl :: a5 ++ [z]) with (a ++ (nl :: a5) ++ [z]) in E.
    rewrite app_assoc in E. apply app_inj_tail in E as [_ ->]. reflexivity.
Qed.

Lemma line_end_inline (ws l : text) :
  line_end (ws ++ l) -> inline l = true -> l = [].
Proof.
  intros [E | (a' & E)] Hl.
  - now apply app_eq_nil in E as [_ E].
  - destruct l as [| z l0 _] using rev_ind; [reflexivity |].
    rewrite app_assoc in E. apply app_inj_tail in E as [_ ->].
    now rewrite inline_no_nl in Hl.
Qed.

Lemma line_end_cons (a a4 : text) : line_end a4 -> line_end (a ++ nl :: a4).
Proof.
  intros [-> | (a' & ->)]; right.
  - now exists a.
  - exists (a ++ nl :: a'). now rewrite <- app_assoc.
Qed.

Lemma nl_count_cons_nl (t : text) : nl_count (nl :: t) = S (nl_count t).
Proof. reflexivity. Qed.

(** The lines before a line: the rule gives as many lines for them, and
    goes on with what follows as from the start of a line. *)
Lemma prefix_lines_n (n : nat) : forall (a x : text) prev pos,
  length a <= n -> bol_prev prev = true -> line_end a ->
  exists a',
    scan prev pos (a ++ x) = a' ++ scan (lastp a prev) (pos + length a) x /\
    line_end a' /\ nl_count a' = nl_count a.
Proof.
  induction n as [| n IH]; intros a x prev pos Hn Hb Hend.
  - destruct a as [| c a]; [| simpl in Hn; lia].
    exists []. simpl. rewrite Nat.add_0_r. repeat split. now left.
  - destruct (span_run is_space a) as (wsa & a2 & -> & Hwsa & Ha2).
    destruct a2 as [| c a2].
    { rewrite app_nil_r in *. exists wsa.
      split; [now apply blank_prefix | auto]. }
    destruct (first_line (c :: a2)) as (l & rest & E & Hl & Hrest).
    assert (Hw : word_first l).
    { destruct l as [| c' l0]; [| injection E as <- _; exact Ha2].
      destruct Hrest as [-> | (a4 & ->)]; [discriminate E |].
      injection E as -> _. vm_compute in Ha2. discriminate Ha2. }
    rewrite E in *. clear E.
    destruct Hrest as [-> | (a4 & ->)].
    { rewrite app_nil_r in *. pose proof (@line_end_inline wsa l Hend Hl) as ->.
      contradiction. }
    assert (Hend4 : line_end a4).
    { rewrite app_assoc in Hend. now apply line_end_tail in Hend. }
    assert (Hstart : line_start (nl :: a4 ++ x)) by (right; eauto).
    destruct (@line_step prev pos wsa l (nl :: a4 ++ x) Hb Hwsa Hw Hl Hstart)
      as (l' & Hscan & Hl' & _).
    assert (Hn4 : length a4 <= n).
    { rewrite !length_app in Hn. cbn [length] in Hn. lia. }
    destruct (IH a4 x (Some nl) (S (pos + length (wsa ++ l))) Hn4 eq_refl Hend4)
      as (a4' & Hscan4 & Hend4' & Hcount).
    exists (wsa ++ l' ++ nl :: a4'). split; [| split].
    + replace ((wsa ++ l ++ nl :: a4) ++ x) with (wsa ++ l ++ nl :: a4 ++ x)
        by (now rewrite <- !app_assoc).
      rewrite Hscan. cbn [after_line]. rewrite Hscan4.
      rewrite <- !app_assoc. cbn [app]. do 4 f_equal.
      rewrite !lastp_app. cbn [lastp fold_left]. f_equal.
      rewrite !length_app. cbn [length]. lia.
    + rewrite app_assoc. now apply line_end_cons.
    + rewrite !nl_count_app, !nl_count_cons_nl, Hcount.
      now rewrite (@nl_count_inline l Hl), (@nl_count_inline l' Hl').
Qed.

(** A line of a text, between the lines before it and what follows it:
    the rule rewrites it when it has the shape and leaves it alone when
    not, where it is. *)
Theorem scan_context (a indent l rest : text) prev pos :
  bol_prev prev = true -> line_end a -> spaces indent = true ->
  word_first l -> inline l = true -> line_start rest ->
  exists a' l',
    scan prev pos (a ++ indent ++ l ++ rest) =
      a' ++ indent ++ l' ++
      after_line (Bol >> b) tpl (pos + length (a ++ indent ++ l)) rest /\
    line_end a' /\ nl_count a' = nl_count a /\ inline l' = true /\
    (forall w s g, shape (l ++ rest) w s g -> l' = s ++ skipn (length w) l) /\
    ((forall w s g, ~ shape (l ++ rest) w s g) -> l' = l).
Proof.
  intros Hb Hend Hi Hw Hl Hrest.
  destruct (@prefix_lines_n (length a) a (indent ++ l ++ rest) prev pos
              (le_n _) Hb Hend) as (a' & Hscan & Hend' & Hcount).
  pose proof (@bol_after a prev Hb Hend) as Hb'.
  destruct (@line_step (lastp a prev) (pos + length a) indent l rest
              Hb' Hi Hw Hl Hrest) as (l' & Hscan' & Hl' & Hhit & Hmiss).
  exists a', l'. split; [| auto].
  rewrite Hscan, Hscan'. do 4 f_equal. rewrite !length_app. lia.
Qed.

(** A text of spaces only is copied. *)
Lemma scan_blank (ws : text) prev pos :
  spaces ws = true -> scan prev pos ws = ws.
Proof.
  intros Hws.
  assert (Hno : forall w s g, ~ shape [] w s g).
  { intros w s g Hs. destruct (@shape_form _ _ _ _ Hs) as (rest & E & Hw & _).
    destruct w; [exact Hw | discriminate E]. }
  rewrite <- (app_nil_r ws) at 1.
  rewrite (@scan_spaces ws prev pos [] Hws I Hno).
  cbn [sub_scan]. rewrite <- (app_nil_l []) at 1.
  rewrite (@none_at _ _ [] [] eq_refl I Hno). apply app_nil_r.
Qed.

(** The rule keeps the number of newlines of a text: it rewrites inside
    lines, and the newline that may end its match is written back. *)
Lemma scan_nl_count_n (n : nat) : forall (t : text) prev pos,
  length t <= n -> bol_prev prev = true ->
  nl_count (scan prev pos t) = nl_count t.
Proof.
  induction n as [| n IH]; intros t prev pos Hn Hb.
  - destruct t as [| c t]; [| simpl in Hn; lia].
    now rewrite (@scan_blank [] prev pos eq_refl).
  - destruct (span_run is_space t) as (ws & t2 & -> & Hws & Ht2).
    destruct t2 as [| c t2].
    { rewrite app_nil_r. now rewrite scan_blank. }
    destruct (first_line (c :: t2)) as (l & rest & E & Hl & Hrest).
    assert (Hw : word_first l).
    { destruct l as [| c' l0]; [| injection E as <- _; exact Ht2].
      destruct Hrest as [-> | (a4 & ->)]; [discriminate E |].
      injection E as -> _. vm_compute in Ht2. discriminate Ht2. }
    rewrite E in *. clear E.
    destruct (@line_step prev pos ws l rest Hb Hws Hw Hl Hrest)
      as (l' & Hscan & Hl' & _).
    rewrite Hscan, !nl_count_app.
    rewrite (@nl_count_inline l Hl), (@nl_count_inline l' Hl').
    destruct Hrest as [-> | (r4 & ->)]; [reflexivity |].
    cbn [after_line]. rewrite !nl_count_cons_nl. do 3 f_equal.
    apply IH; [| reflexivity].
    rewrite !length_app in Hn. cbn [length] in Hn. lia.
Qed.

Lemma scan_nl_count (t : text) prev pos :
  bol_prev prev = true -> nl_count (scan prev pos t) = nl_count t.
Proof. intros Hb. now apply (@scan_nl_count_n (length t)). Qed.

End AnchoredRule.

(** What a successful repetition took. *)
Lemma star_inv (k : cls) cont (rest : text) : forall prev pos g m,
  star k cont prev pos g rest = Some m ->
  exists run r,
    rest = run ++ r /\ forallb (cls_ok k) run = true /\
    cont (MState (lastp run prev) (pos + length run) r g) = Some m.
Proof.
  induction rest as [| x xs IH]; intros prev pos g m H; cbn [star] in H.
  - exists [], []. rewrite Nat.add_0_r. auto.
  - destruct (cls_ok k x) eqn:Ex.
    + destruct (star k cont (Some x) (S pos) g xs) as [m' |] eqn:E.
      * injection H as <-. apply IH in E as (run & r & -> & Hrun & Hc).
        exists (x :: run), r. cbn [forallb]. rewrite Ex, Hrun.
        replace (pos + length (x :: run)) with (S pos + length run)
          by (cbn [length]; lia).
        auto.
      * exists [], (x :: xs). rewrite Nat.add_0_r. auto.
    + exists [], (x :: xs). rewrite Nat.add_0_r. auto.
Qed.

Lemma plus_inv (k : cls) cont prev pos g (rest : text) m :
  rmatch (Plus k) cont (MState prev pos rest g) = Some m ->
  exists run r,
    rest = run ++ r /\ nonempty run = true /\ forallb (cls_ok k) run = true /\
    cont (MState (lastp run prev) (pos + length run) r g) = Some m.
Proof.
  cbn [rmatch srest sprev spos sgroups]. intros H.
  destruct rest as [| x xs]; [discriminate H |].
  destruct (cls_ok k x) eqn:Ex; [| discriminate H].
  apply star_inv in H as (run & r & -> & Hrun & Hc).
  exists (x :: run), r. cbn [forallb]. rewrite Ex, Hrun.
  replace (pos + length (x :: run)) with (S pos + length run)
    by (cbn [length]; lia).
  auto.
Qed.

Lemma ahead_inv (a : re) cont st m :
  rmatch (Ahead a) cont st = Some m ->
  exists st', rmatch a Some st = Some st'.
Proof.
  cbn [rmatch]. destruct (rmatch a Some st) as [st' |]; [eauto | discriminate].
Qed.

(** The end of a match of rule 1. *)
Lemma import_tail_inv (st m : mstate) :
  rmatch (Grp 2 (Alt (One Space) Eol)) Some st = Some m ->
  space_first (srest st) = true.
Proof.
  cbn [rmatch]. unfold at_eol. destruct (srest st) as [| x xs]; [reflexivity |].
  cbn [cls_ok space_first]. destruct (is_space x) eqn:E; [reflexivity |].
  rewrite (not_space_neq_nl _ E). discriminate.
Qed.

(** The end of a match of rule 4. *)
Lemma from_tail_inv (st m : mstate) :
  rmatch (Grp 2 (Alt (One (Chr dot)) (One Space))) Some st = Some m ->
  exists x rest, srest st = x :: rest /\ dot_or_space x = true.
Proof.
  cbn [rmatch]. destruct (srest st) as [| x xs]; [discriminate |].
  cbn [cls_ok]. unfold dot_or_space. intros H. exists x, xs.
  split; [reflexivity |].
  destruct (N.eqb x dot); [reflexivity |].
  destruct (is_space x); [reflexivity | discriminate H].
Qed.

(** The end of a match of rule 2. *)
Lemma alias_tail_inv prev pos g0 (r3 : text) (m : mstate) :
  rmatch (Grp 2 (One (Chr dot) >> Plus NonSpace) >>
          Ahead (Plus Space >> lit kw_as)) Some (MState prev pos r3 g0)
    = Some m ->
  exists sub ws rest,
    r3 = dot :: sub ++ ws ++ kw_as ++ rest /\
    nonempty sub = true /\ nonspaces sub = true /\
    nonempty ws = true /\ spaces ws = true.
Proof.
  rewrite rmatch_seq, rmatch_grp, rmatch_seq. intros H.
  destruct r3 as [| x r4]; [discriminate H |].
  destruct (N.eqb x dot) eqn:E;
    [| rewrite rmatch_one_miss in H by exact E; discriminate H].
  rewrite rmatch_one in H by exact E. apply N.eqb_eq in E. subst x.
  apply plus_inv in H as (sub & r & -> & Hne & Hsub & H).
  apply ahead_inv in H as (st' & H).
  rewrite rmatch_seq in H. unfold set_group in H.
  cbn [srest sprev spos sgroups] in H.
  apply plus_inv in H as (ws & r' & -> & Hwne & Hws & H).
  apply rmatch_lit_inv in H as (rest & Hr & _). cbn [srest] in Hr. subst r'.
  exists sub, ws, rest. auto.
Qed.

(** What a match of a pattern with group 1 on the indentation is. *)
Lemma anchored_inv (c : char) (kw : text) (b : re) prev pos (t : text) st :
  is_space c = false ->
  match_here (Bol >> Grp 1 (Star Space) >> lit (c :: kw) >> b) false prev pos t
    = Some st ->
  bol_prev prev = true /\
  exists ws r1,
    t = ws ++ r1 /\ spaces ws = true /\
    rmatch (lit (c :: kw) >> b) Some
      (MState (lastp ws prev) (pos + length ws) r1 [(1, ws)]) = Some st.
Proof.
  intros Hc H. rewrite match_here_search in H.
  assert (Hb : bol_prev prev = true).
  { rewrite rmatch_bol in H. destruct (bol_prev prev); [reflexivity | discriminate H]. }
  split; [exact Hb |].
  destruct (span_run is_space t) as (ws & r1 & -> & Hws & Hr1).
  rewrite anchored_grp in H by assumption.
  exists ws, r1. auto.
Qed.

Lemma import_found (namespace lib t : text) prev pos st :
  importable lib = true ->
  match_here (pat_import lib) false prev pos t = Some st ->
  exists ws r1 w s g,
    t = ws ++ r1 /\ spaces ws = true /\ shape_import namespace lib r1 w s g.
Proof.
  intros Hl H. unfold pat_import in H. rewrite (importable_lit _ Hl) in H.
  apply anchored_inv in H as (_ & ws & r1 & -> & Hws & H); [| reflexivity].
  change (105%N :: of_string "mport ") with kw_import in H.
  rewrite rmatch_seq in H. apply rmatch_lit_inv in H as (r2 & Hr2 & H).
  rewrite rmatch_seq in H. apply rmatch_lit_inv in H as (r3 & Hr3 & H).
  apply import_tail_inv in H.
  unfold moved in *. cbn [srest] in *. subst r1 r2.
  exists ws, (kw_import ++ lib ++ r3), (kw_import ++ lib),
    (T "from " ++ namespace ++ T " import " ++ lib), (firstn 1 r3).
  split; [reflexivity |]. split; [exact Hws |].
  split; [reflexivity |]. split; [reflexivity |].
  exists r3. now rewrite <- app_assoc.
Qed.




Lemma after_line_start (r : re) (tpl : template) (pos : nat) (rest : text) :
  line_start rest -> line_start (after_line r tpl pos rest).
Proof. intros [-> | (b & ->)]; [now left | right; cbn [after_line]; eauto]. Qed.

Lemma anchored_rewrites (b : re) (tpl : template)
    (shape : text -> text -> text -> text -> Prop) :
  (forall r1 w s g, shape r1 w s g ->
     exists rest, r1 = w ++ g ++ rest /\ word_first w /\ inline w = true /\
                  inline s = true /\ (inline g = true \/ g = [nl])) ->
  (forall r1 w s g w' s' g',
     shape r1 w s g -> shape r1 w' s' g' -> w = w' /\ s = s' /\ g = g') ->
  (forall prev pos ws r1 w s g,
     bol_prev prev = true -> spaces ws = true -> shape r1 w s g ->
     exists st,
       match_here (Bol >> b) false prev pos (ws ++ r1) = Some st /\
       spos st = pos + length (ws ++ w ++ g) /\
       expand tpl st = ws ++ s ++ g) ->
  (forall prev pos t st,
     match_here (Bol >> b) false prev pos t = Some st ->
     exists ws r1 w s g, t = ws ++ r1 /\ spaces ws = true /\ shape r1 w s g) ->
  rewrites_lines (Bol >> b) tpl shape.
Proof.
  intros Hform Hfun Hcomplete Hsound a indent l rest Ha Hi Hw Hl Hrest.
  destruct (@scan_context b tpl shape Hform Hfun Hcomplete Hsound
              a indent l rest None 0 eq_refl Ha Hi Hw Hl Hrest)
    as (a' & l' & Hscan & Ha' & Hcount & Hl' & Hhit & Hmiss).
  exists a', l', (after_line (Bol >> b) tpl (0 + length (a ++ indent ++ l)) rest).
  repeat (split; [assumption |]). split; [now apply after_line_start |].
  split; [now intros -> |]. auto.
Qed.

Lemma one_char (x : char) : inline [x] = true \/ [x] = [nl].
Proof.
  destruct (N.eqb_spec x nl) as [-> | ne]; [now right | left].
  rewrite inline_cons. apply N.eqb_neq in ne. now rewrite ne.
Qed.

Lemma kw_import_word (lib : text) : word_first (kw_import ++ lib).
Proof. reflexivity. Qed.

Lemma kw_from_word (lib : text) : word_first (kw_from ++ lib).
Proof. reflexivity. Qed.

Lemma import_anchored (namespace lib : text) :
  importable lib = true -> namespace_ok namespace = true ->
  anchored (pat_import lib) (tpl_import namespace lib)
    (shape_import namespace lib).
Proof.
  intros Hl Hn. pose proof (importable_inline _ Hl) as Hli.
  pose proof (namespace_ok_inline _ Hn) as Hni.
  unfold pat_import. eexists. split; [reflexivity |].
  split; [| split; [| split]].
  - intros r1 w s g (-> & -> & trail & -> & Ht & ->).
    exists (skipn 1 trail). rewrite skip_one.
    split; [reflexivity |]. split; [apply kw_import_word |].
    split; [now rewrite inline_app, Hli |].
    split; [now rewrite !inline_app, Hni, Hli |].
    destruct trail as [| x xs]; [now left | apply one_char].
  - intros r1 w s g w' s' g' (-> & -> & trail & -> & _ & ->)
      (-> & -> & trail' & E & _ & ->).
    apply app_inv_head in E. now subst trail'.
  - intros prev pos ws r1 w s g Hb Hws (-> & -> & trail & -> & Ht & ->).
    destruct (@import_here lib ws trail prev pos Hl Hb Hws
                (space_first_prop _ Ht)) as (st & Hm & Hpos & Hg1 & Hg2).
    exists st. split; [now rewrite <- !app_assoc |].
    split; [now rewrite <- !app_assoc | apply (expand3 _ _ Hg1 Hg2)].
  - intros prev pos t st H. exact (@import_found namespace lib t prev pos st Hl H).
Qed.

Lemma import_rewrites (namespace lib : text) :
  importable lib = true -> namespace_ok namespace = true ->
  rewrites_lines (pat_import lib) (tpl_import namespace lib)
    (shape_import namespace lib).
Proof.
  intros Hl Hn.
  destruct (@import_anchored namespace lib Hl Hn)
    as (b & E & H1 & H2 & H3 & H4).
  rewrite E. now apply anchored_rewrites.
Qed.


(** The run of characters that are not spaces at the start of a text is
    one. *)
Lemma word_unique (s1 : text) : forall s2 r1 r2,
  nonspaces s1 = true -> nonspaces s2 = true ->
  space_first r1 = true -> space_first r2 = true ->
  s1 ++ r1 = s2 ++ r2 -> s1 = s2 /\ r1 = r2.
Proof.
  induction s1 as [| c s1 IH]; intros s2 r1 r2 H1 H2 Hr1 Hr2 E.
  - destruct s2 as [| d s2]; [auto |].
    simpl in E, H2. subst r1. apply andb_prop in H2 as [Hd _].
    simpl in Hr1. rewrite Hr1 in Hd. discriminate Hd.
  - simpl in H1. apply andb_prop in H1 as [Hc H1].
    destruct s2 as [| d s2].
    + simpl in E. subst r2. simpl in Hr2. rewrite Hr2 in Hc. discriminate Hc.
    + simpl in E, H2. injection E as -> E. apply andb_prop in H2 as [_ H2].
      destruct (IH s2 r1 r2 H1 H2 Hr1 Hr2 E) as [-> ->]. auto.
Qed.

Lemma spaces_first (ws rest : text) :
  nonempty ws = true -> spaces ws = true -> space_first (ws ++ rest) = true.
Proof.
  destruct ws as [| x ws]; [discriminate |]. simpl. intros _ H.
  now apply andb_prop in H as [H _].
Qed.



Lemma rewrites_line_to (r : re) (tpl : template) shape
    (a indent l l' rest : text) :
  rewrites_lines r tpl shape -> line_to shape l l' ->
  line_end a -> spaces indent = true -> word_first l -> inline l = true ->
  line_start rest ->
  line_replaced a indent l' rest
    (sub_scan r tpl 0 None 0 (a ++ indent ++ l ++ rest)).
Proof.
  intros Hr Hto Ha Hi Hw Hl Hrest.
  destruct (Hr a indent l rest Ha Hi Hw Hl Hrest)
    as (a' & l1 & rest' & E & Ha' & Hn & Hrest' & Hnil & _ & Hhit & Hmiss).
  exists a', rest'. repeat (split; [| assumption]). rewrite E.
  destruct (Hto rest Hrest) as [(w & s & g & Hs & ->) | [Hno ->]].
  - now rewrite (Hhit w s g Hs).
  - now rewrite (Hmiss Hno).
Qed.

Lemma rewrite_lib_ok (item : path) (namespace lib t out : text) :
  rewrite_lib item namespace lib t = Ok out ->
  out = sub_scan (pat_from lib) (tpl_from namespace lib) 0 None 0
          (sub_scan (pat_alias lib) (tpl_alias namespace lib) 0 None 0
             (sub_scan (pat_import lib) (tpl_import namespace lib) 0 None 0 t)).
Proof.
  rewrite rewrite_lib_steps. cbv zeta.
  destruct (search (pat_dotted lib) _) as [[start m] |]; [discriminate |].
  now intros [= <-].
Qed.

Lemma space_first_app (trail rest : text) :
  space_first trail = true -> line_start rest ->
  space_first (trail ++ rest) = true.
Proof.
  destruct trail as [| x xs]; [| auto].
  intros _ [-> | (b & ->)]; reflexivity.
Qed.

Lemma skipn_prefix (w t : text) : skipn (length w) (w ++ t) = t.
Proof.
  rewrite skipn_app, skipn_all, Nat.sub_diag. reflexivity.
Qed.

(** What the three rules do with the lines of the claims. *)
Lemma import_to_hit (namespace lib trail : text) :
  space_first trail = true ->
  line_to (shape_import namespace lib) (kw_import ++ lib ++ trail)
    (T "from " ++ namespace ++ T " import " ++ lib ++ trail).
Proof.
  intros Ht rest Hrest. left.
  exists (kw_import ++ lib), (T "from " ++ namespace ++ T " import " ++ lib),
    (firstn 1 (trail ++ rest)).
  split.
  - split; [reflexivity |]. split; [reflexivity |]. exists (trail ++ rest).
    rewrite <- !app_assoc. split; [reflexivity |].
    split; [now apply space_first_app | reflexivity].
  - rewrite (app_assoc kw_import lib trail), skipn_prefix.
    now rewrite <- !app_assoc.
Qed.

Lemma import_to_same_longer (namespace lib more : text) (c : char) :
  is_space c = false ->
  line_to (shape_import namespace lib) (kw_import ++ lib ++ c :: more)
    (kw_import ++ lib ++ c :: more).
Proof.
  intros Hc rest Hrest. right. split; [| reflexivity].
  intros w s g (-> & -> & trail & E & Ht & ->).
  rewrite <- !app_assoc in E. do 2 apply app_inv_head in E. subst trail.
  simpl in Ht. congruence.
Qed.

Lemma import_to_same_from (namespace lib m : text) :
  line_to (shape_import namespace lib) (kw_from ++ m) (kw_from ++ m).
Proof.
  intros rest Hrest. right. split; [| reflexivity].
  intros w s g (-> & -> & trail & E & _). cbn in E. discriminate E.
Qed.

Lemma alias_to_hit (namespace lib sub ws more : text) :
  nonempty sub = true -> nonspaces sub = true ->
  nonempty ws = true -> spaces ws = true ->
  line_to (shape_alias namespace lib)
    (kw_import ++ lib ++ dot :: sub ++ ws ++ kw_as ++ more)
    (kw_import ++ namespace ++ T "." ++ lib ++ dot :: sub ++ ws ++ kw_as ++ more).
Proof.
  intros Hsub Hsubn Hws Hwss rest Hrest. left.
  exists (kw_import ++ lib), (kw_import ++ namespace ++ T "." ++ lib), (dot :: sub).
  split.
  - split; [reflexivity |]. split; [reflexivity |].
    exists sub, ws, (more ++ rest). rewrite <- !app_assoc. cbn [app].
    rewrite <- !app_assoc. auto 10.
  - rewrite (app_assoc kw_import lib), skipn_prefix.
    now rewrite <- !app_assoc.
Qed.

Lemma alias_to_same_from (namespace lib m : text) :
  line_to (shape_alias namespace lib) (kw_from ++ m) (kw_from ++ m).
Proof.
  intros rest Hrest. right. split; [| reflexivity].
  intros w s g (-> & -> & sub & ws & rest' & E & _). cbn in E. discriminate E.
Qed.

Lemma from_to_hit (namespace lib more : text) (x : char) :
  dot_or_space x = true ->
  line_to (shape_from namespace lib) (kw_from ++ lib ++ x :: more)
    (kw_from ++ namespace ++ T "." ++ lib ++ x :: more).
Proof.
  intros Hx rest Hrest. left.
  exists (kw_from ++ lib), (kw_from ++ namespace ++ T "." ++ lib), [x].
  split.
  - split; [reflexivity |]. split; [reflexivity |].
    exists x, (more ++ rest). rewrite <- !app_assoc. auto.
  - rewrite (app_assoc kw_from lib), skipn_prefix.
    now rewrite <- !app_assoc.
Qed.

Lemma from_to_same_import (namespace lib m : text) :
  line_to (shape_from namespace lib) (kw_import ++ m) (kw_import ++ m).
Proof.
  intros rest Hrest. right. split; [| reflexivity].
  intros w s g (-> & -> & x & rest' & E & _). cbn in E. discriminate E.
Qed.

Lemma clash_from (lib : text) : forall namespace x r r2,
  forallb name_char lib = true -> forallb ns_char namespace = true ->
  dot_or_space x = true ->
  lib ++ x :: r = namespace ++ 32%N :: r2 ->
  clash lib namespace = true.
Proof.
  unfold clash.
  induction lib as [| c lib IH]; intros ns x r r2 Hl Hn Hx E.
  - destruct ns as [| n ns]; [reflexivity |].
    cbn [app] in E. injection E as -> _. cbn [app starts_with forallb] in *.
    apply andb_prop in Hn as [Hn _]. unfold ns_char in Hn.
    apply andb_prop in Hn as [Hn _]. apply negb_true_iff in Hn.
    unfold dot_or_space in Hx. rewrite Hn, orb_false_r in Hx. now rewrite Hx.
  - cbn [forallb] in Hl. apply andb_prop in Hl as [Hc Hl].
    destruct ns as [| n ns]; cbn [app] in E.
    + injection E as -> _. vm_compute in Hc. discriminate Hc.
    + injection E as -> E. cbn [forallb] in Hn. apply andb_prop in Hn as [_ Hn].
      cbn [app starts_with]. rewrite N.eqb_refl. cbn [andb].
      exact (IH ns x r r2 Hl Hn Hx E).
Qed.

Lemma from_to_same_noclash (namespace lib trail : text) :
  importable lib = true -> namespace_ok namespace = true ->
  clash lib namespace = false ->
  line_to (shape_from namespace lib)
    (T "from " ++ namespace ++ T " import " ++ lib ++ trail)
    (T "from " ++ namespace ++ T " import " ++ lib ++ trail).
Proof.
  intros Hl Hn Hcl rest Hrest. right. split; [| reflexivity].
  intros w s g (-> & -> & x & rest' & E & Hx & _).
  change (T "from ") with kw_from in E.
  rewrite <- !app_assoc in E. apply app_inv_head in E.
  change (T " import " ++ lib ++ trail ++ rest)
    with (32%N :: T "import " ++ lib ++ trail ++ rest) in E.
  symmetry in E. apply clash_from in E; auto.
  - congruence.
  - now apply importable_forall.
  - destruct namespace; [discriminate Hn | exact Hn].
Qed.

Lemma line_replaced_trans (a indent l rest a1 rest1 out : text) :
  line_end a1 -> nl_count a1 = nl_count a -> (rest = [] -> rest1 = []) ->
  line_replaced a1 indent l rest1 out ->
  line_replaced a indent l rest out.
Proof.
  intros Ha1 Hn1 Hnil (a2 & rest2 & -> & Ha2 & Hn2 & Hrest2 & Hnil2).
  exists a2, rest2. repeat split; auto; congruence.
Qed.

Lemma rewrite_text_libs (item : path) (namespace : text) (libs : list text)
    (t : text) :
  namespace_ok namespace = true ->
  rewrite_text item namespace libs [] t = rewrite_libs item namespace libs t.
Proof.
  intros Hn. destruct namespace as [| c ns]; [discriminate Hn | reflexivity].
Qed.

Lemma word_inline_import (lib t : text) :
  importable lib = true -> inline t = true ->
  word_first (kw_import ++ lib ++ t) /\ inline (kw_import ++ lib ++ t) = true.
Proof.
  intros Hl Ht. split; [reflexivity |].
  now rewrite !inline_app, (importable_inline _ Hl), Ht.
Qed.

Lemma word_inline_from (t : text) :
  inline t = true -> word_first (kw_from ++ t) /\ inline (kw_from ++ t) = true.
Proof. intros Ht. split; [reflexivity |]. now rewrite inline_app, Ht. Qed.

(** The second file of the specification's example. *)
Example unaliased_example :
  rewrite_text [T "pkgA"; T "other.py"] (T "vend") [T "pkgA"] []
    (T "import pkgA.util") =
  Raise (VendoringError
           (dotted_message [T "pkgA"; T "other.py"] 1 (T "import pkgA.util"))).
Proof. vm_compute. reflexivity. Qed.

(** A text of several lines through the rules of one library. *)
Example several_lines :
  rewrite_text [T "m.py"] (T "vend") [T "a"] []
    (T "import a" ++ [nl] ++ [nl] ++
     T "  import a  # x" ++ [nl] ++
     T "import ab" ++ [nl] ++
     T "import a.b as c" ++ [nl] ++
     T "from a import x" ++ [nl] ++
     T "from a.b import y" ++ [nl] ++
     T "from . import z" ++ [nl]) =
  Ok (T "from vend import a" ++ [nl] ++ [nl] ++
      T "  from vend import a  # x" ++ [nl] ++
      T "import ab" ++ [nl] ++
      T "import vend.a.b as c" ++ [nl] ++
      T "from vend.a import x" ++ [nl] ++
      T "from vend.a.b import y" ++ [nl] ++
      T "from . import z" ++ [nl]).
Proof. vm_compute. reflexivity. Qed.

(** The line number of the error is that of the start of the match, and
    the match takes in the blank lines before the import. *)
Example blank_lines_before :
  rewrite_text [T "m.py"] (T "vend") [T "a"] []
    (T "x = 1" ++ [nl] ++ [nl] ++ [nl] ++ T "import a.b" ++ [nl]) =
  Raise (VendoringError (dotted_message [T "m.py"] 2 (T "import a.b"))).
Proof. vm_compute. reflexivity. Qed.

(** ** Rule 3: the dotted import that cannot be rewritten *)

(** A match at some position gives a match of the search, at that
    position or before it. *)
Lemma search_from_complete (r : re) (pre : text) : forall prev pos suf m',
  match_here r false (lastp pre prev) (pos + length pre) suf = Some m' ->
  exists start m,
    search_from r prev pos (pre ++ suf) = Some (start, m) /\
    start <= pos + length pre.
Proof.
  induction pre as [| x pre IH]; intros prev pos suf m' H.
  - cbn [lastp fold_left length app] in *. rewrite Nat.add_0_r in *.
    exists pos, m'. split; [| lia].
    destruct suf; cbn [search_from]; now rewrite H.
  - cbn [app search_from].
    destruct (match_here r false prev pos (x :: pre ++ suf)) as [m |] eqn:E.
    + exists pos, m. split; [reflexivity | lia].
    + cbn [lastp fold_left length] in H.
      replace (pos + S (length pre)) with (S pos + length pre) in H by lia.
      destruct (IH (Some x) (S pos) suf m' H) as (start & m & Hs & Hle).
      exists start, m. split; [exact Hs |]. cbn [length]. lia.
Qed.

(** Rule 3 at the start of a line [import lib.] followed by something
    that is not a space. *)
Lemma dotted_here (lib indent more : text) (c : char) prev pos :
  importable lib = true -> bol_prev prev = true -> spaces indent = true ->
  is_space c = false ->
  exists st,
    match_here (pat_dotted lib) false prev pos
      (indent ++ kw_import ++ lib ++ dot :: c :: more) = Some st.
Proof.
  intros Hl Hb Hi Hc. rewrite match_here_search. unfold pat_dotted.
  rewrite (importable_lit _ Hl). fold kw_import. rewrite kw_import_head.
  rewrite anchored_star by first [assumption | reflexivity].
  rewrite <- kw_import_head.
  rewrite rmatch_grp, rmatch_seq,
    rmatch_lit with (r := lib ++ dot :: c :: more) by reflexivity.
  rewrite rmatch_seq, rmatch_lit with (r := dot :: c :: more) by reflexivity.
  unfold moved. cbn [srest sprev spos sgroups].
  rewrite rmatch_seq, rmatch_one by apply N.eqb_refl.
  destruct (span_run (cls_ok NonSpace) more) as (run & r & -> & Hrun & Hr).
  eexists.
  apply (@plus_run NonSpace (c :: run) r); [discriminate | | exact Hr |].
  - cbn [forallb cls_ok]. now rewrite Hc, Hrun.
  - reflexivity.
Qed.

(** C1. For a library [L] of the list, let [t2] be the text of the file
    once the substitutions, the rules of the libraries before [L] and
    rules 1 and 2 of [L] have been applied.  Whenever the search of
    rule 3 for [L] finds a match in [t2], the rewriting of the file
    raises a [VendoringError] at once: the file is only read, never
    written, and the message contains the path of the file, the line
    number --- one more than the number of newlines of [t2] before the
    start of the match --- and the text of group 1.  The match starts at
    the beginning of a line and consists of white space, then
    [import L.] and a non-empty run of characters that are not white
    space, which is group 1.  And the search does find a match as soon
    as [t2] has a line that starts, after its indentation, with
    [import L.] and one character that is not white space; the match
    starts at the beginning of that line or before. *)
Theorem dotted_import_fatal (item : path) (namespace : text)
    (before : list text) (lib : text) (after : list text)
    (substitutions : list substitution) (data t0 t1 t1' t2 : text) :
  namespace_ok namespace = true -> importable lib = true ->
  apply_substitutions substitutions data = Ok t0 ->
  rewrite_libs item namespace before t0 = Ok t1 ->
  re_sub (pat_import lib) (tpl_import namespace lib) t1 = Ok t1' ->
  re_sub (pat_alias lib) (tpl_alias namespace lib) t1' = Ok t2 ->
  (forall (start : nat) (m : mstate),
     search (pat_dotted lib) t2 = Some (start, m) ->
     let message := dotted_message item (count_nl t2 start + 1) (found m) in
     rewrite_file_imports item namespace (before ++ lib :: after)
       substitutions data
     = (data, [EvRead item], Some (VendoringError message)) /\
     contains (path_str item) message /\
     contains (str_of_nat (count_nl t2 start + 1)) message /\
     contains (found m) message /\
     exists pre ws name more,
       t2 = pre ++ ws ++ T "import " ++ lib ++ T "." ++ name ++ more /\
       (pre = [] \/ exists pre', pre = pre' ++ [nl]) /\
       spaces ws = true /\ nonempty name = true /\ nonspaces name = true /\
       space_first more = true /\
       start = length pre /\
       count_nl t2 start = length (filter (N.eqb nl) pre) /\
       found m = T "import " ++ lib ++ T "." ++ name) /\
  (forall (a indent more : text) (c : char),
     line_end a -> spaces indent = true -> is_space c = false ->
     t2 = a ++ indent ++ T "import " ++ lib ++ T "." ++ c :: more ->
     exists start m,
       search (pat_dotted lib) t2 = Some (start, m) /\ start <= length a).
Proof.
  intros Hn Hl Hs Hb H1 H2. split.
  - intros start m H3 message.
    split; [| split; [| split; [| split]]]; try apply message_contains.
    + unfold rewrite_file_imports, rewrite_text. rewrite Hs. cbn [bind].
      destruct namespace as [| c ns]; [discriminate Hn |].
      rewrite rewrite_libs_app, Hb. cbn [bind rewrite_libs].
      unfold rewrite_lib. rewrite H1. cbn [bind]. rewrite H2. cbn [bind].
      rewrite H3. reflexivity.
    + apply search_from_found in H3 as (pre & suf & -> & -> & Hm).
      apply dotted_found in Hm as (Hbol & ws & name & more & -> & Hws & Hne &
                                    Hname & Hmore & Hfound); [| exact Hl].
      exists pre, ws, name, more.
      split; [reflexivity |]. split; [now apply bol_prev_last |].
      repeat (split; [assumption |]).
      split; [reflexivity |]. split; [apply count_nl_prefix | exact Hfound].
  - intros a indent more c Ha Hi Hc ->.
    destruct (@dotted_here lib indent more c (lastp a None) (0 + length a) Hl
                (@bol_after a None eq_refl Ha) Hi Hc) as (st & Hst).
    apply (@search_from_complete (pat_dotted lib) a None 0 _ st Hst).
Qed.

Lemma dotted_import_fatal_witness :
  rewrite_file_imports [T "d"; T "m.py"] (T "v") [T "z"; T "a"; T "b"] []
    (T "import z" ++ [nl] ++ T "    import a.b.c  # x" ++ [nl]) =
  (T "import z" ++ [nl] ++ T "    import a.b.c  # x" ++ [nl],
   [EvRead [T "d"; T "m.py"]],
   Some (VendoringError
           (dotted_message [T "d"; T "m.py"] 2 (T "import a.b.c")))).
Proof.
  pose (t1 := T "from v import z" ++ [nl] ++ T "    import a.b.c  # x" ++ [nl]).
  let r := eval vm_compute in (search (pat_dotted (T "a")) t1) in
  match r with
  | Some (?start, ?m) =>
      refine (proj1 (proj1 (@dotted_import_fatal [T "d"; T "m.py"] (T "v")
                              [T "z"] (T "a") [T "b"] []
                              (T "import z" ++ [nl] ++
                               T "    import a.b.c  # x" ++ [nl])
                              _ t1 t1 t1 eq_refl eq_refl eq_refl _ _ _)
                       start m _))
  end; vm_compute; reflexivity.
Defined.

(** * Lines and the names of a list *)

(** ** Texts that the rules do not touch *)

(** Where a pattern matches at no position of a text, [re.sub] gives the
    text back and [re.search] finds nothing. *)
Lemma sub_scan_none (r : re) (tpl : template) (rest : text) :
  forall prev pos,
  (forall pre suf, rest = pre ++ suf ->
     match_here r false (lastp pre prev) (pos + length pre) suf = None) ->
  sub_scan r tpl 0 prev pos rest = rest.
Proof.
  induction rest as [| x xs IH]; intros prev pos H.
  - cbn [sub_scan]. specialize (H [] [] eq_refl). cbn in H.
    rewrite Nat.add_0_r in H. now rewrite H.
  - cbn [sub_scan]. pose proof (H [] (x :: xs) eq_refl) as H0. cbn in H0.
    rewrite Nat.add_0_r in H0. rewrite H0. f_equal. apply IH.
    intros pre suf ->. specialize (H (x :: pre) suf eq_refl).
    cbn [length] in H. now rewrite Nat.add_succ_r in H.
Qed.

Lemma search_from_none (r : re) (rest : text) :
  forall prev pos,
  (forall pre suf, rest = pre ++ suf ->
     match_here r false (lastp pre prev) (pos + length pre) suf = None) ->
  search_from r prev pos rest = None.
Proof.
  induction rest as [| x xs IH]; intros prev pos H.
  - cbn [search_from]. specialize (H [] [] eq_refl). cbn in H.
    rewrite Nat.add_0_r in H. now rewrite H.
  - cbn [search_from]. pose proof (H [] (x :: xs) eq_refl) as H0. cbn in H0.
    rewrite Nat.add_0_r in H0. rewrite H0. apply IH.
    intros pre suf ->. specialize (H (x :: pre) suf eq_refl).
    cbn [length] in H. now rewrite Nat.add_succ_r in H.
Qed.

(** ** Texts of several lines, line by line *)

Lemma anchored_step (r : re) (tpl : template) shape prev pos
    (ws l rest : text) :
  anchored r tpl shape ->
  bol_prev prev = true -> spaces ws = true -> word_first l ->
  inline l = true -> line_start rest ->
  exists l',
    sub_scan r tpl 0 prev pos (ws ++ l ++ rest) =
      ws ++ l' ++ after_line r tpl (pos + length (ws ++ l)) rest /\
    inline l' = true /\
    (forall w s g, shape (l ++ rest) w s g -> l' = s ++ skipn (length w) l) /\
    ((forall w s g, ~ shape (l ++ rest) w s g) -> l' = l).
Proof.
  intros (b & -> & H1 & H2 & H3 & H4).
  apply (@line_step b tpl shape H1 H2 H3 H4).
Qed.

Lemma anchored_line (r : re) (tpl : template) shape prev pos
    (ws l l' rest : text) :
  anchored r tpl shape ->
  bol_prev prev = true -> spaces ws = true -> word_first l ->
  inline l = true -> line_start rest -> line_at shape l rest l' ->
  sub_scan r tpl 0 prev pos (ws ++ l ++ rest) =
  ws ++ l' ++ after_line r tpl (pos + length (ws ++ l)) rest.
Proof.
  intros Ha Hb Hws Hw Hl Hrest Hat.
  destruct (@anchored_step r tpl shape prev pos ws l rest Ha Hb Hws Hw Hl Hrest)
    as (l1 & Hscan & _ & Hhit & Hmiss).
  rewrite Hscan. do 2 f_equal.
  destruct Hat as [(w & s & g & Hs & ->) | [Hno ->]];
    [exact (Hhit w s g Hs) | exact (Hmiss Hno)].
Qed.




Lemma search_last_line (b : re) (t : text) prev pos :
  match_here (Bol >> b) false prev pos t = None -> inline t = true ->
  search_from (Bol >> b) prev pos t = None.
Proof.
  intros Hm Hin. destruct t as [| x xs]; cbn [search_from];
    rewrite Hm; [reflexivity |].
  rewrite inline_cons in Hin. apply andb_prop in Hin as [Hx Hin].
  apply negb_true_iff in Hx. now apply search_inside.
Qed.




(** ** Texts that fit a name *)

Lemma rmatch_lib_re (lib : text) : forall m cont st r,
  fits lib m = true -> srest st = m ++ r ->
  rmatch (lib_re lib) cont st = cont (moved st m r).
Proof.
  induction lib as [| c lib IH]; intros m cont st r Hf Hs;
    destruct m as [| x m]; try discriminate Hf.
  - cbn [lib_re rmatch]. cbn [app] in Hs. rewrite <- Hs. now rewrite moved_nil.
  - cbn [fits] in Hf. apply andb_prop in Hf as [Hx Hf].
    cbn [lib_re]. rewrite rmatch_seq. destruct st as [p ps rs g].
    cbn [srest app] in Hs. subst rs.
    rewrite rmatch_one.
    + rewrite IH with (m := m) (r := r); [| exact Hf | reflexivity].
      now rewrite moved_cons.
    + destruct (N.eqb c dot); exact Hx.
Qed.

Lemma fits_inline (lib : text) : forall m,
  inline lib = true -> fits lib m = true -> inline m = true.
Proof.
  induction lib as [| c lib IH]; intros [| x m] Hl H; try discriminate H;
    [reflexivity |].
  cbn [fits] in H. apply andb_prop in H as [Hx H].
  rewrite inline_cons in *. apply andb_prop in Hl as [Hc Hl].
  rewrite (IH m Hl H), andb_true_r.
  destruct (N.eqb c dot); [exact Hx |].
  apply N.eqb_eq in Hx. now subst x.
Qed.

Lemma import_here_fits (lib m indent trail : text) prev pos :
  fits lib m = true -> bol_prev prev = true -> spaces indent = true ->
  match trail with [] => True | x :: _ => is_space x = true end ->
  exists st,
    match_here (pat_import lib) false prev pos
      (indent ++ kw_import ++ m ++ trail) = Some st /\
    spos st = pos + length (indent ++ kw_import ++ m ++ firstn 1 trail) /\
    group 1 (sgroups st) = Some indent /\
    group 2 (sgroups st) = Some (firstn 1 trail).
Proof.
  intros Hf Hb Hi Ht. rewrite match_here_search. unfold pat_import.
  fold kw_import. rewrite kw_import_head.
  rewrite anchored_grp; auto; [| reflexivity].
  rewrite <- kw_import_head.
  rewrite rmatch_seq, rmatch_lit with (r := m ++ trail) by reflexivity.
  rewrite rmatch_seq, (@rmatch_lib_re lib m _ _ trail Hf) by reflexivity.
  rewrite import_tail by exact Ht.
  eexists. split; [reflexivity |]. cbn [spos sgroups srest moved group Nat.eqb].
  repeat split. rewrite !length_app.
  change (length (105%N :: of_string "mport ")) with (length kw_import). lia.
Qed.

Lemma from_here_fits (lib m indent rest : text) (x : char) prev pos :
  fits lib m = true -> bol_prev prev = true -> spaces indent = true ->
  dot_or_space x = true ->
  exists st,
    match_here (pat_from lib) false prev pos
      (indent ++ kw_from ++ m ++ x :: rest) = Some st /\
    spos st = pos + length (indent ++ kw_from ++ m ++ [x]) /\
    group 1 (sgroups st) = Some indent /\
    group 2 (sgroups st) = Some [x].
Proof.
  intros Hf Hb Hi Hx. rewrite match_here_search. unfold pat_from.
  fold kw_from. rewrite kw_from_head.
  rewrite anchored_grp; auto; [| reflexivity].
  rewrite <- kw_from_head.
  rewrite rmatch_seq, rmatch_lit with (r := m ++ x :: rest) by reflexivity.
  rewrite rmatch_seq, (@rmatch_lib_re lib m _ _ (x :: rest) Hf) by reflexivity.
  unfold moved. cbn [srest sprev spos sgroups].
  rewrite from_tail by assumption.
  eexists. split; [reflexivity |]. cbn [spos sgroups group Nat.eqb].
  repeat split. rewrite !length_app. cbn [length].
  change (length (of_string "rom ")) with 4. change (length kw_from) with 5. lia.
Qed.

(** ** Lines and the rules of the other libraries *)

Lemma name_run_unique (a : text) : forall b r1 r2,
  forallb name_char a = true -> forallb name_char b = true ->
  name_end r1 -> name_end r2 -> a ++ r1 = b ++ r2 -> a = b /\ r1 = r2.
Proof.
  induction a as [| c a IH]; intros b r1 r2 Ha Hb H1 H2 E.
  - destruct b as [| d b]; [auto |]. cbn in E, Hb. subst r1.
    apply andb_prop in Hb as [Hd _]. cbn in H1. congruence.
  - cbn in Ha. apply andb_prop in Ha as [Hc Ha].
    destruct b as [| d b]; cbn in E.
    + subst r2. cbn in H2. congruence.
    + injection E as -> E. cbn in Hb. apply andb_prop in Hb as [_ Hb].
      destruct (IH b r1 r2 Ha Hb H1 H2 E) as [-> ->]. auto.
Qed.

Lemma space_not_name (x : char) : is_space x = true -> name_char x = false.
Proof. intros H. unfold name_char. now rewrite H. Qed.

Lemma name_end_space (trail rest : text) :
  space_first trail = true -> line_start rest -> name_end (trail ++ rest).
Proof.
  intros Ht Hrest. destruct trail as [| x trail]; cbn.
  - destruct Hrest as [-> | (r & ->)]; [exact I | reflexivity].
  - now apply space_not_name.
Qed.

Lemma name_end_sep (x : char) (t : text) :
  dot_or_space x = true -> name_end (x :: t).
Proof.
  unfold dot_or_space. intros H. apply orb_prop in H as [H | H]; cbn.
  - apply N.eqb_eq in H. now subst x.
  - now apply space_not_name.
Qed.

(** The rules of another library on a plain import. *)
Lemma import_to_same_other (namespace lib lib' trail : text) :
  importable lib = true -> importable lib' = true -> lib' <> lib ->
  space_first trail = true ->
  line_to (shape_import namespace lib') (kw_import ++ lib ++ trail)
    (kw_import ++ lib ++ trail).
Proof.
  intros Hl Hl' Hne Ht rest Hrest. right. split; [| reflexivity].
  intros w s g (-> & -> & trail' & E & Ht' & _).
  rewrite <- !app_assoc in E. apply app_inv_head in E.
  assert (H' : name_end trail').
  { destruct trail' as [| x t]; [exact I |]. now apply space_not_name. }
  destruct (@name_run_unique lib lib' (trail ++ rest) trail'
              (@importable_forall lib Hl) (@importable_forall lib' Hl')
              (@name_end_space trail rest Ht Hrest) H' E) as [E1 _].
  now subst lib'.
Qed.

Lemma alias_to_same_plain (namespace lib lib' trail : text) :
  importable lib = true -> importable lib' = true ->
  space_first trail = true ->
  line_to (shape_alias namespace lib') (kw_import ++ lib ++ trail)
    (kw_import ++ lib ++ trail).
Proof.
  intros Hl Hl' Ht rest Hrest. right. split; [| reflexivity].
  intros w s g (-> & -> & sub & ws & r & E & _).
  rewrite <- !app_assoc in E. apply app_inv_head in E.
  destruct (@name_run_unique lib lib' (trail ++ rest)
              (dot :: sub ++ ws ++ kw_as ++ r)
              (@importable_forall lib Hl) (@importable_forall lib' Hl')
              (@name_end_space trail rest Ht Hrest) eq_refl E) as [_ E2].
  destruct trail as [| x trail]; cbn [app] in E2.
  - destruct Hrest as [-> | (r' & ->)]; discriminate E2.
  - injection E2 as -> _. discriminate Ht.
Qed.

(** The rules of any library on [import L.] and what follows. *)
Lemma import_to_same_dotted (namespace lib lib' tail : text) :
  importable lib = true -> importable lib' = true ->
  line_to (shape_import namespace lib') (kw_import ++ lib ++ dot :: tail)
    (kw_import ++ lib ++ dot :: tail).
Proof.
  intros Hl Hl' rest Hrest. right. split; [| reflexivity].
  intros w s g (-> & -> & trail' & E & Ht' & _).
  rewrite <- !app_assoc in E. apply app_inv_head in E.
  assert (H' : name_end trail').
  { destruct trail' as [| x t]; [exact I |]. now apply space_not_name. }
  destruct (@name_run_unique lib lib' ((dot :: tail) ++ rest) trail'
              (@importable_forall lib Hl) (@importable_forall lib' Hl') eq_refl H' E)
    as [_ E2].
  subst trail'. discriminate Ht'.
Qed.

Lemma alias_to_same_other (namespace lib lib' tail : text) :
  importable lib = true -> importable lib' = true -> lib' <> lib ->
  line_to (shape_alias namespace lib') (kw_import ++ lib ++ dot :: tail)
    (kw_import ++ lib ++ dot :: tail).
Proof.
  intros Hl Hl' Hne rest Hrest. right. split; [| reflexivity].
  intros w s g (-> & -> & sub & ws & r & E & _).
  rewrite <- !app_assoc in E. apply app_inv_head in E.
  destruct (@name_run_unique lib lib' ((dot :: tail) ++ rest)
              (dot :: sub ++ ws ++ kw_as ++ r)
              (@importable_forall lib Hl) (@importable_forall lib' Hl') eq_refl eq_refl E)
    as [E1 _].
  now subst lib'.
Qed.

(** The rules of another library on a from-import. *)
Lemma from_to_same_other (namespace lib lib' more : text) (x : char) :
  importable lib = true -> importable lib' = true -> lib' <> lib ->
  dot_or_space x = true ->
  line_to (shape_from namespace lib') (kw_from ++ lib ++ x :: more)
    (kw_from ++ lib ++ x :: more).
Proof.
  intros Hl Hl' Hne Hx rest Hrest. right. split; [| reflexivity].
  intros w s g (-> & -> & x' & r & E & Hx' & _).
  rewrite <- !app_assoc in E. apply app_inv_head in E.
  destruct (@name_run_unique lib lib' ((x :: more) ++ rest) (x' :: r)
              (@importable_forall lib Hl) (@importable_forall lib' Hl')
              (@name_end_sep x _ Hx) (@name_end_sep x' _ Hx') E) as [E1 _].
  now subst lib'.
Qed.

(** A library name followed by a dot or a space at the start of a
    namespace followed by a dot or a space: the two clash. *)
Lemma clash_prefix (lib : text) : forall namespace x r y r2,
  forallb name_char lib = true -> forallb ns_char namespace = true ->
  dot_or_space x = true -> dot_or_space y = true ->
  lib ++ x :: r = namespace ++ y :: r2 ->
  clash lib namespace = true.
Proof.
  unfold clash.
  induction lib as [| c lib IH]; intros ns x r y r2 Hl Hn Hx Hy E.
  - destruct ns as [| n ns]; [reflexivity |].
    cbn [app] in E. injection E as -> _. cbn [app starts_with forallb] in *.
    apply andb_prop in Hn as [Hn _]. unfold ns_char in Hn.
    apply andb_prop in Hn as [Hn _]. apply negb_true_iff in Hn.
    unfold dot_or_space in Hx. rewrite Hn, orb_false_r in Hx. now rewrite Hx.
  - cbn [forallb] in Hl. apply andb_prop in Hl as [Hc Hl].
    destruct ns as [| n ns]; cbn [app] in E.
    + injection E as -> _. apply name_end_sep with (t := []) in Hy.
      cbn in Hy. congruence.
    + injection E as -> E. cbn [forallb] in Hn. apply andb_prop in Hn as [_ Hn].
      cbn [app starts_with]. rewrite N.eqb_refl. cbn [andb].
      exact (IH ns x r y r2 Hl Hn Hx Hy E).
Qed.

Lemma namespace_ok_forall (namespace : text) :
  namespace_ok namespace = true -> forallb ns_char namespace = true.
Proof. destruct namespace; [discriminate | auto]. Qed.

(** The rules of a library that does not clash with the namespace on a
    line that already goes through the namespace. *)
Lemma from_to_same_namespace (ns' namespace lib r : text) (y : char) :
  importable lib = true -> namespace_ok namespace = true ->
  clash lib namespace = false -> dot_or_space y = true ->
  line_to (shape_from ns' lib) (kw_from ++ namespace ++ y :: r)
    (kw_from ++ namespace ++ y :: r).
Proof.
  intros Hl Hn Hcl Hy rest Hrest. right. split; [| reflexivity].
  intros w s g (-> & -> & x & r' & E & Hx & _).
  rewrite <- !app_assoc in E. apply app_inv_head in E. cbn [app] in E.
  symmetry in E.
  rewrite (@clash_prefix lib namespace x r' y (r ++ rest)
             (@importable_forall lib Hl) (@namespace_ok_forall namespace Hn) Hx Hy E)
    in Hcl.
  discriminate Hcl.
Qed.

Lemma no_space_prefix (lib : text) : forall namespace trail r,
  forallb name_char lib = true -> forallb ns_char namespace = true ->
  space_first trail = true ->
  lib ++ trail = namespace ++ dot :: r -> False.
Proof.
  induction lib as [| c lib IH]; intros ns trail r Hl Hn Ht E.
  - cbn [app] in E. subst trail. destruct ns as [| n ns]; cbn in Ht;
      [discriminate Ht |].
    cbn in Hn. apply andb_prop in Hn as [Hn _]. unfold ns_char in Hn.
    apply andb_prop in Hn as [Hn _]. rewrite Ht in Hn. discriminate Hn.
  - cbn in Hl. apply andb_prop in Hl as [Hc Hl].
    destruct ns as [| n ns]; cbn [app] in E.
    + injection E as -> _. discriminate Hc.
    + injection E as -> E. cbn in Hn. apply andb_prop in Hn as [_ Hn].
      exact (IH ns trail r Hl Hn Ht E).
Qed.

Lemma import_to_same_namespace (ns' namespace lib r : text) :
  importable lib = true -> namespace_ok namespace = true ->
  line_to (shape_import ns' lib) (kw_import ++ namespace ++ dot :: r)
    (kw_import ++ namespace ++ dot :: r).
Proof.
  intros Hl Hn rest Hrest. right. split; [| reflexivity].
  intros w s g (-> & -> & trail & E & Ht & _).
  rewrite <- !app_assoc in E. apply app_inv_head in E. cbn [app] in E.
  symmetry in E.
  exact (@no_space_prefix lib namespace trail (r ++ rest)
           (@importable_forall lib Hl) (@namespace_ok_forall namespace Hn) Ht E).
Qed.

Lemma alias_to_same_namespace (ns' namespace lib r : text) :
  importable lib = true -> clash lib namespace = false ->
  line_to (shape_alias ns' lib) (kw_import ++ namespace ++ dot :: r)
    (kw_import ++ namespace ++ dot :: r).
Proof.
  intros Hl Hcl rest Hrest. right. split; [| reflexivity].
  intros w s g (-> & -> & sub & ws & r' & E & _).
  rewrite <- !app_assoc in E. apply app_inv_head in E. cbn [app] in E.
  assert (H : starts_with (lib ++ [dot]) (namespace ++ dot :: r ++ rest) = true).
  { rewrite E.
    change (lib ++ dot :: sub ++ ws ++ kw_as ++ r')
      with (lib ++ [dot] ++ sub ++ ws ++ kw_as ++ r').
    rewrite app_assoc. apply starts_with_self. }
  rewrite starts_with_dot in H by now apply importable_no_dot.
  unfold clash in Hcl. congruence.
Qed.

(** ** A line alone in a text, and the rules of several libraries *)


Lemma no_dotted_from (lib m name more : text) :
  kw_from ++ m <> kw_import ++ lib ++ dot :: name ++ more.
Proof. discriminate. Qed.

Lemma no_dotted_other (lib lib' t name more : text) :
  importable lib = true -> importable lib' = true -> lib' <> lib ->
  name_end t ->
  kw_import ++ lib ++ t <> kw_import ++ lib' ++ dot :: name ++ more.
Proof.
  intros Hl Hl' Hne Ht E. apply app_inv_head in E.
  destruct (@name_run_unique lib lib' t (dot :: name ++ more)
              (@importable_forall lib Hl) (@importable_forall lib' Hl')
              Ht eq_refl E) as [E1 _].
  now subst lib'.
Qed.

Lemma no_dotted_plain (lib lib' trail name more : text) :
  importable lib = true -> importable lib' = true ->
  space_first trail = true ->
  kw_import ++ lib ++ trail <> kw_import ++ lib' ++ dot :: name ++ more.
Proof.
  intros Hl Hl' Ht E. apply app_inv_head in E.
  assert (Hend : name_end trail).
  { destruct trail as [| x t]; [exact I |]. now apply space_not_name. }
  destruct (@name_run_unique lib lib' trail (dot :: name ++ more)
              (@importable_forall lib Hl) (@importable_forall lib' Hl')
              Hend eq_refl E) as [_ E2].
  subst trail. discriminate Ht.
Qed.

Lemma no_dotted_namespace (namespace lib r name more : text) :
  importable lib = true -> clash lib namespace = false ->
  kw_import ++ namespace ++ dot :: r <>
  kw_import ++ lib ++ dot :: name ++ more.
Proof.
  intros Hl Hcl E. apply app_inv_head in E.
  assert (H : starts_with (lib ++ [dot]) (namespace ++ dot :: r) = true).
  { rewrite E. change (lib ++ dot :: name ++ more)
      with (lib ++ [dot] ++ name ++ more).
    rewrite app_assoc. apply starts_with_self. }
  rewrite starts_with_dot in H by now apply importable_no_dot.
  unfold clash in Hcl. congruence.
Qed.

(** ** Names with dots: the rules on the lines that fit *)

Lemma rmatch_lib_re_inv (lib : text) : forall cont st m',
  rmatch (lib_re lib) cont st = Some m' ->
  exists m r, srest st = m ++ r /\ fits lib m = true /\
              cont (moved st m r) = Some m'.
Proof.
  induction lib as [| c lib IH]; intros cont st m' H.
  - exists [], (srest st). split; [reflexivity |]. split; [reflexivity |].
    now rewrite moved_nil.
  - cbn [lib_re] in H. rewrite rmatch_seq in H.
    destruct st as [prev pos [| x xs] g]; [discriminate H |].
    destruct (cls_ok (if N.eqb c dot then AnyChar else Chr c) x) eqn:E.
    + rewrite rmatch_one in H by exact E.
      apply IH in H as (m & r & Hr & Hf & Hc). cbn [srest] in Hr. subst xs.
      exists (x :: m), r. split; [reflexivity |]. split.
      * cbn [fits]. rewrite Hf, andb_true_r.
        destruct (N.eqb c dot); exact E.
      * now rewrite moved_cons.
    + rewrite rmatch_one_miss in H by exact E. discriminate H.
Qed.

Lemma fits_plain (lib : text) : forall m,
  forallb name_char lib = true -> fits lib m = true -> m = lib.
Proof.
  induction lib as [| c lib IH]; intros [| x m] Hl H; try discriminate H;
    [reflexivity |].
  cbn [fits forallb] in *. apply andb_prop in Hl as [Hc Hl].
  apply andb_prop in H as [Hx H].
  unfold name_char in Hc. apply andb_prop in Hc as [Hc _].
  apply andb_prop in Hc as [_ Hc]. apply negb_true_iff in Hc.
  rewrite Hc in Hx. apply N.eqb_eq in Hx. subst x. now rewrite (IH m Hl H).
Qed.

Lemma fits_self (lib : text) : inline lib = true -> fits lib lib = true.
Proof.
  induction lib as [| c lib IH]; [reflexivity |]. rewrite inline_cons.
  intros H. apply andb_prop in H as [Hc H]. cbn [fits]. rewrite (IH H).
  rewrite N.eqb_refl. destruct (N.eqb c dot); [now rewrite Hc | reflexivity].
Qed.

Lemma pattern_name_inline (lib : text) :
  pattern_name lib = true -> inline lib = true.
Proof.
  unfold pattern_name. intros H. apply andb_prop in H as [_ H].
  now apply nonspaces_inline.
Qed.

Lemma importable_pattern (lib : text) :
  importable lib = true -> pattern_name lib = true.
Proof.
  intros H. unfold pattern_name.
  now rewrite (importable_plain _ H), (importable_nonspaces _ H).
Qed.

(** Two texts that fit one name and start one text are the same. *)
Lemma fits_unique (lib : text) : forall m m' r r',
  fits lib m = true -> fits lib m' = true -> m ++ r = m' ++ r' ->
  m = m' /\ r = r'.
Proof.
  induction lib as [| c lib IH]; intros [| x m] [| x' m'] r r' H H' E;
    try discriminate H; try discriminate H'; [auto |].
  cbn [fits] in H, H'. apply andb_prop in H as [_ H].
  apply andb_prop in H' as [_ H']. cbn [app] in E. injection E as -> E.
  destruct (IH m m' r r' H H' E) as [-> ->]. auto.
Qed.

Lemma import_found_fit (namespace lib t : text) prev pos st :
  match_here (pat_import lib) false prev pos t = Some st ->
  exists ws r1 w s g,
    t = ws ++ r1 /\ spaces ws = true /\ fit_import namespace lib r1 w s g.
Proof.
  intros H. unfold pat_import in H.
  apply anchored_inv in H as (_ & ws & r1 & -> & Hws & H); [| reflexivity].
  change (105%N :: of_string "mport ") with kw_import in H.
  rewrite rmatch_seq in H. apply rmatch_lit_inv in H as (r2 & Hr2 & H).
  rewrite rmatch_seq in H.
  apply rmatch_lib_re_inv in H as (m & r3 & Hr3 & Hf & H).
  apply import_tail_inv in H.
  unfold moved in *. cbn [srest] in *. subst r1 r2.
  exists ws, (kw_import ++ m ++ r3), (kw_import ++ m),
    (T "from " ++ namespace ++ T " import " ++ lib), (firstn 1 r3).
  split; [reflexivity |]. split; [exact Hws |].
  exists m. split; [exact Hf |]. split; [reflexivity |].
  split; [reflexivity |].
  exists r3. now rewrite <- app_assoc.
Qed.

Lemma alias_found_fit (namespace lib t : text) prev pos st :
  match_here (pat_alias lib) false prev pos t = Some st ->
  exists ws r1 w s g,
    t = ws ++ r1 /\ spaces ws = true /\ fit_alias namespace lib r1 w s g.
Proof.
  intros H. unfold pat_alias in H.
  apply anchored_inv in H as (_ & ws & r1 & -> & Hws & H); [| reflexivity].
  change (105%N :: of_string "mport ") with kw_import in H.
  rewrite rmatch_seq in H. apply rmatch_lit_inv in H as (r2 & Hr2 & H).
  rewrite rmatch_seq in H.
  apply rmatch_lib_re_inv in H as (m & r3 & Hr3 & Hf & H).
  unfold moved in *. cbn [srest sprev spos sgroups] in *. subst r1 r2.
  apply alias_tail_inv in H as (sub & ws' & rest & -> & H1 & H2 & H3 & H4).
  exists ws, (kw_import ++ m ++ dot :: sub ++ ws' ++ kw_as ++ rest),
    (kw_import ++ m), (kw_import ++ namespace ++ T "." ++ lib), (dot :: sub).
  split; [reflexivity |]. split; [exact Hws |].
  exists m. split; [exact Hf |]. split; [reflexivity |].
  split; [reflexivity |].
  exists sub, ws', rest. rewrite <- app_assoc. auto 10.
Qed.

Lemma from_found_fit (namespace lib t : text) prev pos st :
  match_here (pat_from lib) false prev pos t = Some st ->
  exists ws r1 w s g,
    t = ws ++ r1 /\ spaces ws = true /\ fit_from namespace lib r1 w s g.
Proof.
  intros H. unfold pat_from in H.
  apply anchored_inv in H as (_ & ws & r1 & -> & Hws & H); [| reflexivity].
  change (102%N :: of_string "rom ") with kw_from in H.
  rewrite rmatch_seq in H. apply rmatch_lit_inv in H as (r2 & Hr2 & H).
  rewrite rmatch_seq in H.
  apply rmatch_lib_re_inv in H as (m & r3 & Hr3 & Hf & H).
  apply from_tail_inv in H as (x & rest & Hr & Hx).
  unfold moved in *. cbn [srest] in *. subst r1 r2 r3.
  exists ws, (kw_from ++ m ++ x :: rest), (kw_from ++ m),
    (kw_from ++ namespace ++ T "." ++ lib), [x].
  split; [reflexivity |]. split; [exact Hws |].
  exists m. split; [exact Hf |]. split; [reflexivity |].
  split; [reflexivity |].
  exists x, rest. now rewrite <- app_assoc.
Qed.

Lemma alias_here_fits (lib m indent sub ws rest : text) prev pos :
  fits lib m = true -> bol_prev prev = true -> spaces indent = true ->
  sub <> [] -> nonspaces sub = true -> ws <> [] -> spaces ws = true ->
  exists st,
    match_here (pat_alias lib) false prev pos
      (indent ++ kw_import ++ m ++ dot :: sub ++ ws ++ kw_as ++ rest)
      = Some st /\
    spos st = pos + length (indent ++ kw_import ++ m ++ dot :: sub) /\
    group 1 (sgroups st) = Some indent /\
    group 2 (sgroups st) = Some (dot :: sub).
Proof.
  intros Hf Hb Hi Hsub Hsubn Hws Hwss. rewrite match_here_search.
  unfold pat_alias. fold kw_import. rewrite kw_import_head.
  rewrite anchored_grp; auto; [| reflexivity].
  rewrite <- kw_import_head.
  rewrite rmatch_seq, rmatch_lit
    with (r := m ++ dot :: sub ++ ws ++ kw_as ++ rest) by reflexivity.
  rewrite rmatch_seq,
    (@rmatch_lib_re lib m _ _ (dot :: sub ++ ws ++ kw_as ++ rest) Hf)
    by reflexivity.
  unfold moved. cbn [srest sprev spos sgroups].
  change (lit (T "as")) with (lit kw_as). rewrite alias_tail by assumption.
  eexists. split; [reflexivity |]. cbn [spos sgroups group Nat.eqb].
  repeat split. rewrite !length_app. simpl length.
  change (length (of_string "mport ")) with 6. change (length kw_import) with 7. lia.
Qed.

Lemma fit_inline (lib m : text) :
  pattern_name lib = true -> fits lib m = true -> inline m = true.
Proof. intros Hl. now apply fits_inline, pattern_name_inline. Qed.

Lemma import_anchored_fit (namespace lib : text) :
  pattern_name lib = true -> namespace_ok namespace = true ->
  anchored (pat_import lib) (tpl_import namespace lib)
    (fit_import namespace lib).
Proof.
  intros Hl Hn. pose proof (pattern_name_inline _ Hl) as Hli.
  pose proof (namespace_ok_inline _ Hn) as Hni.
  unfold pat_import. eexists. split; [reflexivity |].
  split; [| split; [| split]].
  - intros r1 w s g (m & Hf & -> & -> & trail & -> & Ht & ->).
    exists (skipn 1 trail). rewrite skip_one.
    split; [reflexivity |]. split; [apply kw_import_word |].
    split; [now rewrite inline_app, (fit_inline _ _ Hl Hf) |].
    split; [now rewrite !inline_app, Hni, Hli |].
    destruct trail as [| x xs]; [now left | apply one_char].
  - intros r1 w s g w' s' g' (m & Hf & -> & -> & trail & -> & _ & ->)
      (m' & Hf' & -> & -> & trail' & E & _ & ->).
    rewrite <- !app_assoc in E. apply app_inv_head in E.
    destruct (fits_unique _ _ _ _ _ Hf Hf' E) as [-> ->]. auto.
  - intros prev pos ws r1 w s g Hb Hws
      (m & Hf & -> & -> & trail & -> & Ht & ->).
    destruct (@import_here_fits lib m ws trail prev pos Hf Hb Hws
                (space_first_prop _ Ht)) as (st & Hm & Hpos & Hg1 & Hg2).
    exists st. split; [now rewrite <- !app_assoc |].
    split; [now rewrite <- !app_assoc | apply (expand3 _ _ Hg1 Hg2)].
  - intros prev pos t st H.
    exact (@import_found_fit namespace lib t prev pos st H).
Qed.

Lemma from_anchored_fit (namespace lib : text) :
  pattern_name lib = true -> namespace_ok namespace = true ->
  anchored (pat_from lib) (tpl_from namespace lib) (fit_from namespace lib).
Proof.
  intros Hl Hn. pose proof (pattern_name_inline _ Hl) as Hli.
  pose proof (namespace_ok_inline _ Hn) as Hni.
  unfold pat_from. eexists. split; [reflexivity |].
  split; [| split; [| split]].
  - intros r1 w s g (m & Hf & -> & -> & x & rest & -> & Hx & ->).
    exists rest. split; [reflexivity |]. split; [apply kw_from_word |].
    split; [now rewrite inline_app, (fit_inline _ _ Hl Hf) |].
    split; [now rewrite !inline_app, Hni, Hli |]. apply one_char.
  - intros r1 w s g w' s' g' (m & Hf & -> & -> & x & rest & -> & _ & ->)
      (m' & Hf' & -> & -> & x' & rest' & E & _ & ->).
    rewrite <- !app_assoc in E. apply app_inv_head in E.
    destruct (fits_unique _ _ _ _ _ Hf Hf' E) as [-> E'].
    injection E' as -> _. auto.
  - intros prev pos ws r1 w s g Hb Hws
      (m & Hf & -> & -> & x & rest & -> & Hx & ->).
    destruct (@from_here_fits lib m ws rest x prev pos Hf Hb Hws Hx)
      as (st & Hm & Hpos & Hg1 & Hg2).
    exists st. split; [now rewrite <- !app_assoc |].
    split; [now rewrite <- !app_assoc | apply (expand3 _ _ Hg1 Hg2)].
  - intros prev pos t st H.
    exact (@from_found_fit namespace lib t prev pos st H).
Qed.

Lemma alias_anchored_fit (namespace lib : text) :
  pattern_name lib = true -> namespace_ok namespace = true ->
  anchored (pat_alias lib) (tpl_alias namespace lib)
    (fit_alias namespace lib).
Proof.
  intros Hl Hn. pose proof (pattern_name_inline _ Hl) as Hli.
  pose proof (namespace_ok_inline _ Hn) as Hni.
  unfold pat_alias. eexists. split; [reflexivity |].
  split; [| split; [| split]].
  - intros r1 w s g
      (m & Hf & -> & -> & sub & ws & rest & -> & Hsub & Hsubn & Hws & Hwss & ->).
    exists (ws ++ kw_as ++ rest).
    split; [reflexivity |]. split; [apply kw_import_word |].
    split; [now rewrite inline_app, (fit_inline _ _ Hl Hf) |].
    split; [now rewrite !inline_app, Hni, Hli |].
    left. rewrite inline_cons. now rewrite (nonspaces_inline _ Hsubn).
  - intros r1 w s g w' s' g'
      (m & Hf & -> & -> & sub & ws & rest & -> & Hsub & Hsubn & Hws & Hwss & ->)
      (m' & Hf' & -> & -> & sub' & ws' & rest' & E & Hsub' & Hsubn' & Hws' &
       Hwss' & ->).
    rewrite <- !app_assoc in E. apply app_inv_head in E.
    destruct (fits_unique _ _ _ _ _ Hf Hf' E) as [-> E'].
    injection E' as E'.
    destruct (@word_unique sub sub' _ _ Hsubn Hsubn'
                (@spaces_first ws _ Hws Hwss) (@spaces_first ws' _ Hws' Hwss') E')
      as [-> _].
    auto.
  - intros prev pos ws0 r1 w s g Hb Hws0
      (m & Hf & -> & -> & sub & ws & rest & -> & Hsub & Hsubn & Hws & Hwss & ->).
    destruct (@alias_here_fits lib m ws0 sub ws rest prev pos Hf Hb Hws0
                (@nonempty_neq sub Hsub) Hsubn (@nonempty_neq ws Hws) Hwss)
      as (st & Hm & Hpos & Hg1 & Hg2).
    exists st. split; [now rewrite <- !app_assoc |].
    split; [now rewrite <- !app_assoc | apply (expand3 _ _ Hg1 Hg2)].
  - intros prev pos t st H.
    exact (@alias_found_fit namespace lib t prev pos st H).
Qed.

(** For a plain name the shapes are the ones of the name itself. *)
Lemma fit_import_plain (namespace lib r1 w s g : text) :
  importable lib = true ->
  (fit_import namespace lib r1 w s g <-> shape_import namespace lib r1 w s g).
Proof.
  intros Hl. split.
  - intros (m & Hf & -> & -> & H).
    apply fits_plain in Hf; [| now apply importable_forall]. subst m.
    split; [reflexivity |]. split; [reflexivity | exact H].
  - intros (-> & -> & H). exists lib.
    split; [apply fits_self; now apply importable_inline |]. auto.
Qed.

Lemma fit_alias_plain (namespace lib r1 w s g : text) :
  importable lib = true ->
  (fit_alias namespace lib r1 w s g <-> shape_alias namespace lib r1 w s g).
Proof.
  intros Hl. split.
  - intros (m & Hf & -> & -> & H).
    apply fits_plain in Hf; [| now apply importable_forall]. subst m.
    split; [reflexivity |]. split; [reflexivity | exact H].
  - intros (-> & -> & H). exists lib.
    split; [apply fits_self; now apply importable_inline |]. auto.
Qed.

Lemma fit_from_plain (namespace lib r1 w s g : text) :
  importable lib = true ->
  (fit_from namespace lib r1 w s g <-> shape_from namespace lib r1 w s g).
Proof.
  intros Hl. split.
  - intros (m & Hf & -> & -> & H).
    apply fits_plain in Hf; [| now apply importable_forall]. subst m.
    split; [reflexivity |]. split; [reflexivity | exact H].
  - intros (-> & -> & H). exists lib.
    split; [apply fits_self; now apply importable_inline |]. auto.
Qed.

Lemma line_to_iff (shape shape' : text -> text -> text -> text -> Prop)
    (l l' : text) :
  (forall r1 w s g, shape r1 w s g <-> shape' r1 w s g) ->
  line_to shape l l' -> line_to shape' l l'.
Proof.
  intros Hiff H rest Hrest.
  destruct (H rest Hrest) as [(w & s & g & Hs & E) | [Hno E]].
  - left. exists w, s, g. split; [now apply Hiff | exact E].
  - right. split; [| exact E]. intros w s g Hs. apply (Hno w s g).
    now apply Hiff.
Qed.

Lemma line_to_import_fit (namespace lib l l' : text) :
  importable lib = true ->
  line_to (shape_import namespace lib) l l' ->
  line_to (fit_import namespace lib) l l'.
Proof.
  intros Hl. apply line_to_iff. intros r1 w s g. symmetry.
  now apply fit_import_plain.
Qed.

Lemma line_to_alias_fit (namespace lib l l' : text) :
  importable lib = true ->
  line_to (shape_alias namespace lib) l l' ->
  line_to (fit_alias namespace lib) l l'.
Proof.
  intros Hl. apply line_to_iff. intros r1 w s g. symmetry.
  now apply fit_alias_plain.
Qed.

Lemma line_to_from_fit (namespace lib l l' : text) :
  importable lib = true ->
  line_to (shape_from namespace lib) l l' ->
  line_to (fit_from namespace lib) l l'.
Proof.
  intros Hl. apply line_to_iff. intros r1 w s g. symmetry.
  now apply fit_from_plain.
Qed.

(** ** Names that stay apart *)

Lemma apart_no_fit (lib : text) : forall W t m r,
  apart lib W = true -> sep_first t -> W ++ t = m ++ r -> fits lib m = false.
Proof.
  induction lib as [| c lib IH]; intros W t m r Ha Ht E.
  - destruct W; discriminate Ha.
  - destruct m as [| x m]; [reflexivity |]. cbn [fits].
    destruct W as [| y W]; cbn [apart app] in *.
    + subst t. cbn in Ht. apply negb_true_iff in Ha.
      unfold dot_or_space in Ha. apply orb_false_elim in Ha as [Hd Hs].
      rewrite Hd. destruct (N.eqb_spec x c) as [-> | ne]; [| reflexivity].
      unfold dot_or_space in Ht. now rewrite Hd, Hs in Ht.
    + injection E as -> E. apply orb_prop in Ha as [Ha | Ha].
      * apply negb_true_iff in Ha. now rewrite Ha.
      * rewrite (IH W t m r Ha Ht E). apply andb_false_r.
Qed.

Lemma sep_first_space (trail rest : text) :
  space_first trail = true -> line_start rest -> sep_first (trail ++ rest).
Proof.
  intros Ht Hrest. destruct trail as [| x trail]; cbn.
  - destruct Hrest as [-> | (r & ->)]; [exact I |].
    unfold dot_or_space. apply orb_true_r.
  - unfold dot_or_space. cbn in Ht. rewrite Ht. apply orb_true_r.
Qed.

(** A line that starts, after its keyword, with [W] and then a dot, a
    space or nothing has no shape of a rule of a name apart from [W]. *)
Lemma import_to_same_apart (namespace lib W t : text) :
  apart lib W = true -> (forall rest, line_start rest -> sep_first (t ++ rest)) ->
  line_to (fit_import namespace lib) (kw_import ++ W ++ t)
    (kw_import ++ W ++ t).
Proof.
  intros Ha Ht rest Hrest. right. split; [| reflexivity].
  intros w s g (m & Hf & -> & -> & trail & E & _).
  rewrite <- !app_assoc in E. apply app_inv_head in E.
  rewrite (@apart_no_fit lib W (t ++ rest) m trail Ha (Ht rest Hrest) E) in Hf.
  discriminate Hf.
Qed.

Lemma alias_to_same_apart (namespace lib W t : text) :
  apart lib W = true -> (forall rest, line_start rest -> sep_first (t ++ rest)) ->
  line_to (fit_alias namespace lib) (kw_import ++ W ++ t)
    (kw_import ++ W ++ t).
Proof.
  intros Ha Ht rest Hrest. right. split; [| reflexivity].
  intros w s g (m & Hf & -> & -> & sub & ws & r & E & _).
  rewrite <- !app_assoc in E. apply app_inv_head in E.
  rewrite (@apart_no_fit lib W (t ++ rest) m _ Ha (Ht rest Hrest) E) in Hf.
  discriminate Hf.
Qed.

Lemma from_to_same_apart (namespace lib W t : text) :
  apart lib W = true -> (forall rest, line_start rest -> sep_first (t ++ rest)) ->
  line_to (fit_from namespace lib) (kw_from ++ W ++ t) (kw_from ++ W ++ t).
Proof.
  intros Ha Ht rest Hrest. right. split; [| reflexivity].
  intros w s g (m & Hf & -> & -> & x & r & E & _).
  rewrite <- !app_assoc in E. apply app_inv_head in E.
  rewrite (@apart_no_fit lib W (t ++ rest) m _ Ha (Ht rest Hrest) E) in Hf.
  discriminate Hf.
Qed.

(** A line with the other keyword. *)
Lemma import_fit_from (namespace lib m : text) :
  line_to (fit_import namespace lib) (kw_from ++ m) (kw_from ++ m).
Proof.
  intros rest Hrest. right. split; [| reflexivity].
  intros w s g (m' & _ & -> & -> & trail & E & _). cbn in E. discriminate E.
Qed.

Lemma alias_fit_from (namespace lib m : text) :
  line_to (fit_alias namespace lib) (kw_from ++ m) (kw_from ++ m).
Proof.
  intros rest Hrest. right. split; [| reflexivity].
  intros w s g (m' & _ & -> & -> & sub & ws & r & E & _). cbn in E.
  discriminate E.
Qed.

Lemma from_fit_import (namespace lib m : text) :
  line_to (fit_from namespace lib) (kw_import ++ m) (kw_import ++ m).
Proof.
  intros rest Hrest. right. split; [| reflexivity].
  intros w s g (m' & _ & -> & -> & x & r & E & _). cbn in E. discriminate E.
Qed.

(** What a match of the pattern of rule 3 is, for a name with dots. *)
Lemma dotted_found_fit (lib suf : text) prev pos m0 :
  match_here (pat_dotted lib) false prev pos suf = Some m0 ->
  exists ws m name more,
    suf = ws ++ kw_import ++ m ++ dot :: name ++ more /\
    spaces ws = true /\ fits lib m = true.
Proof.
  intros H. rewrite match_here_search in H. unfold pat_dotted in H.
  fold kw_import in H.
  assert (Hb : bol_prev prev = true).
  { rewrite rmatch_bol in H. destruct (bol_prev prev); [reflexivity | discriminate H]. }
  destruct (span_run is_space suf) as (ws & r1 & -> & Hws & Hr1).
  rewrite kw_import_head in H.
  rewrite anchored_star in H by first [assumption | reflexivity].
  change (105%N :: of_string "mport ") with kw_import in H.
  rewrite rmatch_grp, rmatch_seq in H.
  apply rmatch_lit_inv in H as (r2 & Hr2 & H). cbn [srest] in Hr2. subst r1.
  rewrite rmatch_seq in H.
  apply rmatch_lib_re_inv in H as (m & r3 & Hr3 & Hf & H).
  unfold moved in Hr3. cbn [srest] in Hr3. subst r2.
  rewrite rmatch_seq in H. unfold moved in H. cbn [srest sprev spos sgroups] in H.
  destruct r3 as [| x r4]; [discriminate H |].
  destruct (N.eqb x dot) eqn:E;
    [| rewrite rmatch_one_miss in H by exact E; discriminate H].
  apply N.eqb_eq in E. subst x.
  exists ws, m, [], r4. auto.
Qed.

(** ** A line through the rules of a list of names *)

Lemma rewrites_fit (namespace lib : text) :
  pattern_name lib = true -> namespace_ok namespace = true ->
  rewrites_lines (pat_import lib) (tpl_import namespace lib)
    (fit_import namespace lib) /\
  rewrites_lines (pat_alias lib) (tpl_alias namespace lib)
    (fit_alias namespace lib) /\
  rewrites_lines (pat_from lib) (tpl_from namespace lib)
    (fit_from namespace lib).
Proof.
  intros Hl Hn.
  destruct (@import_anchored_fit namespace lib Hl Hn)
    as (b1 & E1 & A1 & B1 & C1 & D1).
  destruct (@alias_anchored_fit namespace lib Hl Hn)
    as (b2 & E2 & A2 & B2 & C2 & D2).
  destruct (@from_anchored_fit namespace lib Hl Hn)
    as (b3 & E3 & A3 & B3 & C3 & D3).
  rewrite E1, E2, E3. repeat split; now apply anchored_rewrites.
Qed.

Lemma lib_line_fit (item : path) (namespace lib : text)
    (a indent l l1 l2 l3 rest out : text) :
  pattern_name lib = true -> namespace_ok namespace = true ->
  line_to (fit_import namespace lib) l l1 ->
  line_to (fit_alias namespace lib) l1 l2 ->
  line_to (fit_from namespace lib) l2 l3 ->
  word_first l -> word_first l1 -> word_first l2 ->
  inline l = true -> inline l1 = true -> inline l2 = true ->
  line_end a -> spaces indent = true -> line_start rest ->
  rewrite_lib item namespace lib (a ++ indent ++ l ++ rest) = Ok out ->
  line_replaced a indent l3 rest out.
Proof.
  intros Hl Hn H1 H2 H3 Hw Hw1 Hw2 Hi Hi1 Hi2 Ha Hin Hrest Hok.
  apply rewrite_lib_ok in Hok. subst out.
  destruct (@rewrites_fit namespace lib Hl Hn) as (R1 & R2 & R3).
  destruct (@rewrites_line_to _ _ _ a indent l l1 rest
              R1 H1 Ha Hin Hw Hi Hrest)
    as (a1 & rest1 & -> & Ha1 & Hn1 & Hrest1 & Hnil1).
  destruct (@rewrites_line_to _ _ _ a1 indent l1 l2 rest1
              R2 H2 Ha1 Hin Hw1 Hi1 Hrest1)
    as (a2 & rest2 & -> & Ha2 & Hn2 & Hrest2 & Hnil2).
  destruct (@rewrites_line_to _ _ _ a2 indent l2 l3 rest2
              R3 H3 Ha2 Hin Hw2 Hi2 Hrest2)
    as (a3 & rest3 & -> & Ha3 & Hn3 & Hrest3 & Hnil3).
  exists a3, rest3. repeat split; auto; congruence.
Qed.

Lemma libs_line_same_fit (item : path) (namespace : text) (libs : list text)
    (indent l : text) :
  namespace_ok namespace = true ->
  spaces indent = true -> word_first l -> inline l = true ->
  (forall lib, In lib libs -> leaves namespace l lib) ->
  forall a rest out,
    line_end a -> line_start rest ->
    rewrite_libs item namespace libs (a ++ indent ++ l ++ rest) = Ok out ->
    line_replaced a indent l rest out.
Proof.
  intros Hn Hi Hw Hl. induction libs as [| lib libs IH];
    intros Hlibs a rest out Ha Hrest Hok.
  - injection Hok as <-. exists a, rest. auto.
  - cbn [rewrite_libs] in Hok.
    destruct (rewrite_lib item namespace lib (a ++ indent ++ l ++ rest))
      as [t1 |] eqn:E1; [| discriminate Hok].
    cbn [bind] in Hok.
    destruct (Hlibs lib (or_introl eq_refl)) as (Hlib & H1 & H2 & H3 & _).
    destruct (@lib_line_fit item namespace lib a indent l l l l rest t1
                Hlib Hn H1 H2 H3 Hw Hw Hw Hl Hl Hl Ha Hi Hrest E1)
      as (a1 & rest1 & -> & Ha1 & Hn1 & Hrest1 & Hnil1).
    apply (@line_replaced_trans a indent l rest a1 rest1 out Ha1 Hn1 Hnil1).
    apply IH; auto. intros lib' Hin. apply Hlibs. now right.
Qed.

Lemma libs_line_fit (item : path) (namespace : text) (before : list text)
    (lib : text) (after : list text) (indent l l1 l2 l3 : text) :
  namespace_ok namespace = true -> spaces indent = true ->
  word_first l -> inline l = true -> word_first l1 -> inline l1 = true ->
  word_first l2 -> inline l2 = true -> word_first l3 -> inline l3 = true ->
  (forall lib', In lib' before -> leaves namespace l lib') ->
  pattern_name lib = true ->
  line_to (fit_import namespace lib) l l1 ->
  line_to (fit_alias namespace lib) l1 l2 ->
  line_to (fit_from namespace lib) l2 l3 ->
  (forall lib', In lib' after -> leaves namespace l3 lib') ->
  forall a rest out,
    line_end a -> line_start rest ->
    rewrite_libs item namespace (before ++ lib :: after)
      (a ++ indent ++ l ++ rest) = Ok out ->
    line_replaced a indent l3 rest out.
Proof.
  intros Hn Hi Hw Hl Hw1 Hl1 Hw2 Hl2 Hw3 Hl3 Hbefore Hlib H1 H2 H3 Hafter
    a rest out Ha Hrest Hok.
  rewrite rewrite_libs_app in Hok.
  destruct (rewrite_libs item namespace before (a ++ indent ++ l ++ rest))
    as [t1 |] eqn:E1; [| discriminate Hok].
  cbn [bind rewrite_libs] in Hok.
  destruct (@libs_line_same_fit item namespace before indent l Hn Hi Hw Hl
              Hbefore a rest t1 Ha Hrest E1)
    as (a1 & rest1 & -> & Ha1 & Hn1 & Hrest1 & Hnil1).
  destruct (rewrite_lib item namespace lib (a1 ++ indent ++ l ++ rest1))
    as [t2 |] eqn:E2; [| discriminate Hok].
  cbn [bind] in Hok.
  destruct (@lib_line_fit item namespace lib a1 indent l l1 l2 l3 rest1 t2
              Hlib Hn H1 H2 H3 Hw Hw1 Hw2 Hl Hl1 Hl2 Ha1 Hi Hrest1 E2)
    as (a2 & rest2 & -> & Ha2 & Hn2 & Hrest2 & Hnil2).
  apply (@line_replaced_trans a indent l3 rest a2 rest2 out Ha2);
    [congruence | auto |].
  exact (@libs_line_same_fit item namespace after indent l3 Hn Hi Hw3 Hl3
           Hafter a2 rest2 out Ha2 Hrest2 Hok).
Qed.

(** The rules of one name on a text of one line that rule 3 does not
    refuse. *)
Lemma lib_alone_fit (item : path) (namespace lib indent l l1 l2 l3 : text) :
  pattern_name lib = true -> namespace_ok namespace = true ->
  spaces indent = true -> inline indent = true ->
  word_first l -> inline l = true -> word_first l1 -> inline l1 = true ->
  word_first l2 -> inline l2 = true ->
  line_to (fit_import namespace lib) l l1 ->
  line_to (fit_alias namespace lib) l1 l2 ->
  line_to (fit_from namespace lib) l2 l3 ->
  (forall m name more,
     fits lib m = true -> l2 <> kw_import ++ m ++ dot :: name ++ more) ->
  rewrite_lib item namespace lib (indent ++ l) = Ok (indent ++ l3).
Proof.
  intros Hl Hn Hi Hii Hw Hin Hw1 Hin1 Hw2 Hin2 H1 H2 H3 Hno.
  assert (S : forall r tpl shape x x',
             anchored r tpl shape -> word_first x -> inline x = true ->
             line_to shape x x' ->
             sub_scan r tpl 0 None 0 (indent ++ x) = indent ++ x').
  { intros r tpl shape x x' Ha Hwx Hix Hto.
    pose proof (@anchored_line r tpl shape None 0 indent x x' []
                  Ha eq_refl Hi Hwx Hix (or_introl eq_refl)
                  (Hto [] (or_introl eq_refl))) as E.
    cbn [after_line] in E. now rewrite !app_nil_r in E. }
  rewrite rewrite_lib_steps. cbv zeta.
  rewrite (S _ _ _ l l1 (@import_anchored_fit namespace lib Hl Hn) Hw Hin H1).
  rewrite (S _ _ _ l1 l2 (@alias_anchored_fit namespace lib Hl Hn) Hw1 Hin1 H2).
  assert (S3 : search (pat_dotted lib) (indent ++ l2) = None).
  { assert (Hm : match_here (pat_dotted lib) false None 0 (indent ++ l2)
                 = None).
    { destruct (match_here (pat_dotted lib) false None 0 (indent ++ l2))
        as [m0 |] eqn:E; [| reflexivity].
      apply dotted_found_fit in E as (ws & m & name & more & E & Hws & Hf).
      apply span_unique in E as [_ E]; auto.
      - now destruct (Hno m name more Hf).
      - now apply word_first_ahead with (rest := []) in Hw2;
          rewrite app_nil_r in Hw2.
      - reflexivity. }
    apply search_last_line; [exact Hm | now rewrite inline_app, Hii, Hin2]. }
  rewrite S3.
  now rewrite (S _ _ _ l2 l3 (@from_anchored_fit namespace lib Hl Hn)
                 Hw2 Hin2 H3).
Qed.

Lemma libs_alone_same_fit (item : path) (namespace : text)
    (libs : list text) (indent l : text) :
  namespace_ok namespace = true ->
  spaces indent = true -> inline indent = true ->
  word_first l -> inline l = true ->
  (forall lib, In lib libs -> leaves namespace l lib) ->
  rewrite_libs item namespace libs (indent ++ l) = Ok (indent ++ l).
Proof.
  intros Hn Hi Hii Hw Hl. induction libs as [| lib libs IH]; intros H;
    [reflexivity |].
  cbn [rewrite_libs].
  destruct (H lib (or_introl eq_refl)) as (Hlib & H1 & H2 & H3 & Hno).
  rewrite (@lib_alone_fit item namespace lib indent l l l l); auto.
  cbn [bind]. apply IH. intros lib' Hin. apply H. now right.
Qed.

Lemma libs_alone_fit (item : path) (namespace : text) (before : list text)
    (lib : text) (after : list text) (indent l l1 l2 l3 : text) :
  namespace_ok namespace = true ->
  spaces indent = true -> inline indent = true ->
  word_first l -> inline l = true -> word_first l1 -> inline l1 = true ->
  word_first l2 -> inline l2 = true -> word_first l3 -> inline l3 = true ->
  (forall lib', In lib' before -> leaves namespace l lib') ->
  pattern_name lib = true ->
  line_to (fit_import namespace lib) l l1 ->
  line_to (fit_alias namespace lib) l1 l2 ->
  line_to (fit_from namespace lib) l2 l3 ->
  (forall m name more,
     fits lib m = true -> l2 <> kw_import ++ m ++ dot :: name ++ more) ->
  (forall lib', In lib' after -> leaves namespace l3 lib') ->
  rewrite_libs item namespace (before ++ lib :: after) (indent ++ l) =
  Ok (indent ++ l3).
Proof.
  intros Hn Hi Hii Hw Hl Hw1 Hl1 Hw2 Hl2 Hw3 Hl3 Hbefore Hlib H1 H2 H3 Hno
    Hafter.
  rewrite rewrite_libs_app.
  rewrite (@libs_alone_same_fit item namespace before indent l); auto.
  cbn [bind rewrite_libs].
  rewrite (@lib_alone_fit item namespace lib indent l l1 l2 l3); auto.
  cbn [bind]. now apply libs_alone_same_fit.
Qed.

(** ** The other names of the list *)

(** A name apart from [W] leaves alone the lines that have [W] after
    their keyword. *)
Lemma leaves_import_apart (namespace lib W t : text) :
  pattern_name lib = true -> apart lib W = true ->
  (forall rest, line_start rest -> sep_first (t ++ rest)) ->
  leaves namespace (kw_import ++ W ++ t) lib.
Proof.
  intros Hl Ha Ht. split; [exact Hl |].
  split; [now apply import_to_same_apart |].
  split; [now apply alias_to_same_apart |].
  split; [apply from_fit_import |].
  intros m name more Hf E. apply app_inv_head in E.
  pose proof (Ht [] (or_introl eq_refl)) as Hs. rewrite app_nil_r in Hs.
  rewrite (@apart_no_fit lib W t m _ Ha Hs E) in Hf. discriminate Hf.
Qed.

Lemma leaves_from_apart (namespace lib W t : text) :
  pattern_name lib = true -> apart lib W = true ->
  (forall rest, line_start rest -> sep_first (t ++ rest)) ->
  leaves namespace (kw_from ++ W ++ t) lib.
Proof.
  intros Hl Ha Ht. split; [exact Hl |].
  split; [apply import_fit_from |]. split; [apply alias_fit_from |].
  split; [now apply from_to_same_apart |].
  intros m name more _. discriminate.
Qed.

Lemma no_dotted_fit_plain (lib l : text) :
  importable lib = true ->
  (forall name more, l <> kw_import ++ lib ++ dot :: name ++ more) ->
  forall m name more,
    fits lib m = true -> l <> kw_import ++ m ++ dot :: name ++ more.
Proof.
  intros Hl H m name more Hf.
  apply fits_plain in Hf; [| now apply importable_forall]. subst m. apply H.
Qed.

(** Another library of the list on the lines that import [L]. *)
Lemma leaves_plain_import (namespace lib lib' trail : text) :
  importable lib = true -> importable lib' = true -> lib' <> lib ->
  space_first trail = true ->
  leaves namespace (kw_import ++ lib ++ trail) lib'.
Proof.
  intros Hl Hl' Hne Ht. split; [now apply importable_pattern |].
  split; [apply line_to_import_fit; auto; now apply import_to_same_other |].
  split; [apply line_to_alias_fit; auto; now apply alias_to_same_plain |].
  split; [apply line_to_from_fit; auto; apply from_to_same_import |].
  apply no_dotted_fit_plain; [exact Hl' |].
  intros name more. now apply no_dotted_plain.
Qed.

Lemma leaves_plain_dotted (namespace lib lib' tail : text) :
  importable lib = true -> importable lib' = true -> lib' <> lib ->
  leaves namespace (kw_import ++ lib ++ dot :: tail) lib'.
Proof.
  intros Hl Hl' Hne. split; [now apply importable_pattern |].
  split; [apply line_to_import_fit; auto; now apply import_to_same_dotted |].
  split; [apply line_to_alias_fit; auto; now apply alias_to_same_other |].
  split; [apply line_to_from_fit; auto; apply from_to_same_import |].
  apply no_dotted_fit_plain; [exact Hl' |].
  intros name more. now apply no_dotted_other.
Qed.

Lemma leaves_plain_from (namespace lib lib' more : text) (x : char) :
  importable lib = true -> importable lib' = true -> lib' <> lib ->
  dot_or_space x = true ->
  leaves namespace (kw_from ++ lib ++ x :: more) lib'.
Proof.
  intros Hl Hl' Hne Hx. split; [now apply importable_pattern |].
  split; [apply line_to_import_fit; auto; apply import_to_same_from |].
  split; [apply line_to_alias_fit; auto; apply alias_to_same_from |].
  split; [apply line_to_from_fit; auto; now apply from_to_same_other |].
  intros m name more' _. discriminate.
Qed.

(** A library that does not clash with the namespace on the lines that
    go through the namespace. *)
Lemma leaves_namespace_from (namespace lib r : text) (y : char) :
  importable lib = true -> namespace_ok namespace = true ->
  clash lib namespace = false -> dot_or_space y = true ->
  leaves namespace (kw_from ++ namespace ++ y :: r) lib.
Proof.
  intros Hl Hn Hcl Hy. split; [now apply importable_pattern |].
  split; [apply line_to_import_fit; auto; apply import_to_same_from |].
  split; [apply line_to_alias_fit; auto; apply alias_to_same_from |].
  split; [apply line_to_from_fit; auto; now apply from_to_same_namespace |].
  intros m name more _. discriminate.
Qed.

Lemma leaves_namespace_import (namespace lib r : text) :
  importable lib = true -> namespace_ok namespace = true ->
  clash lib namespace = false ->
  leaves namespace (kw_import ++ namespace ++ dot :: r) lib.
Proof.
  intros Hl Hn Hcl. split; [now apply importable_pattern |].
  split; [apply line_to_import_fit; auto; now apply import_to_same_namespace |].
  split; [apply line_to_alias_fit; auto; now apply alias_to_same_namespace |].
  split; [apply line_to_from_fit; auto; apply from_to_same_import |].
  apply no_dotted_fit_plain; [exact Hl |].
  intros name more. now apply no_dotted_namespace.
Qed.

Lemma sep_first_cons (c : char) (t : text) :
  dot_or_space c = true ->
  forall rest, line_start rest -> sep_first ((c :: t) ++ rest).
Proof. intros H rest _. exact H. Qed.

(** The names beside [L], on the lines that import [L] and on what the
    rules of [L] make of them. *)
Lemma beside_cases (namespace L lib : text) :
  beside namespace L lib = true ->
  (importable lib = true /\ clash lib namespace = false) \/
  (pattern_name lib = true /\ apart lib L = true /\
   apart lib namespace = true).
Proof.
  unfold beside, vendorable. intros H. apply orb_prop in H as [H | H].
  - left. apply andb_prop in H as [H1 H2]. now apply negb_true_iff in H2.
  - right. apply andb_prop in H as [H H3]. now apply andb_prop in H as [H1 H2].
Qed.

Lemma beside_import (namespace L lib trail : text) :
  importable L = true -> beside namespace L lib = true -> lib <> L ->
  space_first trail = true ->
  leaves namespace (kw_import ++ L ++ trail) lib.
Proof.
  intros HL Hb Hne Ht.
  destruct (beside_cases _ _ _ Hb) as [[Hl _] | (Hl & Ha & _)].
  - now apply leaves_plain_import.
  - apply leaves_import_apart; auto. intros rest Hrest.
    now apply sep_first_space.
Qed.

Lemma beside_dotted (namespace L lib tail : text) :
  importable L = true -> beside namespace L lib = true -> lib <> L ->
  leaves namespace (kw_import ++ L ++ dot :: tail) lib.
Proof.
  intros HL Hb Hne.
  destruct (beside_cases _ _ _ Hb) as [[Hl _] | (Hl & Ha & _)].
  - now apply leaves_plain_dotted.
  - apply leaves_import_apart; auto using sep_first_cons.
Qed.

Lemma beside_from (namespace L lib more : text) (x : char) :
  importable L = true -> beside namespace L lib = true -> lib <> L ->
  dot_or_space x = true ->
  leaves namespace (kw_from ++ L ++ x :: more) lib.
Proof.
  intros HL Hb Hne Hx.
  destruct (beside_cases _ _ _ Hb) as [[Hl _] | (Hl & Ha & _)].
  - now apply leaves_plain_from.
  - apply leaves_from_apart; auto using sep_first_cons.
Qed.

Lemma beside_aside (namespace L lib : text) :
  beside namespace L lib = true -> aside namespace lib = true.
Proof.
  unfold beside, aside. intros H. apply orb_prop in H as [H | H].
  - now rewrite H.
  - apply andb_prop in H as [H H3]. apply andb_prop in H as [H1 H2].
    rewrite H1, H3. apply orb_true_r.
Qed.

Lemma aside_cases (namespace lib : text) :
  aside namespace lib = true ->
  (importable lib = true /\ clash lib namespace = false) \/
  (pattern_name lib = true /\ apart lib namespace = true).
Proof.
  unfold aside, vendorable. intros H. apply orb_prop in H as [H | H].
  - left. apply andb_prop in H as [H1 H2]. now apply negb_true_iff in H2.
  - right. now apply andb_prop in H as [H1 H2].
Qed.

Lemma aside_namespace_from (namespace lib r : text) (y : char) :
  namespace_ok namespace = true -> aside namespace lib = true ->
  dot_or_space y = true ->
  leaves namespace (kw_from ++ namespace ++ y :: r) lib.
Proof.
  intros Hn Hb Hy.
  destruct (aside_cases _ _ Hb) as [[Hl Hc] | (Hl & Ha)].
  - now apply leaves_namespace_from.
  - apply leaves_from_apart; auto using sep_first_cons.
Qed.

Lemma aside_namespace_import (namespace lib r : text) :
  namespace_ok namespace = true -> aside namespace lib = true ->
  leaves namespace (kw_import ++ namespace ++ dot :: r) lib.
Proof.
  intros Hn Hb.
  destruct (aside_cases _ _ Hb) as [[Hl Hc] | (Hl & Ha)].
  - now apply leaves_namespace_import.
  - apply leaves_import_apart; auto using sep_first_cons.
Qed.

(** The first place of a name in a list. *)
Lemma in_first (x : text) (l : list text) :
  In x l -> exists l1 l2, l = l1 ++ x :: l2 /\ ~ In x l1.
Proof.
  induction l as [| y l IH]; intros Hin; [contradiction |].
  destruct (list_eq_dec N.eq_dec y x) as [-> | Hne].
  - exists [], l. auto.
  - destruct Hin as [-> | Hin]; [contradiction |].
    destruct (IH Hin) as (l1 & l2 & -> & Hnot).
    exists (y :: l1), l2. split; [reflexivity |].
    intros [E | H]; [now apply Hne | now apply Hnot].
Qed.

Lemma forallb_in {A : Type} (p : A -> bool) (l : list A) (x : A) :
  forallb p l = true -> In x l -> p x = true.
Proof. intros H Hin. rewrite forallb_forall in H. now apply H. Qed.

(** ** One library among the names of a list *)

(** What the list gives about the library [lib] and about the names
    before and after its first place. *)
Lemma beside_split (namespace : text) (libs : list text) (lib : text) :
  vendorable namespace lib = true ->
  forallb (beside namespace lib) libs = true -> In lib libs ->
  exists before after,
    libs = before ++ lib :: after /\
    importable lib = true /\ clash lib namespace = false /\
    (forall lib', In lib' before ->
       beside namespace lib lib' = true /\ lib' <> lib) /\
    (forall lib', In lib' after -> aside namespace lib' = true).
Proof.
  intros Hv Hlibs Hin.
  destruct (in_first lib libs Hin) as (before & after & -> & Hnot).
  exists before, after. split; [reflexivity |].
  unfold vendorable in Hv. apply andb_prop in Hv as [Hl Hc].
  apply negb_true_iff in Hc. split; [exact Hl |]. split; [exact Hc |].
  split.
  - intros lib' H'. split.
    + apply (forallb_in _ _ _ Hlibs). apply in_or_app. now left.
    + intros ->. now apply Hnot.
  - intros lib' H'. apply (@beside_aside namespace lib).
    apply (forallb_in _ _ _ Hlibs). apply in_or_app. right. now right.
Qed.

(** A line that imports one library of a list, in a text of any lines,
    through the rules of all the names of the list. *)
Lemma libs_rewrite_context (item : path) (namespace : text)
    (libs : list text) (lib a indent rest : text) :
  namespace_ok namespace = true -> vendorable namespace lib = true ->
  forallb (beside namespace lib) libs = true ->
  In lib libs -> line_end a -> spaces indent = true -> line_start rest ->
  (forall trail out,
     space_first trail = true -> inline trail = true ->
     rewrite_text item namespace libs []
       (a ++ indent ++ T "import " ++ lib ++ trail ++ rest) = Ok out ->
     line_replaced a indent
       (T "from " ++ namespace ++ T " import " ++ lib ++ trail) rest out) /\
  (forall sub ws more out,
     nonempty sub = true -> nonspaces sub = true ->
     nonempty ws = true -> spaces ws = true -> inline ws = true ->
     inline more = true ->
     rewrite_text item namespace libs []
       (a ++ indent ++ T "import " ++ lib ++ T "." ++ sub ++ ws ++ T "as" ++
        more ++ rest) = Ok out ->
     line_replaced a indent
       (T "import " ++ namespace ++ T "." ++ lib ++ T "." ++ sub ++ ws ++
        T "as" ++ more) rest out) /\
  (forall x more out,
     dot_or_space x = true -> inline (x :: more) = true ->
     rewrite_text item namespace libs []
       (a ++ indent ++ T "from " ++ lib ++ x :: more ++ rest) = Ok out ->
     line_replaced a indent
       (T "from " ++ namespace ++ T "." ++ lib ++ x :: more) rest out).
Proof.
  intros Hn Hv Hlibs Hin Ha Hi Hrest.
  destruct (@beside_split namespace libs lib Hv Hlibs Hin)
    as (before & after & -> & Hl & Hlc & Hb & Haf).
  pose proof (importable_inline _ Hl) as Hli.
  pose proof (namespace_ok_inline _ Hn) as Hni.
  pose proof (importable_pattern _ Hl) as Hlp.
  split; [| split].
  - intros trail out Ht Hti Hok.
    rewrite rewrite_text_libs in Hok by assumption.
    change (T "import ") with kw_import in Hok.
    replace (a ++ indent ++ kw_import ++ lib ++ trail ++ rest)
      with (a ++ indent ++ (kw_import ++ lib ++ trail) ++ rest) in Hok
      by (now rewrite <- !app_assoc).
    destruct (@word_inline_import lib trail Hl Hti) as [Hw Hin1].
    assert (Hf : inline (namespace ++ T " import " ++ lib ++ trail) = true)
      by (now rewrite !inline_app, Hni, Hli, Hti).
    destruct (@word_inline_from _ Hf) as [Hwf Hif].
    apply (@libs_line_fit item namespace before lib after indent
             (kw_import ++ lib ++ trail)
             (kw_from ++ namespace ++ T " import " ++ lib ++ trail)
             (kw_from ++ namespace ++ T " import " ++ lib ++ trail)
             (kw_from ++ namespace ++ T " import " ++ lib ++ trail));
      auto.
    + intros lib' H'. destruct (Hb lib' H') as [Hl' Hne].
      now apply (@beside_import namespace lib).
    + apply line_to_import_fit; [exact Hl |]. now apply import_to_hit.
    + apply line_to_alias_fit; [exact Hl |].
      apply (@alias_to_same_from namespace lib
               (namespace ++ T " import " ++ lib ++ trail)).
    + apply line_to_from_fit; [exact Hl |]. now apply from_to_same_noclash.
    + intros lib' H'.
      apply (@aside_namespace_from namespace lib'
               (T "import " ++ lib ++ trail) 32%N Hn (Haf lib' H') eq_refl).
  - intros sub ws more out Hsub Hsubn Hws Hwss Hwi Hm Hok.
    rewrite rewrite_text_libs in Hok by assumption.
    change (T "import ") with kw_import in *. change (T "as") with kw_as in *.
    change (T "." ++ sub ++ ws ++ kw_as ++ more ++ rest)
      with (dot :: sub ++ ws ++ kw_as ++ more ++ rest) in Hok.
    change (T "." ++ lib ++ T "." ++ sub ++ ws ++ kw_as ++ more)
      with (dot :: lib ++ dot :: sub ++ ws ++ kw_as ++ more).
    replace (a ++ indent ++ kw_import ++ lib ++ dot :: sub ++ ws ++ kw_as ++
             more ++ rest)
      with (a ++ indent ++
            (kw_import ++ lib ++ dot :: sub ++ ws ++ kw_as ++ more) ++ rest)
      in Hok by (rewrite <- !app_assoc; cbn [app]; now rewrite <- !app_assoc).
    assert (Ht : inline (dot :: sub ++ ws ++ kw_as ++ more) = true)
      by (now rewrite inline_cons, !inline_app, (nonspaces_inline _ Hsubn),
            Hwi, Hm).
    destruct (@word_inline_import lib _ Hl Ht) as [Hw1 Hi1].
    assert (Hi2 : inline (kw_import ++ namespace ++ dot :: lib ++
                          dot :: sub ++ ws ++ kw_as ++ more) = true)
      by (now rewrite !inline_app, Hni, inline_cons, inline_app, Hli, Ht).
    assert (Hw2 : word_first (kw_import ++ namespace ++ dot :: lib ++
                              dot :: sub ++ ws ++ kw_as ++ more))
      by reflexivity.
    apply (@libs_line_fit item namespace before lib after indent
             (kw_import ++ lib ++ dot :: sub ++ ws ++ kw_as ++ more)
             (kw_import ++ lib ++ dot :: sub ++ ws ++ kw_as ++ more)
             (kw_import ++ namespace ++ dot :: lib ++ dot :: sub ++ ws ++
              kw_as ++ more)
             (kw_import ++ namespace ++ dot :: lib ++ dot :: sub ++ ws ++
              kw_as ++ more));
      auto.
    + intros lib' H'. destruct (Hb lib' H') as [Hl' Hne].
      now apply (@beside_dotted namespace lib).
    + apply line_to_import_fit; [exact Hl |].
      apply import_to_same_longer. reflexivity.
    + apply line_to_alias_fit; [exact Hl |]. now apply alias_to_hit.
    + apply line_to_from_fit; [exact Hl |]. apply from_to_same_import.
    + intros lib' H'. apply aside_namespace_import; auto.
  - intros x more out Hx Hxm Hok.
    rewrite rewrite_text_libs in Hok by assumption.
    change (T "from ") with kw_from in *.
    change (T "." ++ lib ++ x :: more) with (dot :: lib ++ x :: more).
    replace (a ++ indent ++ kw_from ++ lib ++ x :: more ++ rest)
      with (a ++ indent ++ (kw_from ++ lib ++ x :: more) ++ rest) in Hok
      by (now rewrite <- !app_assoc).
    assert (H1 : inline (lib ++ x :: more) = true)
      by (now rewrite inline_app, Hli, Hxm).
    assert (H2 : inline (namespace ++ dot :: lib ++ x :: more) = true)
      by (now rewrite !inline_app, Hni, inline_cons, inline_app, Hli, Hxm).
    destruct (@word_inline_from _ H1) as [Hw1 Hi1].
    destruct (@word_inline_from _ H2) as [Hw2 Hi2].
    apply (@libs_line_fit item namespace before lib after indent
             (kw_from ++ lib ++ x :: more) (kw_from ++ lib ++ x :: more)
             (kw_from ++ lib ++ x :: more)
             (kw_from ++ namespace ++ dot :: lib ++ x :: more));
      auto.
    + intros lib' H'. destruct (Hb lib' H') as [Hl' Hne].
      now apply (@beside_from namespace lib).
    + apply line_to_import_fit; [exact Hl |]. apply import_to_same_from.
    + apply line_to_alias_fit; [exact Hl |]. apply alias_to_same_from.
    + apply line_to_from_fit; [exact Hl |]. now apply from_to_hit.
    + intros lib' H'.
      apply (@aside_namespace_from namespace lib' (lib ++ x :: more) dot Hn
               (Haf lib' H') eq_refl).
Qed.

(** A line that imports one library of a list, alone in a text, through
    the rules of all the names of the list. *)
Lemma libs_rewrite_alone (item : path) (namespace : text)
    (libs : list text) (lib indent : text) :
  namespace_ok namespace = true -> vendorable namespace lib = true ->
  forallb (beside namespace lib) libs = true ->
  In lib libs -> spaces indent = true -> inline indent = true ->
  (forall trail,
     space_first trail = true -> inline trail = true ->
     rewrite_text item namespace libs []
       (indent ++ T "import " ++ lib ++ trail) =
     Ok (indent ++ T "from " ++ namespace ++ T " import " ++ lib ++ trail)) /\
  (forall sub ws more,
     nonempty sub = true -> nonspaces sub = true ->
     nonempty ws = true -> spaces ws = true -> inline ws = true ->
     inline more = true ->
     rewrite_text item namespace libs []
       (indent ++ T "import " ++ lib ++ T "." ++ sub ++ ws ++ T "as" ++ more) =
     Ok (indent ++ T "import " ++ namespace ++ T "." ++ lib ++ T "." ++ sub ++
         ws ++ T "as" ++ more)) /\
  (forall x more,
     dot_or_space x = true -> inline (x :: more) = true ->
     rewrite_text item namespace libs []
       (indent ++ T "from " ++ lib ++ x :: more) =
     Ok (indent ++ T "from " ++ namespace ++ T "." ++ lib ++ x :: more)).
Proof.
  intros Hn Hv Hlibs Hin Hi Hii.
  destruct (@beside_split namespace libs lib Hv Hlibs Hin)
    as (before & after & -> & Hl & Hlc & Hb & Haf).
  pose proof (importable_inline _ Hl) as Hli.
  pose proof (namespace_ok_inline _ Hn) as Hni.
  pose proof (importable_pattern _ Hl) as Hlp.
  split; [| split].
  - intros trail Ht Hti.
    rewrite rewrite_text_libs by assumption.
    change (T "import ") with kw_import. change (T "from ") with kw_from.
    destruct (@word_inline_import lib trail Hl Hti) as [Hw Hin1].
    assert (Hf : inline (namespace ++ T " import " ++ lib ++ trail) = true)
      by (now rewrite !inline_app, Hni, Hli, Hti).
    destruct (@word_inline_from _ Hf) as [Hwf Hif].
    apply (@libs_alone_fit item namespace before lib after indent
             (kw_import ++ lib ++ trail)
             (kw_from ++ namespace ++ T " import " ++ lib ++ trail)
             (kw_from ++ namespace ++ T " import " ++ lib ++ trail)
             (kw_from ++ namespace ++ T " import " ++ lib ++ trail));
      auto.
    + intros lib' H'. destruct (Hb lib' H') as [Hl' Hne].
      now apply (@beside_import namespace lib).
    + apply line_to_import_fit; [exact Hl |]. now apply import_to_hit.
    + apply line_to_alias_fit; [exact Hl |].
      apply (@alias_to_same_from namespace lib
               (namespace ++ T " import " ++ lib ++ trail)).
    + apply line_to_from_fit; [exact Hl |]. now apply from_to_same_noclash.
    + apply no_dotted_fit_plain; [exact Hl |].
      intros name more. apply no_dotted_from.
    + intros lib' H'.
      apply (@aside_namespace_from namespace lib'
               (T "import " ++ lib ++ trail) 32%N Hn (Haf lib' H') eq_refl).
  - intros sub ws more Hsub Hsubn Hws Hwss Hwi Hm.
    rewrite rewrite_text_libs by assumption.
    change (T "import ") with kw_import. change (T "as") with kw_as.
    change (T "." ++ sub ++ ws ++ kw_as ++ more)
      with (dot :: sub ++ ws ++ kw_as ++ more).
    change (T "." ++ lib ++ dot :: sub ++ ws ++ kw_as ++ more)
      with (dot :: lib ++ dot :: sub ++ ws ++ kw_as ++ more).
    assert (Ht : inline (dot :: sub ++ ws ++ kw_as ++ more) = true)
      by (now rewrite inline_cons, !inline_app, (nonspaces_inline _ Hsubn),
            Hwi, Hm).
    destruct (@word_inline_import lib _ Hl Ht) as [Hw1 Hi1].
    assert (Hi2 : inline (kw_import ++ namespace ++ dot :: lib ++
                          dot :: sub ++ ws ++ kw_as ++ more) = true)
      by (now rewrite !inline_app, Hni, inline_cons, inline_app, Hli, Ht).
    assert (Hw2 : word_first (kw_import ++ namespace ++ dot :: lib ++
                              dot :: sub ++ ws ++ kw_as ++ more))
      by reflexivity.
    apply (@libs_alone_fit item namespace before lib after indent
             (kw_import ++ lib ++ dot :: sub ++ ws ++ kw_as ++ more)
             (kw_import ++ lib ++ dot :: sub ++ ws ++ kw_as ++ more)
             (kw_import ++ namespace ++ dot :: lib ++ dot :: sub ++ ws ++
              kw_as ++ more)
             (kw_import ++ namespace ++ dot :: lib ++ dot :: sub ++ ws ++
              kw_as ++ more));
      auto.
    + intros lib' H'. destruct (Hb lib' H') as [Hl' Hne].
      now apply (@beside_dotted namespace lib).
    + apply line_to_import_fit; [exact Hl |].
      apply import_to_same_longer. reflexivity.
    + apply line_to_alias_fit; [exact Hl |]. now apply alias_to_hit.
    + apply line_to_from_fit; [exact Hl |]. apply from_to_same_import.
    + apply no_dotted_fit_plain; [exact Hl |].
      intros name more'. now apply no_dotted_namespace.
    + intros lib' H'. apply aside_namespace_import; auto.
  - intros x more Hx Hxm.
    rewrite rewrite_text_libs by assumption.
    change (T "from ") with kw_from.
    change (T "." ++ lib ++ x :: more) with (dot :: lib ++ x :: more).
    assert (H1 : inline (lib ++ x :: more) = true)
      by (now rewrite inline_app, Hli, Hxm).
    assert (H2 : inline (namespace ++ dot :: lib ++ x :: more) = true)
      by (now rewrite !inline_app, Hni, inline_cons, inline_app, Hli, Hxm).
    destruct (@word_inline_from _ H1) as [Hw1 Hi1].
    destruct (@word_inline_from _ H2) as [Hw2 Hi2].
    apply (@libs_alone_fit item namespace before lib after indent
             (kw_from ++ lib ++ x :: more) (kw_from ++ lib ++ x :: more)
             (kw_from ++ lib ++ x :: more)
             (kw_from ++ namespace ++ dot :: lib ++ x :: more));
      auto.
    + intros lib' H'. destruct (Hb lib' H') as [Hl' Hne].
      now apply (@beside_from namespace lib).
    + apply line_to_import_fit; [exact Hl |]. apply import_to_same_from.
    + apply line_to_alias_fit; [exact Hl |]. apply alias_to_same_from.
    + apply line_to_from_fit; [exact Hl |]. now apply from_to_hit.
    + apply no_dotted_fit_plain; [exact Hl |].
      intros name more'. apply no_dotted_from.
    + intros lib' H'.
      apply (@aside_namespace_from namespace lib' (lib ++ x :: more) dot Hn
               (Haf lib' H') eq_refl).
Qed.

(** * The import rules among the detected names *)

(** ** The plain import *)

(** C3, as stated, fails: rule 4 rewrites what rule 1 has just written
    when the namespace starts with the library name and a dot, and so
    does rule 4 of another detected name that the namespace starts
    with. *)
Lemma plain_import_clash :
  rewrite_text [T "m.py"] (T "a.v") [T "a"] [] (T "import a") =
    Ok (T "from a.v.a.v import a") /\
  rewrite_text [T "m.py"] (T "vend") [T "a"; T "vend"] [] (T "import a") =
    Ok (T "from vend.vend import a").
Proof. split; vm_compute; reflexivity. Qed.

(** C3, amended.  [L] is a plain name and the namespace [N] holds no
    space and no backslash.  Rule 1 of [L], in a text of any lines,
    turns a line [import L], alone on its line or followed by a space
    and anything, into [from N import L] with the indentation and what
    follows kept, where the line is, and leaves alone a line where
    something that is not a space follows [L].  When [N] is not [L] and
    does not start with [L] and a dot, and every detected name is
    either such a library or a name that the patterns cover and that is
    apart from [L] and from [N], then [from N import L] is what the
    line is after the rules of all the detected names, whenever they
    raise nothing; alone in a text the line goes through them with
    nothing raised.  A line that imports a longer plain name [Labc]
    that is not itself detected is, after the rules of all the
    detected names, as it was, when each of them is a plain name or a
    name that the patterns cover and that is apart from [Labc]. *)
Theorem plain_import (item : path) (namespace : text) (libs : list text)
    (lib a indent trail rest : text) :
  importable lib = true -> namespace_ok namespace = true ->
  line_end a -> spaces indent = true ->
  space_first trail = true -> inline trail = true -> line_start rest ->
  (exists out,
     re_sub (pat_import lib) (tpl_import namespace lib)
       (a ++ indent ++ T "import " ++ lib ++ trail ++ rest) = Ok out /\
     line_replaced a indent
       (T "from " ++ namespace ++ T " import " ++ lib ++ trail) rest out) /\
  (forall c more,
     is_space c = false -> inline more = true ->
     exists out,
       re_sub (pat_import lib) (tpl_import namespace lib)
         (a ++ indent ++ T "import " ++ lib ++ c :: more ++ rest) = Ok out /\
       line_replaced a indent (T "import " ++ lib ++ c :: more) rest out) /\
  (clash lib namespace = false ->
   forallb (beside namespace lib) libs = true -> In lib libs ->
   (forall out,
      rewrite_text item namespace libs []
        (a ++ indent ++ T "import " ++ lib ++ trail ++ rest) = Ok out ->
      line_replaced a indent
        (T "from " ++ namespace ++ T " import " ++ lib ++ trail) rest out) /\
   (inline indent = true ->
    rewrite_text item namespace libs []
      (indent ++ T "import " ++ lib ++ trail) =
    Ok (indent ++ T "from " ++ namespace ++ T " import " ++ lib ++ trail))) /\
  (forall c more,
     importable (lib ++ c :: more) = true ->
     ~ In (lib ++ c :: more) libs ->
     forallb (clear_of (lib ++ c :: more)) libs = true ->
     (forall out,
        rewrite_text item namespace libs []
          (a ++ indent ++ T "import " ++ (lib ++ c :: more) ++ trail ++ rest) =
        Ok out ->
        line_replaced a indent
          (T "import " ++ (lib ++ c :: more) ++ trail) rest out) /\
     (inline indent = true ->
      rewrite_text item namespace libs []
        (indent ++ T "import " ++ (lib ++ c :: more) ++ trail) =
      Ok (indent ++ T "import " ++ (lib ++ c :: more) ++ trail))).
Proof.
  intros Hl Hn Ha Hi Ht Hti Hrest. change (T "import ") with kw_import.
  pose proof (@import_rewrites namespace lib Hl Hn) as R1.
  destruct (@word_inline_import lib trail Hl Hti) as [Hw Hli].
  split; [| split; [| split]].
  - eexists. split; [apply re_sub_import |].
    replace (a ++ indent ++ kw_import ++ lib ++ trail ++ rest)
      with (a ++ indent ++ (kw_import ++ lib ++ trail) ++ rest)
      by (now rewrite <- !app_assoc).
    apply (@rewrites_line_to _ _ (shape_import namespace lib) a indent
             (kw_import ++ lib ++ trail) _ rest R1); auto.
    now apply import_to_hit.
  - intros c more Hc Hm.
    assert (Hcm : inline (c :: more) = true)
      by (now rewrite inline_cons, (not_space_neq_nl _ Hc), Hm).
    destruct (@word_inline_import lib (c :: more) Hl Hcm) as [Hw' Hli'].
    eexists. split; [apply re_sub_import |].
    replace (a ++ indent ++ kw_import ++ lib ++ c :: more ++ rest)
      with (a ++ indent ++ (kw_import ++ lib ++ c :: more) ++ rest)
      by (now rewrite <- !app_assoc).
    apply (@rewrites_line_to _ _ (shape_import namespace lib) a indent
             (kw_import ++ lib ++ c :: more) _ rest R1); auto.
    now apply import_to_same_longer.
  - intros Hcl Hlibs Hin.
    assert (Hv : vendorable namespace lib = true)
      by (unfold vendorable; now rewrite Hl, Hcl).
    split.
    + intros out Hok.
      destruct (@libs_rewrite_context item namespace libs lib a indent rest
                  Hn Hv Hlibs Hin Ha Hi Hrest) as (A1 & _).
      now apply A1.
    + intros Hii.
      destruct (@libs_rewrite_alone item namespace libs lib indent
                  Hn Hv Hlibs Hin Hi Hii) as (A1 & _).
      now apply A1.
  - intros c more HW Hnot Hlibs.
    set (W := lib ++ c :: more) in *.
    destruct (@word_inline_import W trail HW Hti) as [HwW HiW].
    assert (Hleave : forall lib', In lib' libs ->
                       leaves namespace (kw_import ++ W ++ trail) lib').
    { intros lib' H'.
      pose proof (forallb_in _ _ _ Hlibs H') as Hc. unfold clear_of in Hc.
      apply orb_prop in Hc as [Hc | Hc].
      - apply leaves_plain_import; auto. intros ->. now apply Hnot.
      - apply andb_prop in Hc as [Hp Hap].
        apply leaves_import_apart; auto. intros rest' Hrest'.
        now apply sep_first_space. }
    split.
    + intros out Hok. rewrite rewrite_text_libs in Hok by assumption.
      replace (a ++ indent ++ kw_import ++ W ++ trail ++ rest)
        with (a ++ indent ++ (kw_import ++ W ++ trail) ++ rest) in Hok
        by (now rewrite <- !app_assoc).
      exact (@libs_line_same_fit item namespace libs indent
               (kw_import ++ W ++ trail) Hn Hi HwW HiW Hleave a rest out
               Ha Hrest Hok).
    + intros Hii. rewrite rewrite_text_libs by assumption.
      now apply libs_alone_same_fit.
Qed.

Lemma plain_import_witness :
  rewrite_text [T "m.py"] (T "vend")
    [T "b"; T "a-1.0.dist-info"; T "a"; T "ab"] []
    (T "  " ++ T "import " ++ T "a" ++ T " # c") =
  Ok (T "  " ++ T "from " ++ T "vend" ++ T " import " ++ T "a" ++ T " # c").
Proof.
  exact (proj2 (proj1 (proj2 (proj2
    (@plain_import [T "m.py"] (T "vend")
       [T "b"; T "a-1.0.dist-info"; T "a"; T "ab"] (T "a")
       [] (T "  ") (T " # c") []
       eq_refl eq_refl (or_introl eq_refl) eq_refl eq_refl eq_refl
       (or_introl eq_refl))))
    eq_refl eq_refl (or_intror (or_intror (or_introl eq_refl)))) eq_refl).
Defined.

(** ** The from-import *)

(** C4, as stated, fails: rule 4 of another detected name that the
    namespace starts with rewrites what rule 4 of [L] has written; a
    relative import is rewritten by rule 4 of the empty name, which
    detection gives for a file called [.py]; and when the namespace
    starts with [L] and [L] is detected twice, rule 4 of [L] rewrites
    its own output. *)
Lemma from_import_clash :
  rewrite_text [T "m.py"] (T "vend") [T "a"; T "vend"] []
    (T "from a import x") = Ok (T "from vend.vend.a import x") /\
  fst (detect_vendored_libs [T "v"] [File (T ".py") []]) = [[]] /\
  rewrite_text [T "m.py"] (T "vend") [[]] [] (T "from . import x") =
    Ok (T "from vend.. import x") /\
  rewrite_text [T "m.py"] (T "a") [T "a"; T "a"] [] (T "from a import x") =
    Ok (T "from a.a.a import x").
Proof. repeat split; vm_compute; reflexivity. Qed.

Lemma rooted_apart (lib : text) :
  pattern_name lib = true -> rooted lib = true -> apart lib [] = true.
Proof.
  destruct lib as [| c lib]; [discriminate |]. intros Hp Hr.
  cbn [rooted] in Hr. cbn [apart]. unfold dot_or_space.
  apply negb_true_iff in Hr. rewrite Hr. cbn [orb].
  unfold pattern_name in Hp. apply andb_prop in Hp as [_ Hs].
  unfold nonspaces in Hs. cbn [forallb] in Hs.
  now apply andb_prop in Hs as [Hs _].
Qed.

(** A relative import and the rules of a name that does not start with
    a dot. *)
Lemma leaves_relative (namespace lib rel : text) :
  pattern_name lib = true -> rooted lib = true ->
  leaves namespace (kw_from ++ dot :: rel) lib.
Proof.
  intros Hp Hr.
  apply (@leaves_from_apart namespace lib [] (dot :: rel) Hp
           (@rooted_apart lib Hp Hr)).
  intros rest _. reflexivity.
Qed.

(** C4, amended.  [L] is a plain name and the namespace [N] holds no
    space and no backslash.  When [N] is not [L] and does not start
    with [L] and a dot, and every detected name is either such a
    library or a name that the patterns cover and that is apart from
    [L] and from [N], a line [from L] followed by a space or a dot and
    anything, so [from L import x] and [from L.sub import x], is after
    the rules of all the detected names the line with [N.L] for [L],
    the indentation and the rest kept, where it was, whenever they
    raise nothing; alone in a text it goes through them with nothing
    raised.  When no detected name is empty or starts with a dot, the
    names being any that the patterns cover, a relative import,
    [from .] and anything, is after the rules of all of them as it
    was. *)
Theorem from_import (item : path) (namespace : text) (libs : list text)
    (lib a indent more rest : text) (x : char) :
  importable lib = true -> namespace_ok namespace = true ->
  line_end a -> spaces indent = true -> inline indent = true ->
  dot_or_space x = true -> inline (x :: more) = true -> line_start rest ->
  (clash lib namespace = false ->
   forallb (beside namespace lib) libs = true -> In lib libs ->
   (forall out,
      rewrite_text item namespace libs []
        (a ++ indent ++ T "from " ++ lib ++ x :: more ++ rest) = Ok out ->
      line_replaced a indent
        (T "from " ++ namespace ++ T "." ++ lib ++ x :: more) rest out) /\
   rewrite_text item namespace libs []
     (indent ++ T "from " ++ lib ++ x :: more) =
   Ok (indent ++ T "from " ++ namespace ++ T "." ++ lib ++ x :: more)) /\
  (forall rel,
     forallb pattern_name libs = true -> forallb rooted libs = true ->
     inline rel = true ->
     (forall out,
        rewrite_text item namespace libs []
          (a ++ indent ++ T "from ." ++ rel ++ rest) = Ok out ->
        line_replaced a indent (T "from ." ++ rel) rest out) /\
     rewrite_text item namespace libs [] (indent ++ T "from ." ++ rel) =
     Ok (indent ++ T "from ." ++ rel)).
Proof.
  intros Hl Hn Ha Hi Hii Hx Hxm Hrest. split.
  - intros Hcl Hlibs Hin.
    assert (Hv : vendorable namespace lib = true)
      by (unfold vendorable; now rewrite Hl, Hcl).
    split.
    + intros out Hok.
      destruct (@libs_rewrite_context item namespace libs lib a indent rest
                  Hn Hv Hlibs Hin Ha Hi Hrest) as (_ & _ & A3).
      now apply A3.
    + destruct (@libs_rewrite_alone item namespace libs lib indent
                  Hn Hv Hlibs Hin Hi Hii) as (_ & _ & A3).
      now apply A3.
  - intros rel Hp Hr Hrel.
    change (T "from ." ++ rel ++ rest) with (kw_from ++ dot :: rel ++ rest).
    change (T "from ." ++ rel) with (kw_from ++ dot :: rel).
    assert (H1 : inline (dot :: rel) = true) by (now rewrite inline_cons, Hrel).
    destruct (@word_inline_from _ H1) as [Hw1 Hi1].
    assert (Hleave : forall lib', In lib' libs ->
                       leaves namespace (kw_from ++ dot :: rel) lib').
    { intros lib' H'. apply leaves_relative.
      - now apply (forallb_in _ _ _ Hp).
      - now apply (forallb_in _ _ _ Hr). }
    split.
    + intros out Hok. rewrite rewrite_text_libs in Hok by assumption.
      replace (a ++ indent ++ kw_from ++ dot :: rel ++ rest)
        with (a ++ indent ++ (kw_from ++ dot :: rel) ++ rest) in Hok
        by (now rewrite <- !app_assoc).
      exact (@libs_line_same_fit item namespace libs indent
               (kw_from ++ dot :: rel) Hn Hi Hw1 Hi1 Hleave a rest out
               Ha Hrest Hok).
    + rewrite rewrite_text_libs by assumption.
      now apply libs_alone_same_fit.
Qed.

Lemma from_import_witness :
  rewrite_text [T "d"; T "m.py"] (T "vend")
    [T "b"; T "a-1.0.dist-info"; T "a"] []
    (T "    " ++ T "from " ++ T "a" ++ dot :: T "sub import x") =
  Ok (T "    " ++ T "from " ++ T "vend" ++ T "." ++ T "a" ++
      dot :: T "sub import x").
Proof.
  exact (proj2 (proj1
    (@from_import [T "d"; T "m.py"] (T "vend")
       [T "b"; T "a-1.0.dist-info"; T "a"] (T "a") [] (T "    ")
       (T "sub import x") [] dot
       eq_refl eq_refl (or_introl eq_refl) eq_refl eq_refl eq_refl eq_refl
       (or_introl eq_refl))
    eq_refl eq_refl (or_intror (or_intror (or_introl eq_refl))))).
Defined.

(** ** The aliased dotted import that is refused *)

(** C2. An aliased dotted import of a detected library can be refused.
    The comment over the check of rule 3 excepts the aliased form that
    rule 2 has handled, but rule 2 leaves [import N.L.sub] on the line,
    and the check, [import] and the name and a dot, finds it as soon as
    the text after [import ] starts with a detected name and a dot:
    when the namespace starts with [L] itself, or with another detected
    name, whose own rule 2 then puts the namespace before the line once
    more.  Here with the libraries [a] and [vend] and the namespace
    [vend]; with the library [a] and the namespace [a]; and with the
    namespace and the substitution rule that [main] passes on and a
    library called [positron].  The file is read, nothing is written,
    and the [VendoringError] of rule 3 is raised. *)
Theorem aliased_import_refused :
  rewrite_file_imports [T "m.py"] (T "vend") [T "a"; T "vend"] []
    (T "import a.b as c") =
  (T "import a.b as c", [EvRead [T "m.py"]],
   Some (VendoringError
           (dotted_message [T "m.py"] 1 (T "import vend.vend.a.b")))) /\
  rewrite_file_imports [T "m.py"] (T "a") [T "a"] [] (T "import a.b as c") =
  (T "import a.b as c", [EvRead [T "m.py"]],
   Some (VendoringError (dotted_message [T "m.py"] 1 (T "import a.a.b")))) /\
  rewrite_file_imports [T "m.py"] (T "positron._vendor") [T "positron"]
    [pygments_rule] (T "import positron.x as y") =
  (T "import positron.x as y", [EvRead [T "m.py"]],
   Some (VendoringError
           (dotted_message [T "m.py"] 1
              (T "import positron._vendor.positron.x")))).
Proof. repeat split; vm_compute; reflexivity. Qed.

(** * Further properties *)

(** ** Texts that mention no library *)

Lemma fits_start_app (lib : text) : forall m r,
  fits lib m = true -> fits_start lib (m ++ r) = true.
Proof.
  induction lib as [| c lib IH]; intros [| x m] r H; try discriminate H;
    [reflexivity |].
  cbn [fits] in H. apply andb_prop in H as [Hx H]. cbn [app fits_start].
  now rewrite Hx, (IH m r H).
Qed.

Lemma occurs_fit_at (kw lib m : text) : forall a b,
  fits lib m = true -> occurs_fit kw lib (a ++ kw ++ m ++ b) = true.
Proof.
  intros a b Hf. induction a as [| c a IH].
  - cbn [app].
    assert (H : starts_with kw (kw ++ m ++ b) &&
                fits_start lib (skipn (length kw) (kw ++ m ++ b)) = true).
    { rewrite starts_with_self, skipn_prefix. now apply fits_start_app. }
    destruct (kw ++ m ++ b); cbn [occurs_fit]; now rewrite H.
  - cbn [app occurs_fit]. rewrite IH. apply orb_true_r.
Qed.

(** The rules of a name that the text does not mention give the text
    back. *)
Lemma rewrite_lib_absent (item : path) (namespace lib t : text) :
  mentions lib t = false -> rewrite_lib item namespace lib t = Ok t.
Proof.
  intros H. unfold mentions in H. apply orb_false_elim in H as [Hi Hf].
  assert (Hno : forall kw pre ws m b,
            t = pre ++ ws ++ kw ++ m ++ b -> fits lib m = true ->
            occurs_fit kw lib t = true).
  { intros kw pre ws m b -> Hm. rewrite app_assoc.
    now apply occurs_fit_at. }
  assert (H1 : sub_scan (pat_import lib) (tpl_import namespace lib) 0 None 0 t
               = t).
  { apply sub_scan_none. intros pre suf E.
    destruct (match_here (pat_import lib) false _ _ suf) as [st |] eqn:Em;
      [| reflexivity].
    apply (@import_found_fit namespace) in Em as
        (ws & r1 & w & s & g & -> & _ & m & Hm & -> & _ & trail & -> & _).
    rewrite <- app_assoc in E.
    pose proof (Hno kw_import pre ws m trail E Hm). congruence. }
  assert (H2 : sub_scan (pat_alias lib) (tpl_alias namespace lib) 0 None 0 t
               = t).
  { apply sub_scan_none. intros pre suf E.
    destruct (match_here (pat_alias lib) false _ _ suf) as [st |] eqn:Em;
      [| reflexivity].
    apply (@alias_found_fit namespace) in Em as
        (ws & r1 & w & s & g & -> & _ & m & Hm & -> & _ & sub & ws' & rest &
         -> & _).
    rewrite <- app_assoc in E.
    pose proof (Hno kw_import pre ws m _ E Hm). congruence. }
  assert (H3 : search (pat_dotted lib) t = None).
  { apply search_from_none. intros pre suf E.
    destruct (match_here (pat_dotted lib) false _ _ suf) as [st |] eqn:Em;
      [| reflexivity].
    apply dotted_found_fit in Em as (ws & m & name & more & -> & _ & Hm).
    pose proof (Hno kw_import pre ws m _ E Hm). congruence. }
  assert (H4 : sub_scan (pat_from lib) (tpl_from namespace lib) 0 None 0 t = t).
  { apply sub_scan_none. intros pre suf E.
    destruct (match_here (pat_from lib) false _ _ suf) as [st |] eqn:Em;
      [| reflexivity].
    apply (@from_found_fit namespace) in Em as
        (ws & r1 & w & s & g & -> & _ & m & Hm & -> & _ & x & rest & -> & _).
    rewrite <- app_assoc in E.
    pose proof (Hno kw_from pre ws m _ E Hm). congruence. }
  rewrite rewrite_lib_steps. cbv zeta. rewrite H1, H2, H3. now rewrite H4.
Qed.

Lemma rewrite_libs_absent (item : path) (namespace : text) (libs : list text)
    (t : text) :
  forallb (fun lib => negb (mentions lib t)) libs = true ->
  rewrite_libs item namespace libs t = Ok t.
Proof.
  induction libs as [| lib libs IH]; intros H; [reflexivity |].
  cbn [forallb] in H. apply andb_prop in H as [Hlib H].
  apply negb_true_iff in Hlib.
  cbn [rewrite_libs].
  rewrite (@rewrite_lib_absent item namespace lib t Hlib). cbn [bind].
  now apply IH.
Qed.

(** X1. A file that mentions no library of the list is
    written back as it was read, and nothing is raised.  To mention a
    library is to hold, anywhere, [import ] or [from ] and right after
    it a text that fits the name of the library read as a pattern; for
    a name without a dot, to hold [import L] or [from L].  The names
    are any that the patterns cover. *)
Theorem untouched_text (item : path) (namespace : text) (libs : list text)
    (data : text) :
  tpl_plain namespace = true -> forallb pattern_name libs = true ->
  forallb (fun lib => negb (mentions lib data)) libs = true ->
  rewrite_file_imports item namespace libs [] data =
  (data, [EvRead item; EvWrite item data], None).
Proof.
  intros _ _ H. unfold rewrite_file_imports, rewrite_text.
  cbn [apply_substitutions bind].
  destruct namespace as [| c ns]; [reflexivity |].
  now rewrite (@rewrite_libs_absent item (c :: ns) libs data H).
Qed.

Lemma untouched_text_witness :
  rewrite_file_imports [T "d"; T "m.py"] (T "vend")
    [T "a"; T "b"; T "a-1.0.dist-info"] []
    (T "import os" ++ [nl] ++ T "x = a.f(b)" ++ [nl]) =
  (T "import os" ++ [nl] ++ T "x = a.f(b)" ++ [nl],
   [EvRead [T "d"; T "m.py"];
    EvWrite [T "d"; T "m.py"] (T "import os" ++ [nl] ++ T "x = a.f(b)" ++ [nl])],
   None).
Proof.
  exact (@untouched_text [T "d"; T "m.py"] (T "vend")
           [T "a"; T "b"; T "a-1.0.dist-info"]
           (T "import os" ++ [nl] ++ T "x = a.f(b)" ++ [nl])
           eq_refl eq_refl eq_refl).
Defined.

(** ** Trees that the walk leaves as they are *)

Lemma iter_items_fixed (visit : entry -> entry * list event * option exn)
    (fl : entry -> list (path * text)) (items : list entry) :
  Forall (fun e => visit e = (e, flat_map touch (fl e), None)) items ->
  iter_items visit items = (items, flat_map touch (flat_map fl items), None).
Proof.
  induction 1 as [| item rest Hitem _ IH]; [reflexivity |].
  cbn [iter_items flat_map]. rewrite Hitem, IH. now rewrite flat_map_app.
Qed.

Lemma rewrite_item_fixed namespace vendored_libs substitutions (item : entry) :
  forall destination,
  (forall p d, In (p, d) (files_of destination item) -> is_py p = true ->
     rewrite_text p namespace vendored_libs substitutions d = Ok d) ->
  rewrite_item namespace vendored_libs substitutions destination item =
  (item, flat_map touch (files_of destination item), None).
Proof.
  induction item as [name data | name items IH] using entry_forall_ind;
    intros destination H.
  - cbn [rewrite_item files_of flat_map]. unfold touch. cbn [fst snd].
    unfold is_py in *. rewrite last_snoc in *.
    destruct (endswith name py_ext) eqn:Epy; [| reflexivity].
    unfold rewrite_file_imports.
    rewrite (H (destination ++ [name]) data (or_introl eq_refl));
      [reflexivity |].
    now rewrite last_snoc.
  - cbn [rewrite_item files_of].
    rewrite (@iter_items_fixed _ (files_of (destination ++ [name])) items);
      [reflexivity |].
    rewrite Forall_forall in *. intros e He. apply IH; [exact He |].
    intros p d Hin. apply H. cbn [files_of]. apply in_flat_map. eauto.
Qed.

(** Where the rewriting gives every [.py] file its own text back, the
    walk leaves the tree as it is, reads and writes every [.py] file
    once and raises nothing. *)
Lemma walk_fixed namespace vendored_libs substitutions (destination : path)
    (items : list entry) :
  (forall p d, In (p, d) (walk_files destination items) -> is_py p = true ->
     rewrite_text p namespace vendored_libs substitutions d = Ok d) ->
  rewrite_imports namespace vendored_libs substitutions destination items =
  (items, flat_map touch (walk_files destination items), None).
Proof.
  intros H. unfold rewrite_imports.
  apply (@iter_items_fixed _ (files_of destination) items).
  rewrite Forall_forall. intros e He. apply rewrite_item_fixed.
  intros p d Hin. apply H. unfold walk_files. apply in_flat_map. eauto.
Qed.

(** X2. With an empty namespace and no substitutions the walk
    rewrites nothing, whatever the libraries are: every [.py] file of
    the tree, at any depth, is read and written back with the very text
    that was read from it, once, in the order of the walk; no other
    file is touched, and the rewriting raises nothing.  The files are
    the texts that [read_text] gives: what reading and writing do to
    the bytes on the disk is not part of the statement. *)
Theorem walk_noop (vendored_libs : list text) (destination : path)
    (items : list entry) :
  rewrite_imports [] vendored_libs [] destination items =
  (items, flat_map touch (walk_files destination items), None).
Proof. apply walk_fixed. reflexivity. Qed.

(** X3. The walk raises nothing exactly when the rewriting of no [.py]
    file of the tree raises.  Then every [.py] file holds the text that
    its rewriting gives and every other file the text it had, and the
    events are, file by file in the order of the walk, the read of a
    [.py] file followed by the write of its new text: each such file is
    read once and written once. *)
Theorem walk_completes namespace vendored_libs substitutions
    (destination : path) (items : list entry) :
  (raised (rewrite_imports namespace vendored_libs substitutions
             destination items) = None <->
   Forall (file_ok namespace vendored_libs substitutions)
     (walk_files destination items)) /\
  (raised (rewrite_imports namespace vendored_libs substitutions
             destination items) = None ->
   walk_files destination
     (tree_after (rewrite_imports namespace vendored_libs substitutions
                    destination items)) =
     map (file_after namespace vendored_libs substitutions)
       (walk_files destination items) /\
   events (rewrite_imports namespace vendored_libs substitutions
             destination items) =
     flat_map (file_events namespace vendored_libs substitutions)
       (walk_files destination items)).
Proof.
  pose proof (rewrite_imports_spec namespace vendored_libs substitutions
                destination items) as H.
  destruct (raised (rewrite_imports namespace vendored_libs substitutions
                      destination items)) as [ex |].
  - split; [| discriminate]. split; [discriminate |]. intros Hall.
    destruct H as (before & p & d & after & E & _ & _ & _ & Hpy & Hr).
    rewrite Forall_forall in Hall.
    destruct (Hall (p, d)) as [t Ht].
    + rewrite E. apply in_or_app. right. now left.
    + exact Hpy.
    + cbn [fst snd] in Ht. rewrite Hr in Ht. discriminate Ht.
  - destruct H as (Hfs & Hev & Hok). repeat split; auto.
Qed.

(** ** The number of lines *)

Lemma anchored_nl_count (r : re) (tpl : template) shape (t : text) :
  anchored r tpl shape -> nl_count (sub_scan r tpl 0 None 0 t) = nl_count t.
Proof.
  intros (b & -> & H1 & H2 & H3 & H4).
  now apply (@scan_nl_count b tpl shape H1 H2 H3 H4).
Qed.

Lemma count_nl_le (t : text) (stop : nat) : count_nl t stop <= nl_count t.
Proof.
  unfold count_nl, nl_count. rewrite <- (firstn_skipn stop t) at 2.
  rewrite filter_app, length_app. lia.
Qed.

(** The rules of one library keep the number of newlines, and an error
    names a line of the text. *)
Lemma rewrite_lib_lines (item : path) (namespace lib t : text) :
  pattern_name lib = true -> namespace_ok namespace = true ->
  match rewrite_lib item namespace lib t with
  | Ok out => nl_count out = nl_count t
  | Raise e =>
      exists n line, e = VendoringError (dotted_message item n line) /\
                     1 <= n <= nl_count t + 1
  end.
Proof.
  intros Hl Hn. rewrite rewrite_lib_steps. cbv zeta.
  pose proof (@anchored_nl_count _ _ _ t (@import_anchored_fit namespace lib Hl Hn))
    as E1.
  set (t1 := sub_scan (pat_import lib) (tpl_import namespace lib) 0 None 0 t)
    in *.
  pose proof (@anchored_nl_count _ _ _ t1 (@alias_anchored_fit namespace lib Hl Hn))
    as E2.
  set (t2 := sub_scan (pat_alias lib) (tpl_alias namespace lib) 0 None 0 t1)
    in *.
  destruct (search (pat_dotted lib) t2) as [[start m] |].
  - eexists _, _. split; [reflexivity |].
    pose proof (count_nl_le t2 start). lia.
  - rewrite (@anchored_nl_count _ _ _ t2 (@from_anchored_fit namespace lib Hl Hn)).
    congruence.
Qed.

Lemma rewrite_libs_lines (item : path) (namespace : text) (libs : list text) :
  namespace_ok namespace = true -> forallb pattern_name libs = true ->
  forall t,
  match rewrite_libs item namespace libs t with
  | Ok out => nl_count out = nl_count t
  | Raise e =>
      exists n line, e = VendoringError (dotted_message item n line) /\
                     1 <= n <= nl_count t + 1
  end.
Proof.
  intros Hn. induction libs as [| lib libs IH]; intros Hl t; [reflexivity |].
  cbn [forallb] in Hl. apply andb_prop in Hl as [Hlib Hl].
  cbn [rewrite_libs].
  pose proof (@rewrite_lib_lines item namespace lib t Hlib Hn) as H1.
  destruct (rewrite_lib item namespace lib t) as [t' | e]; cbn [bind];
    [| exact H1].
  specialize (IH Hl t').
  destruct (rewrite_libs item namespace libs t') as [out | e];
    [congruence |].
  destruct IH as (n & line & -> & Hle). exists n, line. split; [reflexivity |].
  lia.
Qed.

(** X4. The import rules keep the number of lines of a
    file: when the namespace holds no space and the names of the list
    are any that the patterns cover, with dots or without, the text
    written has as many newlines as the text read; and when the
    rewriting raises, the error is the [VendoringError] of rule 3 and
    the line number in its message is one of the lines of the file as
    it was read, between 1 and the number of its newlines plus 1. *)
Theorem line_count_kept (item : path) (namespace : text) (libs : list text)
    (data : text) :
  namespace_ok namespace = true -> forallb pattern_name libs = true ->
  (forall out,
     rewrite_text item namespace libs [] data = Ok out ->
     nl_count out = nl_count data) /\
  (forall e,
     rewrite_text item namespace libs [] data = Raise e ->
     exists n line,
       e = VendoringError (dotted_message item n line) /\
       1 <= n <= nl_count data + 1).
Proof.
  intros Hn Hl. rewrite rewrite_text_libs by assumption.
  pose proof (@rewrite_libs_lines item namespace libs Hn Hl data) as H.
  destruct (rewrite_libs item namespace libs data) as [out | e].
  - split; [now intros ? [= <-] | discriminate].
  - split; [discriminate | now intros ? [= <-]].
Qed.

Lemma line_count_kept_witness :
  nl_count (T "import a" ++ [nl] ++ T "x = 1" ++ [nl]) =
  nl_count (T "from vend import a" ++ [nl] ++ T "x = 1" ++ [nl]).
Proof.
  symmetry.
  exact (proj1 (@line_count_kept [T "m.py"] (T "vend")
                  [T "a"; T "a-1.0.dist-info"; T "b"]
                  (T "import a" ++ [nl] ++ T "x = 1" ++ [nl])
                  eq_refl eq_refl)
           (T "from vend import a" ++ [nl] ++ T "x = 1" ++ [nl]) eq_refl).
Defined.

(** ** Dotted imports *)









(** ** Detection after the walk *)

Lemma top_skeleton (e : entry) : top (skeleton e) = top e.
Proof.
  destruct e as [n d | n items]; cbn [skeleton top]; [| reflexivity].
  now destruct (endswith n py_ext).
Qed.

Lemma map_top_skeleton (items : list entry) :
  map top (map skeleton items) = map top items.
Proof.
  rewrite map_map. apply map_ext. apply top_skeleton.
Qed.

(** X7. The walk never changes what detection sees.
    After [rewrite_imports], whether it completed or stopped on an
    error, [detect_vendored_libs] gives for the tree the same names in
    the same order, and the same reports, as before it. *)
Theorem detect_after_rewrite namespace vendored_libs substitutions
    (destination destination' : path) (items : list entry) :
  detect_vendored_libs destination'
    (tree_after (rewrite_imports namespace vendored_libs substitutions
                   destination items)) =
  detect_vendored_libs destination' items.
Proof.
  apply detect_top.
  rewrite <- map_top_skeleton, <- (map_top_skeleton items). f_equal.
  unfold rewrite_imports. apply iter_items_skeleton.
  rewrite Forall_forall. intros e _. apply rewrite_item_skeleton.
Qed.

(** ** A template that [re.sub] refuses *)

Lemma apply_substitutions_bad (substitutions : list substitution) :
  existsb bad_template substitutions = true ->
  forall t, apply_substitutions substitutions t = Raise ReError.
Proof.
  induction substitutions as [| di rest IH]; intros H t; [discriminate H |].
  cbn [existsb] in H. cbn [apply_substitutions].
  unfold re_sub at 1, Re.sub. unfold bad_template in H.
  destruct (tpl_ok (sub_match di) (sub_replace di)); cbn [negb orb] in H;
    [| reflexivity].
  cbn [bind]. now apply IH.
Qed.

(** The walk leaves the tree as it is where the rewriting of every [.py]
    file raises or gives the file its own text back. *)
Lemma iter_items_tree_fixed
    (visit : entry -> entry * list event * option exn) (items : list entry) :
  Forall (fun e => tree_after (visit e) = e) items ->
  tree_after (iter_items visit items) = items.
Proof.
  induction 1 as [| item rest Hitem _ IH]; [reflexivity |].
  cbn [iter_items]. destruct (visit item) as [[item' ev] r].
  unfold tree_after in *. cbn [fst] in *. subst item'.
  destruct r as [ex |]; [reflexivity |].
  destruct (iter_items visit rest) as [[rest' ev'] r']. cbn [fst] in *.
  now subst rest'.
Qed.

Lemma rewrite_item_tree_fixed namespace vendored_libs substitutions
    (item : entry) : forall destination,
  (forall p d, exists e,
     rewrite_text p namespace vendored_libs substitutions d = Raise e) ->
  tree_after (rewrite_item namespace vendored_libs substitutions
                destination item) = item.
Proof.
  induction item as [name data | name items IH] using entry_forall_ind;
    intros destination H.
  - cbn [rewrite_item]. destruct (endswith name py_ext); [| reflexivity].
    unfold rewrite_file_imports.
    destruct (H (destination ++ [name]) data) as [e ->]. reflexivity.
  - cbn [rewrite_item].
    pose proof (@iter_items_tree_fixed
                  (rewrite_item namespace vendored_libs substitutions
                     (destination ++ [name])) items) as Hit.
    destruct (iter_items _ items) as [[items' ev] r].
    unfold tree_after in *. cbn [fst] in *. f_equal. apply Hit.
    rewrite Forall_forall in *. intros e He. now apply IH.
Qed.

(** X8. A substitution rule whose replacement refers
    to a group that its pattern has not makes [re.sub] raise [re.error],
    whatever the text is and whether the pattern matches or not.  With
    such a rule in the list, the rewriting of every file raises that
    error after the read, before any import rule runs and before the
    write; the walk stops at the first [.py] file it meets, and the tree
    is left exactly as it was. *)
Theorem bad_template_aborts namespace vendored_libs
    (substitutions : list substitution) :
  existsb bad_template substitutions = true ->
  (forall item data,
     rewrite_file_imports item namespace vendored_libs substitutions data =
     (data, [EvRead item], Some ReError)) /\
  (forall destination items,
     tree_after (rewrite_imports namespace vendored_libs substitutions
                   destination items) = items /\
     (forall p t,
        ~ In (EvWrite p t)
             (events (rewrite_imports namespace vendored_libs substitutions
                        destination items))) /\
     (raised (rewrite_imports namespace vendored_libs substitutions
                destination items) = None <->
      forall f, In f (walk_files destination items) -> is_py (fst f) = false)).
Proof.
  intros Hbad.
  assert (Ht : forall p d,
            rewrite_text p namespace vendored_libs substitutions d =
            Raise ReError).
  { intros p d. unfold rewrite_text.
    now rewrite (apply_substitutions_bad _ Hbad). }
  assert (Hnopy : forall f,
            file_ok namespace vendored_libs substitutions f ->
            is_py (fst f) = false).
  { intros f Hok. unfold file_ok in Hok.
    destruct (is_py (fst f)); [| reflexivity].
    destruct (Hok eq_refl) as [t' Ht']. rewrite Ht in Ht'. discriminate Ht'. }
  assert (Hnoev : forall fs p t,
            Forall (file_ok namespace vendored_libs substitutions) fs ->
            ~ In (EvWrite p t)
                 (flat_map (file_events namespace vendored_libs substitutions)
                    fs)).
  { intros fs p t Hok Hin. apply in_flat_map in Hin as (f & Hf & Hin).
    rewrite Forall_forall in Hok. specialize (Hnopy f (Hok f Hf)).
    unfold file_events in Hin. now rewrite Hnopy in Hin. }
  split.
  - intros item data. unfold rewrite_file_imports. now rewrite Ht.
  - intros destination items. split; [| split].
    + unfold rewrite_imports. apply iter_items_tree_fixed.
      rewrite Forall_forall. intros e _. apply rewrite_item_tree_fixed.
      intros p d. exists ReError. apply Ht.
    + intros p t Hin.
      pose proof (rewrite_imports_spec namespace vendored_libs substitutions
                    destination items) as H.
      destruct (raised _) as [ex |].
      * destruct H as (before & p0 & d0 & after & _ & _ & Hev & Hok & _).
        rewrite Hev in Hin. apply in_app_or in Hin as [Hin | [Hin | []]];
          [| discriminate Hin].
        exact (Hnoev before p t Hok Hin).
      * destruct H as (_ & Hev & Hok). rewrite Hev in Hin.
        exact (Hnoev _ p t Hok Hin).
    + pose proof (rewrite_imports_spec namespace vendored_libs substitutions
                    destination items) as H.
      destruct (raised _) as [ex |].
      * split; [discriminate |]. intros Hall.
        destruct H as (before & p0 & d0 & after & Hfs & _ & _ & _ & Hpy & _).
        specialize (Hall (p0, d0)). cbn [fst] in Hall. rewrite Hall in Hpy;
          [discriminate Hpy |].
        rewrite Hfs. apply in_or_app. right. now left.
      * split; [| reflexivity]. intros _ f Hf.
        destruct H as (_ & _ & Hok). rewrite Forall_forall in Hok.
        exact (Hnopy f (Hok f Hf)).
Qed.

Lemma bad_template_aborts_witness :
  rewrite_file_imports [T "m.py"] (T "vend") [T "a"]
    [Substitution (lit (T "x")) [TRef 3]] (T "import a") =
  (T "import a", [EvRead [T "m.py"]], Some ReError).
Proof.
  exact (proj1 (@bad_template_aborts (T "vend") [T "a"]
                  [Substitution (lit (T "x")) [TRef 3]] eq_refl)
           [T "m.py"] (T "import a")).
Defined.

(** ** The libraries of a list *)

(** X9. A line that imports the library [L] is
    rewritten by the rules of [L] alone, whatever other names the list
    holds beside it.  [L] is a plain name that does not clash with the
    namespace; every name of the list is either such a library or a
    name of any kind that the patterns cover and that is apart from [L]
    and from the namespace, as the name of a directory of metadata
    [L-1.0.dist-info] is.  Then in a text of any lines, when nothing is
    raised, [import L] becomes [from N import L], [import L.sub as ...]
    becomes [import N.L.sub as ...] and [from L] followed by a dot or a
    space becomes [from N.L], each where the line was: the rules of the
    names before [L] in the list leave the line alone, and so do the
    rules of the names after it, [L] again included, with what the
    rules of [L] made of it. *)
Theorem several_libraries (item : path) (namespace : text)
    (libs : list text) (lib a indent rest : text) :
  namespace_ok namespace = true -> vendorable namespace lib = true ->
  forallb (beside namespace lib) libs = true ->
  In lib libs -> line_end a -> spaces indent = true -> line_start rest ->
  (forall trail out,
     space_first trail = true -> inline trail = true ->
     rewrite_text item namespace libs []
       (a ++ indent ++ T "import " ++ lib ++ trail ++ rest) = Ok out ->
     line_replaced a indent
       (T "from " ++ namespace ++ T " import " ++ lib ++ trail) rest out) /\
  (forall sub ws more out,
     nonempty sub = true -> nonspaces sub = true ->
     nonempty ws = true -> spaces ws = true -> inline ws = true ->
     inline more = true ->
     rewrite_text item namespace libs []
       (a ++ indent ++ T "import " ++ lib ++ T "." ++ sub ++ ws ++ T "as" ++
        more ++ rest) = Ok out ->
     line_replaced a indent
       (T "import " ++ namespace ++ T "." ++ lib ++ T "." ++ sub ++ ws ++
        T "as" ++ more) rest out) /\
  (forall x more out,
     dot_or_space x = true -> inline (x :: more) = true ->
     rewrite_text item namespace libs []
       (a ++ indent ++ T "from " ++ lib ++ x :: more ++ rest) = Ok out ->
     line_replaced a indent
       (T "from " ++ namespace ++ T "." ++ lib ++ x :: more) rest out).
Proof. apply libs_rewrite_context. Qed.

Lemma several_libraries_witness :
  line_replaced (T "x" ++ [nl]) (T "  ") (T "from vend import a # c") []
    (T "x" ++ [nl] ++ T "  from vend import a # c").
Proof.
  exact (proj1 (@several_libraries [T "m.py"] (T "vend")
                  [T "b"; T "a-1.0.dist-info"; T "a"; T "ab"] (T "a")
                  (T "x" ++ [nl]) (T "  ") []
                  eq_refl eq_refl eq_refl
                  (or_intror (or_intror (or_introl eq_refl)))
                  (or_intror (ex_intro _ (T "x") eq_refl)) eq_refl
                  (or_introl eq_refl))
           (T " # c") _ eq_refl eq_refl eq_refl).
Defined.

(** X10. A file of one line that imports the
    library [L] goes through the rules of all the names of the list
    without anything raised.  [L] is a plain name that does not clash
    with the namespace; every name of the list is either such a library
    or a name that the patterns cover and that is apart from [L] and
    from the namespace.  Then [import L] comes out as [from N import L],
    [import L.sub as ...] as [import N.L.sub as ...] and [from L]
    followed by a dot or a space as [from N.L], with the indentation
    and the rest of the line kept. *)
Theorem several_libraries_alone (item : path) (namespace : text)
    (libs : list text) (lib indent : text) :
  namespace_ok namespace = true -> vendorable namespace lib = true ->
  forallb (beside namespace lib) libs = true ->
  In lib libs -> spaces indent = true -> inline indent = true ->
  (forall trail,
     space_first trail = true -> inline trail = true ->
     rewrite_text item namespace libs []
       (indent ++ T "import " ++ lib ++ trail) =
     Ok (indent ++ T "from " ++ namespace ++ T " import " ++ lib ++ trail)) /\
  (forall sub ws more,
     nonempty sub = true -> nonspaces sub = true ->
     nonempty ws = true -> spaces ws = true -> inline ws = true ->
     inline more = true ->
     rewrite_text item namespace libs []
       (indent ++ T "import " ++ lib ++ T "." ++ sub ++ ws ++ T "as" ++ more) =
     Ok (indent ++ T "import " ++ namespace ++ T "." ++ lib ++ T "." ++ sub ++
         ws ++ T "as" ++ more)) /\
  (forall x more,
     dot_or_space x = true -> inline (x :: more) = true ->
     rewrite_text item namespace libs []
       (indent ++ T "from " ++ lib ++ x :: more) =
     Ok (indent ++ T "from " ++ namespace ++ T "." ++ lib ++ x :: more)).
Proof. apply libs_rewrite_alone. Qed.

Lemma several_libraries_alone_witness :
  rewrite_text [T "m.py"] (T "vend")
    [T "b"; T "a-1.0.dist-info"; T "a"; T "ab"; T "a"] []
    (T "  " ++ T "import " ++ T "a" ++ T " # c") =
  Ok (T "  " ++ T "from " ++ T "vend" ++ T " import " ++ T "a" ++ T " # c").
Proof.
  exact (proj1 (@several_libraries_alone [T "m.py"] (T "vend")
                  [T "b"; T "a-1.0.dist-info"; T "a"; T "ab"; T "a"] (T "a")
                  (T "  ")
                  eq_refl eq_refl eq_refl
                  (or_intror (or_intror (or_introl eq_refl)))
                  eq_refl eq_refl)
           (T " # c") eq_refl eq_refl).
Defined.

(** X11. A line that already goes through the
    namespace is left alone.  Every name of the list is a plain name
    that does not clash with the namespace, or a name that the patterns
    cover and that is apart from the namespace.  Then a file of one
    line [from N] followed by a dot or a space, or [import N.] and
    anything, comes out as it is and nothing is raised.  These are the
    lines that the rules write, so rewriting a second time the line
    that the first rewriting of [import L], [import L.sub as ...] or
    [from L ...] gave changes nothing, for a library [L] of the list
    that the other names are apart from. *)
Theorem vendored_lines_stable (item : path) (namespace : text)
    (libs : list text) (indent : text) :
  namespace_ok namespace = true ->
  forallb (aside namespace) libs = true ->
  spaces indent = true -> inline indent = true ->
  (forall y r,
     dot_or_space y = true -> inline (y :: r) = true ->
     rewrite_text item namespace libs []
       (indent ++ T "from " ++ namespace ++ y :: r) =
     Ok (indent ++ T "from " ++ namespace ++ y :: r)) /\
  (forall r,
     inline r = true ->
     rewrite_text item namespace libs []
       (indent ++ T "import " ++ namespace ++ T "." ++ r) =
     Ok (indent ++ T "import " ++ namespace ++ T "." ++ r)) /\
  (forall lib t,
     In lib libs -> vendorable namespace lib = true ->
     forallb (beside namespace lib) libs = true ->
     (exists trail,
        space_first trail = true /\ inline trail = true /\
        t = indent ++ T "import " ++ lib ++ trail) \/
     (exists sub ws more,
        nonempty sub = true /\ nonspaces sub = true /\
        nonempty ws = true /\ spaces ws = true /\ inline ws = true /\
        inline more = true /\
        t = indent ++ T "import " ++ lib ++ T "." ++ sub ++ ws ++ T "as" ++
            more) \/
     (exists x more,
        dot_or_space x = true /\ inline (x :: more) = true /\
        t = indent ++ T "from " ++ lib ++ x :: more) ->
     exists t',
       rewrite_text item namespace libs [] t = Ok t' /\
       rewrite_text item namespace libs [] t' = Ok t').
Proof.
  intros Hn Hlibs Hi Hii.
  pose proof (namespace_ok_inline _ Hn) as Hni.
  assert (Hfrom : forall y r,
            dot_or_space y = true -> inline (y :: r) = true ->
            rewrite_text item namespace libs []
              (indent ++ T "from " ++ namespace ++ y :: r) =
            Ok (indent ++ T "from " ++ namespace ++ y :: r)).
  { intros y r Hy Hr. rewrite rewrite_text_libs by assumption.
    change (T "from ") with kw_from.
    assert (H1 : inline (namespace ++ y :: r) = true)
      by (now rewrite inline_app, Hni, Hr).
    destruct (@word_inline_from _ H1) as [Hw1 Hi1].
    apply libs_alone_same_fit; auto.
    intros lib' H'. apply aside_namespace_from; auto.
    now apply (forallb_in _ _ _ Hlibs). }
  assert (Himp : forall r,
            inline r = true ->
            rewrite_text item namespace libs []
              (indent ++ T "import " ++ namespace ++ T "." ++ r) =
            Ok (indent ++ T "import " ++ namespace ++ T "." ++ r)).
  { intros r Hr. rewrite rewrite_text_libs by assumption.
    change (T "import ") with kw_import.
    change (T "." ++ r) with (dot :: r).
    assert (H1 : inline (kw_import ++ namespace ++ dot :: r) = true)
      by (now rewrite !inline_app, Hni, inline_cons, Hr).
    apply libs_alone_same_fit; auto; [reflexivity |].
    intros lib' H'. apply aside_namespace_import; auto.
    now apply (forallb_in _ _ _ Hlibs). }
  split; [exact Hfrom |]. split; [exact Himp |].
  intros lib t Hin Hv Hbs Ht.
  destruct (@libs_rewrite_alone item namespace libs lib indent
              Hn Hv Hbs Hin Hi Hii) as (A1 & A2 & A3).
  assert (Hl : importable lib = true).
  { unfold vendorable in Hv. now apply andb_prop in Hv as [Hl _]. }
  pose proof (importable_inline _ Hl) as Hli.
  destruct Ht as [(trail & Ht & Hti & ->) |
                  [(sub & ws & more & Hsub & Hsubn & Hws & Hwss & Hwi & Hm & ->)
                  | (x & more & Hx & Hxm & ->)]].
  - eexists. split; [now apply A1 |].
    apply (Hfrom 32%N (T "import " ++ lib ++ trail) eq_refl).
    now rewrite inline_cons, !inline_app, Hli, Hti.
  - eexists. split; [now apply A2 |].
    apply Himp.
    now rewrite !inline_app, Hli, (nonspaces_inline _ Hsubn), Hwi, Hm.
  - eexists. split; [now apply A3 |].
    apply (Hfrom dot (lib ++ x :: more) eq_refl).
    now rewrite inline_cons, inline_app, Hli, Hxm.
Qed.

Lemma vendored_lines_stable_witness :
  rewrite_text [T "m.py"] (T "vend") [T "a"; T "a-1.0.dist-info"; T "b"] []
    (T "  " ++ T "from " ++ T "vend" ++ dot :: T "a import x") =
  Ok (T "  " ++ T "from " ++ T "vend" ++ dot :: T "a import x").
Proof.
  exact (proj1 (@vendored_lines_stable [T "m.py"] (T "vend")
                  [T "a"; T "a-1.0.dist-info"; T "b"]
                  (T "  ") eq_refl eq_refl eq_refl eq_refl)
           dot (T "a import x") eq_refl eq_refl).
Defined.

(** ** A library name with a dot *)

(** X12. The name of a library is pasted into the patterns
    as it is, so a dot in it stands for any character but a newline.  A
    line that imports a module [m] whose name fits the name [L] read as
    a pattern --- [axb] for the library [a.b] --- is rewritten as if it
    imported [L], and the name [L] is written in place of [m]: rule 1
    turns [import m] into [from N import L], and rule 4 turns [from m]
    followed by a dot or a space into [from N.L]. *)
Theorem unescaped_name (namespace lib m indent : text) :
  re_plain lib = true -> nonspaces lib = true -> tpl_plain namespace = true ->
  fits lib m = true -> spaces indent = true -> inline indent = true ->
  (forall trail,
     space_first trail = true -> inline trail = true ->
     re_sub (pat_import lib) (tpl_import namespace lib)
       (indent ++ T "import " ++ m ++ trail) =
     Ok (indent ++ T "from " ++ namespace ++ T " import " ++ lib ++ trail)) /\
  (forall x more,
     dot_or_space x = true -> inline (x :: more) = true ->
     re_sub (pat_from lib) (tpl_from namespace lib)
       (indent ++ T "from " ++ m ++ x :: more) =
     Ok (indent ++ T "from " ++ namespace ++ T "." ++ lib ++ x :: more)).
Proof.
  intros _ Hls _ Hf Hi Hii.
  pose proof (fits_inline lib m (nonspaces_inline _ Hls) Hf) as Hmi.
  split.
  - intros trail Ht Hti. rewrite re_sub_import. f_equal.
    change (T "import ") with kw_import.
    destruct (@import_here_fits lib m indent trail None 0 Hf eq_refl Hi
                (space_first_prop _ Ht)) as (st & Hm & Hpos & Hg1 & Hg2).
    destruct (trail_inline _ Hti) as [Ht1 Ht2].
    rewrite <- (skip_one trail) in Hm |- * at 1.
    replace (indent ++ kw_import ++ m ++ firstn 1 trail ++ skipn 1 trail)
      with ((indent ++ kw_import ++ m ++ firstn 1 trail) ++ skipn 1 trail) in *
      by (now rewrite <- !app_assoc).
    unfold pat_import in *.
    rewrite (@sub_scan_line_match _ (tpl_import namespace lib) _ _ st Hm Hpos).
    + unfold tpl_import. rewrite (expand3 _ _ Hg1 Hg2).
      rewrite <- !app_assoc. now rewrite skip_one.
    + destruct indent; discriminate.
    + rewrite !inline_app, Hii, Hmi, Ht1, Ht2. reflexivity.
  - intros x more Hx Hri. rewrite re_sub_from. f_equal.
    change (T "from ") with kw_from.
    destruct (@from_here_fits lib m indent more x None 0 Hf eq_refl Hi Hx)
      as (st & Hm & Hpos & Hg1 & Hg2).
    rewrite inline_cons in Hri. apply andb_prop in Hri as [Hxi Hri].
    replace (indent ++ kw_from ++ m ++ x :: more)
      with ((indent ++ kw_from ++ m ++ [x]) ++ more)
      in * by (now rewrite <- !app_assoc).
    unfold pat_from in *.
    rewrite (@sub_scan_line_match _ (tpl_from namespace lib) _ _ st Hm Hpos).
    + unfold tpl_from. rewrite (expand3 _ _ Hg1 Hg2).
      now rewrite <- !app_assoc.
    + rewrite kw_from_head. apply indent_nonempty.
    + rewrite !inline_app, inline_cons, Hii, Hmi, Hxi, Hri. reflexivity.
Qed.

Lemma unescaped_name_witness :
  re_sub (pat_import (T "a.b")) (tpl_import (T "vend") (T "a.b"))
    ([] ++ T "import " ++ T "axb" ++ T " # c") =
  Ok ([] ++ T "from " ++ T "vend" ++ T " import " ++ T "a.b" ++ T " # c").
Proof.
  exact (proj1 (@unescaped_name (T "vend") (T "a.b") (T "axb") []
                  eq_refl eq_refl eq_refl eq_refl eq_refl eq_refl)
           (T " # c") eq_refl eq_refl).
Defined.

(** ** [run] *)

Lemma printed_cons (l : text) (lines : list text) :
  printed (l :: lines) =
  match rstrip l with [] => [] | _ :: _ => [EvPrint (rstrip l)] end ++
  printed lines.
Proof.
  unfold printed. cbn [map filter]. now destruct (rstrip l).
Qed.

Lemma run_loop_exit (before : list turn) (rc : Z) (line : text)
    (after : list turn) :
  Forall (fun tn => polled tn = None) before ->
  run_loop (before ++ Turn (Some rc) line :: after) =
  Some (printed (map line_read before ++ [line]), rc).
Proof.
  induction 1 as [| tn before Htn _ IH].
  - cbn [app run_loop map polled line_read]. rewrite printed_cons.
    unfold printed. cbn [map filter]. now rewrite app_nil_r.
  - cbn [app run_loop map]. rewrite Htn, IH. now rewrite printed_cons.
Qed.

Lemma run_loop_running (turns : list turn) :
  Forall (fun tn => polled tn = None) turns -> run_loop turns = None.
Proof.
  induction 1 as [| tn turns Htn _ IH]; [reflexivity |].
  cbn [run_loop]. now rewrite Htn, IH.
Qed.

(** What [rstrip] gives: the text up to its last character that is not
    a space. *)
Lemma rstrip_spec (s : text) :
  exists ws, s = rstrip s ++ ws /\ spaces ws = true /\
             match rev (rstrip s) with
             | [] => True
             | c :: _ => is_space c = false
             end.
Proof.
  induction s as [| c s IH].
  - exists []. repeat split.
  - destruct IH as (ws & E & Hws & Hlast).
    cbn [rstrip]. destruct (rstrip s) as [| d r] eqn:Er.
    + destruct (is_space c) eqn:Ec.
      * exists (c :: s). cbn [app] in E. subst ws. cbn. now rewrite Ec.
      * exists s. cbn [app] in E. subst ws. cbn. now rewrite Ec.
    + exists ws. split; [now rewrite E at 1 |]. split; [exact Hws |].
      change (rev (c :: d :: r)) with (rev (d :: r) ++ [c]).
      destruct (rev (d :: r)) as [| x xs] eqn:Erev; [| exact Hlast].
      apply (f_equal (@length _)) in Erev. rewrite length_rev in Erev.
      discriminate Erev.
Qed.

(** X13. [run] prints the command, its arguments quoted for the
    shell and joined with spaces, and then the lines it reads from the
    process, each without the white space at its end and only if
    something is left of it, up to and including the line read at the
    turn where [poll] first gives a return code: whatever the process
    has written beyond that line is never read nor printed.  It raises
    [VendoringError] exactly when that return code is not zero, with the
    code in the message, and it does not return while [poll] gives no
    return code. *)
Theorem run_output (args : list text) :
  (forall before rc line after,
     Forall (fun tn => polled tn = None) before ->
     run args (before ++ Turn (Some rc) line :: after) =
     Some (EvPrint (T "Running " ++ join_spaces (map shlex_quote args)) ::
           printed (map line_read before ++ [line]),
           if Z.eqb rc 0 then None
           else Some (VendoringError
                        (T "Command exited with non-zero exit code: " ++
                         str_of_Z rc)))) /\
  (forall turns,
     Forall (fun tn => polled tn = None) turns -> run args turns = None) /\
  (forall s, exists ws,
     s = rstrip s ++ ws /\ spaces ws = true /\
     match rev (rstrip s) with
     | [] => True
     | c :: _ => is_space c = false
     end).
Proof.
  split; [| split].
  - intros before rc line after H. unfold run.
    now rewrite (run_loop_exit rc line after H).
  - intros turns H. unfold run. now rewrite (run_loop_running H).
  - apply rstrip_spec.
Qed.

Example run_example :
  run [T "git"; T "apply"; T "--verbose"; T "my patch.patch"]
    [Turn None (T "Checking patch a.py..." ++ [nl]);
     Turn None [nl];
     Turn (Some 1%Z) (T "error: patch failed  " ++ [nl]);
     Turn (Some 1%Z) (T "error: a.py: patch does not apply" ++ [nl])] =
  Some ([EvPrint (T "Running git apply --verbose 'my patch.patch'");
         EvPrint (T "Checking patch a.py...");
         EvPrint (T "error: patch failed")],
        Some (VendoringError (T "Command exited with non-zero exit code: 1"))).
Proof. vm_compute. reflexivity. Qed.

Lemma run_output_witness :
  run [T "pip"; T "install"]
    ([Turn None (T "Collecting jedi  " ++ [nl])] ++
     Turn (Some 2%Z) [nl] :: [Turn (Some 2%Z) (T "late")]) =
  Some ([EvPrint (T "Running pip install"); EvPrint (T "Collecting jedi")],
        Some (VendoringError (T "Command exited with non-zero exit code: 2"))).
Proof.
  exact (proj1 (run_output [T "pip"; T "install"])
           [Turn None (T "Collecting jedi  " ++ [nl])] 2%Z [nl]
           [Turn (Some 2%Z) (T "late")]
           (@Forall_cons turn (fun tn => polled tn = None)
              (Turn None (T "Collecting jedi  " ++ [nl])) [] eq_refl
              (Forall_nil _))).
Defined.

(** ** Detection and the walk together *)

(** X14. Detection and the walk as [main]
    puts them together, the walk with the libraries that detection
    found in the same tree.  When the walk completes, then for every
    top-level directory [L] and every top-level module [L.py] whose
    name is a plain name that does not clash with the namespace, every
    line of every [.py] file of the tree, at any depth, that imports
    [L] --- [import L], [import L.sub as ...], [from L ...] or
    [from L.sub ...] --- is, in the file as the walk leaves it, the
    line that goes through the namespace, where it was.  The other
    names found are libraries of the same kind or names that the
    patterns cover and that are apart from [L] and from the namespace,
    as the directories of metadata [L-1.0.dist-info] that the
    installation leaves beside the libraries are. *)
Theorem detected_libraries_rewritten (namespace : text) (destination : path)
    (items : list entry) :
  let libs := fst (detect_vendored_libs destination items) in
  namespace_ok namespace = true ->
  raised (rewrite_imports namespace libs [] destination items) = None ->
  forall (L : text) (p : path) (d a indent l l' rest : text),
    (exists sub, In (Dir L sub) items) \/
    (exists d0, In (File (L ++ py_ext) d0) items) ->
    vendorable namespace L = true ->
    forallb (beside namespace L) libs = true ->
    In (p, d) (walk_files destination items) -> is_py p = true ->
    rewritten_line namespace L l l' ->
    line_end a -> spaces indent = true -> line_start rest ->
    d = a ++ indent ++ l ++ rest ->
    exists out,
      In (p, out)
         (walk_files destination
            (tree_after (rewrite_imports namespace libs [] destination
                           items))) /\
      line_replaced a indent l' rest out.
Proof.
  intros libs Hn Hr L p d a indent l l' rest HL Hv Hlibs Hin Hpy Hline
    Ha Hi Hrest ->.
  assert (HinL : In L libs) by (now apply detect_in).
  pose proof (rewrite_imports_spec namespace libs [] destination items) as H.
  rewrite Hr in H. destruct H as (Hfs & _ & Hok).
  rewrite Forall_forall in Hok.
  destruct (Hok _ Hin Hpy) as [out Hout]. cbn [fst snd] in Hout.
  exists out. split.
  - rewrite Hfs.
    replace (p, out)
      with (file_after namespace libs [] (p, a ++ indent ++ l ++ rest)).
    + now apply in_map.
    + unfold file_after. cbn [fst snd]. now rewrite Hpy, Hout.
  - destruct (@libs_rewrite_context p namespace libs L a indent rest
                Hn Hv Hlibs HinL Ha Hi Hrest) as (A1 & A2 & A3).
    destruct Hline as [trail Ht Hti | sub ws more H1 H2 H3 H4 H5 H6
                       | x more Hx Hxm].
    + apply (A1 trail out Ht Hti). rewrite <- Hout. f_equal.
      now rewrite <- !app_assoc.
    + apply (A2 sub ws more out H1 H2 H3 H4 H5 H6). rewrite <- Hout. f_equal.
      now rewrite <- !app_assoc.
    + apply (A3 x more out Hx Hxm). rewrite <- Hout. f_equal.
      rewrite <- !app_assoc. reflexivity.
Qed.

Lemma detected_libraries_rewritten_witness :
  exists out,
    In ([T "v"; T "z.py"], out)
       (walk_files [T "v"]
          (tree_after
             (rewrite_imports (T "vend")
                [T "a"; T "a-1.0.dist-info"; T "z"] [] [T "v"]
                [Dir (T "a")
                   [File (T "__init__.py") (T "from a.b import c" ++ [nl])];
                 Dir (T "a-1.0.dist-info") [File (T "METADATA") (T "a")];
                 File (T "z.py") (T "import a" ++ [nl])]))) /\
    line_replaced [] [] (T "from vend import a") [nl] out.
Proof.
  exact (@detected_libraries_rewritten (T "vend") [T "v"]
           [Dir (T "a")
              [File (T "__init__.py") (T "from a.b import c" ++ [nl])];
            Dir (T "a-1.0.dist-info") [File (T "METADATA") (T "a")];
            File (T "z.py") (T "import a" ++ [nl])]
           eq_refl eq_refl
           (T "a") [T "v"; T "z.py"] (T "import a" ++ [nl]) [] []
           (T "import " ++ T "a" ++ [])
           (T "from " ++ T "vend" ++ T " import " ++ T "a" ++ []) [nl]
           (or_introl
              (ex_intro _
                 [File (T "__init__.py") (T "from a.b import c" ++ [nl])]
                 (or_introl eq_refl)))
           eq_refl eq_refl
           (or_intror (or_intror (or_introl eq_refl))) eq_refl
           (RwImport (T "vend") (T "a") [] eq_refl eq_refl)
           (or_introl eq_refl) eq_refl (or_intror (ex_intro _ [] eq_refl))
           eq_refl).
Defined.

(** ** The errors of the walk *)

Lemma rewrite_lib_raise (item : path) (namespace lib t : text) (e : exn) :
  rewrite_lib item namespace lib t = Raise e ->
  exists n line, 1 <= n /\ e = VendoringError (dotted_message item n line).
Proof.
  rewrite rewrite_lib_steps. cbv zeta.
  destruct (search (pat_dotted lib) _) as [[start m] |]; [| discriminate].
  intros [= <-]. eexists _, _. split; [| reflexivity]. lia.
Qed.

Lemma rewrite_libs_raise (item : path) (namespace : text) (libs : list text) :
  forall t e,
  rewrite_libs item namespace libs t = Raise e ->
  exists n line, 1 <= n /\ e = VendoringError (dotted_message item n line).
Proof.
  induction libs as [| lib libs IH]; intros t e H; [discriminate H |].
  cbn [rewrite_libs] in H.
  destruct (rewrite_lib item namespace lib t) as [t' | e'] eqn:E;
    cbn [bind] in H.
  - exact (IH t' e H).
  - injection H as <-. exact (rewrite_lib_raise _ _ _ _ E).
Qed.

Lemma apply_substitutions_raise (substitutions : list substitution) :
  forall t e,
  apply_substitutions substitutions t = Raise e ->
  e = ReError /\ existsb bad_template substitutions = true.
Proof.
  induction substitutions as [| di rest IH]; intros t e H; [discriminate H |].
  cbn [apply_substitutions existsb] in *. unfold bad_template at 1.
  unfold re_sub at 1, Re.sub in H.
  destruct (tpl_ok (sub_match di) (sub_replace di)); cbn [bind negb orb] in *.
  - exact (IH _ e H).
  - now injection H as <-.
Qed.

Lemma rewrite_text_raise (item : path) (namespace : text) (libs : list text)
    (substitutions : list substitution) (t : text) (e : exn) :
  rewrite_text item namespace libs substitutions t = Raise e ->
  (e = ReError /\ existsb bad_template substitutions = true) \/
  exists n line, 1 <= n /\ e = VendoringError (dotted_message item n line).
Proof.
  unfold rewrite_text.
  destruct (apply_substitutions substitutions t) as [t' | e'] eqn:E;
    cbn [bind]; intros H.
  - right. destruct namespace as [| c ns]; [discriminate H |].
    exact (rewrite_libs_raise _ _ _ _ H).
  - left. injection H as <-. exact (apply_substitutions_raise _ _ E).
Qed.

(** The two errors of the walk. *)
Lemma walk_raise namespace vendored_libs substitutions
    (destination : path) (items : list entry) (e : exn) :
  raised (rewrite_imports namespace vendored_libs substitutions
            destination items) = Some e ->
  (e = ReError /\ existsb bad_template substitutions = true) \/
  exists p d n line,
    In (p, d) (walk_files destination items) /\ is_py p = true /\
    1 <= n /\ e = VendoringError (dotted_message p n line) /\
    contains (path_str p) (dotted_message p n line) /\
    contains (str_of_nat n) (dotted_message p n line) /\
    contains line (dotted_message p n line).
Proof.
  intros Hr.
  pose proof (rewrite_imports_spec namespace vendored_libs substitutions
                destination items) as H.
  rewrite Hr in H.
  destruct H as (before & p & d & after & Hfs & _ & _ & _ & Hpy & Hraise).
  apply rewrite_text_raise in Hraise as [Hre | (n & line & Hn & ->)];
    [now left | right].
  exists p, d, n, line. split.
  - rewrite Hfs. apply in_or_app. right. now left.
  - repeat (split; [assumption || reflexivity |]). apply message_contains.
Qed.



(** ** A namespace that starts with the name of the library *)



(** ** The configuration of [main] *)

Lemma starts_with_split (p : text) : forall s,
  starts_with p s = true -> exists r, s = p ++ r.
Proof.
  induction p as [| c p IH]; intros s H; [now exists s |].
  destruct s as [| x s]; [discriminate H |]. cbn [starts_with] in H.
  apply andb_prop in H as [Hx H]. apply N.eqb_eq in Hx. subst x.
  destruct (IH s H) as [r ->]. now exists r.
Qed.

(** X17. With the namespace and the substitution rule
    that [main] passes on, [positron._vendor] and the rule for the
    strings of [pygments], the assumptions of the properties above
    hold: the namespace holds no space and no backslash; a library
    clashes with it only if it is called [positron]; the template of
    the rule is one that [re] accepts and refers to no group.  So in a
    run of [main], when the names detected hold no pattern operator but
    dots and the files hold texts that [read_text] has decoded, the
    rewriting in the walk can raise nothing but the [VendoringError] of
    rule 3, which names a [.py] file of the tree and a line. *)
Theorem main_configuration :
  namespace_ok main_namespace = true /\
  (forall lib, importable lib = true ->
     (clash lib main_namespace = true <-> lib = T "positron")) /\
  existsb bad_template main_substitutions = false /\
  forallb (fun di => whole_free (sub_replace di)) main_substitutions = true /\
  (forall vendored_libs destination items e,
     forallb re_plain vendored_libs = true ->
     raised (rewrite_imports main_namespace vendored_libs main_substitutions
               destination items) = Some e ->
     exists p d n line,
       In (p, d) (walk_files destination items) /\ is_py p = true /\
       1 <= n /\ e = VendoringError (dotted_message p n line)).
Proof.
  split; [reflexivity |].
  split; [| split; [reflexivity |]; split; [reflexivity |]].
  - intros lib Hl. split; [| now intros ->].
    unfold clash. intros H. apply starts_with_split in H as [r E].
    rewrite <- app_assoc in E. cbn [app] in E.
    change (main_namespace ++ [dot])
      with (T "positron" ++ dot :: T "_vendor.") in E.
    symmetry in E.
    now destruct (@name_run_unique lib (T "positron") (dot :: r)
                    (dot :: T "_vendor.") (@importable_forall lib Hl)
                    eq_refl eq_refl eq_refl E) as [-> _].
  - intros vendored_libs destination items e _ Hr.
    apply walk_raise in Hr
      as [[_ Hbad] | (p & d & n & line & H1 & H2 & H3 & H4 & _)].
    + discriminate Hbad.
    + now exists p, d, n, line.
Qed.
